(** * frida-ios-dump-ng: the bundle transfer subsystem

    A shallow embedding of [progress.py], [transfer.py], the download part of
    [ssh.py] and the fallback controller of [cli.py], with the properties of
    the specification stated and proved over it.

    Python values are modelled as follows: [int] as [Z], [bytes] as
    [list byte], [str] as [string] (one character per [ascii]), a [dict] as
    a [gmap], an exception that leaves a function as the left injection of
    the function's result; paths are POSIX paths.  The
    device, the Frida agent, the SFTP server and the wall clock are outside
    the program: their answers come from an environment state of an
    arbitrary type, through the operations of the classes below. *)

From Stdlib Require Import ZArith List Ascii String Strings.Byte Lia Permutation Sorted.
From stdpp Require Import base option list gmap strings sorting.
From Equations Require Import Equations.

Local Open Scope string_scope.
Local Open Scope list_scope.
Local Open Scope Z_scope.

(* ===================================================================== *)
(** * Paths ([posixpath]) *)
(* ===================================================================== *)

Module Posix.

Definition sep : ascii := "/"%char.

Definition is_sep (c : ascii) : bool := Ascii.eqb c sep.

Fixpoint drop_while {A} (p : A -> bool) (l : list A) : list A :=
  match l with
  | [] => []
  | x :: l' => if p x then drop_while p l' else l
  end.

Definition startswith_sep (s : string) : bool :=
  match s with
  | String c _ => is_sep c
  | EmptyString => false
  end.

Definition endswith_sep (s : string) : bool :=
  match rev (list_ascii_of_string s) with
  | c :: _ => is_sep c
  | [] => false
  end.

(** [posixpath.join(a, b)] *)
Definition join (a b : string) : string :=
  if startswith_sep b then b
  else if (String.length a =? 0)%nat || endswith_sep a then a +:+ b
  else a +:+ "/" +:+ b.

(** [posixpath.dirname(p)]: the head up to and including the last
    separator, with its trailing separators removed unless it consists of
    separators only. *)
Definition dirname (p : string) : string :=
  let head_rev := drop_while (fun c => negb (is_sep c)) (rev (list_ascii_of_string p)) in
  match drop_while is_sep head_rev with
  | [] => string_of_list_ascii (rev head_rev)
  | stripped => string_of_list_ascii (rev stripped)
  end.

Fixpoint take_while {A} (p : A -> bool) (l : list A) : list A :=
  match l with
  | [] => []
  | x :: l' => if p x then x :: take_while p l' else []
  end.

(** [posixpath.basename(p)]: what follows the last separator. *)
Definition basename (p : string) : string :=
  string_of_list_ascii
    (rev (take_while (fun c => negb (is_sep c)) (rev (list_ascii_of_string p)))).

(** [f"{root}/{rel}"] *)
Definition slash (root rel : string) : string := root +:+ "/" +:+ rel.

(** [a] is a proper ancestor directory of [b]. *)
Definition ancestor (a b : string) : Prop :=
  exists rest, b = a +:+ "/" +:+ rest.

End Posix.

(* ===================================================================== *)
(** * Exceptions and the outcome of a call *)
(* ===================================================================== *)

(** The subclasses of [Exception] the program raises, catches by class or
    receives from [frida] and [paramiko]. *)
Inductive Exception : Type :=
| RuntimeError (msg : string)
| ValueError (msg : string)
| OSError (msg : string)
| TransportError (msg : string)
| InvalidOperationError (msg : string)
| OperationCancelledError (msg : string)
| NotSupportedError (msg : string)
| OtherException (msg : string).

(** [SystemExit] derives from [BaseException] only: no [except Exception]
    catches it. *)
Inductive BaseException : Type :=
| Exc (e : Exception)
| SystemExit (msg : string) (cause : Exception).

Definition bytes : Type := list byte.

(** A call either raises ([inl]) or returns ([inr]); the state reached is
    kept in both cases. *)
Definition M (S E A : Type) : Type := S -> (E + A) * S.

Definition ret {S E A} (a : A) : M S E A := fun s => (inr a, s).

Definition raise {S E A} (e : E) : M S E A := fun s => (inl e, s).

Definition bind {S E A B} (c : M S E A) (k : A -> M S E B) : M S E B :=
  fun s => match c s with
           | (inl e, s') => (inl e, s')
           | (inr a, s') => k a s'
           end.

(** [try: c  except <classes matched by handles> as e: h e] *)
Definition try_except {S E A} (c : M S E A) (handles : E -> bool) (h : E -> M S E A)
  : M S E A :=
  fun s => match c s with
           | (inl e, s') => if handles e then h e s' else (inl e, s')
           | (inr a, s') => (inr a, s')
           end.

(** [for x in xs: body x] *)
Fixpoint for_each {S E A} (xs : list A) (body : A -> M S E unit) : M S E unit :=
  match xs with
  | [] => ret tt
  | x :: xs' => bind (body x) (fun _ => for_each xs' body)
  end.

Definition modify {S E} (f : S -> S) : M S E unit := fun s => (inr tt, f s).

Definition gets {S E A} (f : S -> A) : M S E A := fun s => (inr (f s), s).

Declare Scope py_scope.
Delimit Scope py_scope with py.
Notation "'let*' x ':=' c 'in' k" := (bind c (fun x => k))
  (at level 10, x pattern, c at level 100, k at level 200) : py_scope.
Notation "c ;; k" := (bind c (fun _ => k))
  (at level 100, k at level 200, right associativity) : py_scope.

(* ===================================================================== *)
(** * progress.py *)
(* ===================================================================== *)

Module Progress.
Section Bar.

(** Readings of [time.time()].  The text of the rendered line (percentage,
    byte counts, ETA) is computed in binary floating point from the counters
    and two readings of the clock; it enters the model as [line_text]. *)
Context {T : Type}.
Variable within_100ms : T -> T -> bool.     (* [(now - last) < 0.1] *)
Variable line_text : option Z -> string -> Z -> T -> T -> string.

Record ProgressBar : Type := mkBar {
  total : option Z;
  label : string;
  current : Z;
  _last_render : T;
  _last_len : nat;
  _enabled : bool;
  _start_time : T
}.

(** [ProgressBar(total, label)], at a terminal or not, at time [now];
    [_last_render = 0.0] is the reading [epoch]. *)
Definition __init__ (isatty : bool) (epoch now : T) (total : option Z) (label : string)
  : ProgressBar :=
  mkBar total label 0 epoch 0 isatty now.

Definition set_total (t : Z) (pb : ProgressBar) : ProgressBar :=
  mkBar (Some t) (label pb) (current pb) (_last_render pb) (_last_len pb)
        (_enabled pb) (_start_time pb).

Definition spaces (n : nat) : string := string_of_list_ascii (repeat " "%char n).

(** [_render_unlocked(force)] with [now] the value [time.time()] returns
    when it is called; the second component is what is written to stdout. *)
Definition _render_unlocked (force : bool) (now : T) (pb : ProgressBar)
  : ProgressBar * option string :=
  if negb (_enabled pb) then (pb, None)
  else if negb force && within_100ms now (_last_render pb) then (pb, None)
  else
    let line := line_text (total pb) (label pb) (current pb) (_start_time pb) now in
    let padding := spaces (_last_len pb - String.length line) in
    (mkBar (total pb) (label pb) (current pb) now (String.length line)
           (_enabled pb) (_start_time pb),
     Some (String (ascii_of_nat 13) line +:+ padding)).

(** [update(delta)] *)
Definition update (delta : Z) (now : T) (pb : ProgressBar) : ProgressBar * option string :=
  if delta <=? 0 then (pb, None)
  else
    _render_unlocked false now
      (mkBar (total pb) (label pb) (current pb + delta) (_last_render pb)
             (_last_len pb) (_enabled pb) (_start_time pb)).

(** [finish()]: the forced render, then the newline. *)
Definition finish (now : T) (pb : ProgressBar) : ProgressBar * list string :=
  if negb (_enabled pb) then (pb, [])
  else
    let '(pb', out) := _render_unlocked true now pb in
    (pb', match out with Some s => [s] | None => [] end ++ [String (ascii_of_nat 10) ""]).

End Bar.
End Progress.

(* ===================================================================== *)
(** * The outside world *)
(* ===================================================================== *)

(** What the agent's [statpath] answers: a JSON object read with
    [stat.get(key)]; an absent key reads as [None]. *)
Record StatDict : Type := mkStat {
  st_exists : option bool;
  st_isDir : option bool;
  st_size : option Z
}.

(** The empty dict [{}] of [stats.get(remote_path, {})]. *)
Definition empty_stat : StatDict := mkStat None None None.

(** Truth value of [d.get(key)] for a boolean entry. *)
Definition truthy (o : option bool) : bool := default false o.

(** What the agent's [listfiles] answers. *)
Record Listing : Type := mkListing {
  l_dirs : option (list string);
  l_files : option (list string)
}.

(** One entry of [sftp.listdir_attr]. *)
Record SFTPAttributes : Type := mkAttr {
  filename : string;
  is_dir : bool;                 (* [stat.S_ISDIR(entry.st_mode)] *)
  attr_size : Z                  (* [entry.st_size] *)
}.

(** One entry of [device.enumerate_processes()]. *)
Record Process : Type := mkProcess {
  name : string;
  pid : Z
}.

(** The calls that leave the program, in the order they are made, with
    what came back. *)
Inductive event : Type :=
| EvListFiles (root : string) (r : Exception + Listing)
| EvStatPath (path : string) (r : Exception + StatDict)
| EvStatPaths (paths : list string) (r : Exception + gmap string StatDict)
| EvReadFile (path : string) (offset len : Z) (r : Exception + bytes)
| EvMakedirs (path : string)
| EvOpen (path : string)
| EvWrite (path : string) (chunk : bytes)
| EvListdir (path : string) (r : Exception + list SFTPAttributes)
| EvSftpStat (path : string) (r : Exception + Z)
| EvSftpSession (r : Exception + unit)
| EvSftpGet (remote local : string) (r : Exception + unit)
| EvEnumerateProcesses (r : Exception + list Process)
| EvDetach (r : Exception + unit)
| EvAttach (target : Z) (r : Exception + unit)
| EvLoadAgent (r : Exception + unit).

(** The log records the handlers of the program emit.  The [debug] lines
    that only report counts are left out. *)
Inductive log_record : Type :=
| DebugBatchStatFailed (e : Exception)
| DebugListFailed (remote_dir : string) (e : Exception)
| WarningFailedToDownload (rel : string) (e : Exception)
| WarningSessionLost (e : Exception)
| InfoScanningFrida
| InfoScanningSsh
| InfoFallingBackToSsh
| InfoSwitching (name : string) (pid : Z)
| InfoRetrying.

(** The RPC exports of the agent, as [FridaDumper] forwards them.  [R] is
    the state of everything outside the program. *)
Class Dumper (R : Type) : Type := {
  has_stat_paths : bool;          (* [hasattr(dumper, 'stat_paths')] *)
  exports_listfiles : string -> R -> (Exception + Listing) * R;
  exports_statpath : string -> R -> (Exception + StatDict) * R;
  exports_statpaths : list string -> R -> (Exception + gmap string StatDict) * R;
  exports_readfile : string -> Z -> Z -> R -> (Exception + bytes) * R
}.

(** The wall clock and the terminal. *)
Class Terminal (R T : Type) : Type := {
  time_time : R -> T * R;
  within_100ms : T -> T -> bool;
  line_text : option Z -> string -> Z -> T -> T -> string;
  epoch : T;
  isatty : R -> bool
}.

(** [paramiko]'s SFTP client.  [sftp_get] answers the content it stored in
    the local file and the [transferred] arguments of the progress callbacks
    it made. *)
Record GetOutcome : Type := mkGet {
  got : Exception + unit;
  stored : option bytes;          (* the local file, if it was opened *)
  callbacks : list Z
}.

Class Sftp (R : Type) : Type := {
  (** the [sftp] property of [SshClient]: the session, opened on first use *)
  sftp_session : R -> (Exception + unit) * R;
  sftp_listdir_attr : string -> R -> (Exception + list SFTPAttributes) * R;
  sftp_stat : string -> R -> (Exception + Z) * R;
  sftp_get : string -> string -> R -> GetOutcome * R
}.

(** The Frida device and session. *)
Class Device (R : Type) : Type := {
  device_enumerate_processes : R -> (Exception + list Process) * R;
  session_detach : R -> (Exception + unit) * R;
  device_attach : Z -> R -> (Exception + unit) * R;
  (** [_load_agent()]: the agent source is read, the script created and
      loaded *)
  script_load : R -> (Exception + unit) * R
}.

(** The fields of the [FridaDumper] object: whether a session and a loaded
    script are held, and the attached PID. *)
Record FridaDumper : Type := mkDumper {
  _session : bool;
  _script : bool;
  _pid : option Z
}.

Section World.

Context {R T : Type}.

Record World : Type := mkWorld {
  env : R;                                   (* the outside *)
  fs : gmap string bytes;                    (* local files and their content *)
  trace : list event;
  logs : list log_record;
  bars : gmap nat (@Progress.ProgressBar T); (* the progress bars alive *)
  stdout : list string;
  dumper : FridaDumper
}.

Definition set_env (e : R) (w : World) : World :=
  mkWorld e (fs w) (trace w) (logs w) (bars w) (stdout w) (dumper w).
Definition set_fs (f : gmap string bytes) (w : World) : World :=
  mkWorld (env w) f (trace w) (logs w) (bars w) (stdout w) (dumper w).
Definition emit (ev : event) (w : World) : World :=
  mkWorld (env w) (fs w) (trace w ++ [ev]) (logs w) (bars w) (stdout w) (dumper w).
Definition add_log (r : log_record) (w : World) : World :=
  mkWorld (env w) (fs w) (trace w) (logs w ++ [r]) (bars w) (stdout w) (dumper w).
Definition set_bars (b : gmap nat (@Progress.ProgressBar T)) (w : World) : World :=
  mkWorld (env w) (fs w) (trace w) (logs w) b (stdout w) (dumper w).
Definition print (out : list string) (w : World) : World :=
  mkWorld (env w) (fs w) (trace w) (logs w) (bars w) (stdout w ++ out) (dumper w).
Definition set_dumper (d : FridaDumper) (w : World) : World :=
  mkWorld (env w) (fs w) (trace w) (logs w) (bars w) (stdout w) d.

(** A call to the outside: the environment answers and moves on, the call
    and its answer are recorded. *)
Definition call {A} (op : R -> (Exception + A) * R) (ev : Exception + A -> event)
  : M World Exception A :=
  fun w => let '(r, e) := op (env w) in (r, emit (ev r) (set_env e w)).

Definition log {E} (r : log_record) : M World E unit := modify (add_log r).

(** ** The local file system.  Its calls are taken to succeed. *)

(** [os.makedirs(path, exist_ok=True)] *)
Definition makedirs (path : string) : M World Exception unit :=
  modify (emit (EvMakedirs path)).

(** [open(path, "wb")]: the file is created or truncated. *)
Definition open_wb (path : string) : M World Exception unit :=
  modify (fun w => emit (EvOpen path) (set_fs (<[path := []]> (fs w)) w)).

(** [handle.write(chunk)] on the handle opened on [path] *)
Definition handle_write (path : string) (chunk : bytes) : M World Exception unit :=
  modify (fun w =>
    emit (EvWrite path chunk)
         (set_fs (<[path := default [] (fs w !! path) ++ chunk]> (fs w)) w)).

End World.

Arguments World : clear implicits.

(* ===================================================================== *)
(** * transfer.py *)
(* ===================================================================== *)

Record TransferConfig : Type := mkConfig {
  chunk_size : Z;
  max_workers : Z;
  batch_stat_size : Z
}.

(** [TransferConfig()] *)
Definition default_config : TransferConfig := mkConfig (256 * 1024) 4 50.

(** [for i in range(0, len(files), n): files[i:i + n]] for a step [n >= 1];
    with no step left ([n = 0] stands for a negative step) the range is
    empty. *)
Equations? batches (n : nat) (files : list string) : list (list string)
  by wf (length files) lt :=
  batches 0 _ := [];
  batches (S n) [] := [];
  batches (S n) (x :: l) := take (S n) (x :: l) :: batches (S n) (drop n l).
Proof. rewrite length_drop. simpl. lia. Qed.

(** [sorted(dirs, key=len)]: the stable sort by length, as the insertion
    of each element before the first one that is not shorter. *)
Fixpoint insert_by_len (x : string) (l : list string) : list string :=
  match l with
  | [] => [x]
  | y :: l' =>
      if (String.length x <=? String.length y)%nat then x :: y :: l'
      else y :: insert_by_len x l'
  end.

Definition sorted_by_len (l : list string) : list string :=
  foldr insert_by_len [] l.

(** The order in which a pool of [workers] threads completes the calls
    submitted in the order [pending]: the calls in flight are the first
    [workers] ones still pending, and the schedule picks which of them
    completes next. *)
Fixpoint completion_order (sched : nat -> nat) (workers step n : nat)
    (pending : list string) : list string :=
  match n with
  | O => []
  | S n' =>
      let i := (sched step mod Nat.min workers (length pending))%nat in
      match pending !! i with
      | Some rel => rel :: completion_order sched workers (S step) n' (delete i pending)
      | None => []
      end
  end.

Section Transfer.

Context {R T : Type} {D : Dumper R} {TT : Terminal R T}.

Local Open Scope py_scope.

Abbreviation World := (World R T).
Abbreviation Py A := (M World Exception A).

(** ** FridaDumper's methods *)

Definition list_files (root_path : string) : Py Listing :=
  call (exports_listfiles root_path) (EvListFiles root_path).

Definition stat_path (path : string) : Py StatDict :=
  call (exports_statpath path) (EvStatPath path).

Definition stat_paths (paths : list string) : Py (gmap string StatDict) :=
  call (exports_statpaths paths) (EvStatPaths paths).

Definition read_file (path : string) (offset size : Z) : Py bytes :=
  call (exports_readfile path offset size) (EvReadFile path offset size).

(** ** [progress.update(delta)] on the bar [progress] refers to; the clock
    is read when the bar renders. *)
Definition progress_update (progress : option nat) (delta : Z) : Py unit :=
  fun w =>
    match progress with
    | None => (inr tt, w)
    | Some a =>
        match bars w !! a with
        | None => (inr tt, w)
        | Some pb =>
            let '(now, e) :=
              if (0 <? delta) && Progress._enabled pb then time_time (env w)
              else (Progress._last_render pb, env w) in
            let '(pb', out) := Progress.update within_100ms line_text delta now pb in
            (inr tt, print (option_list out) (set_bars (<[a := pb']> (bars w)) (set_env e w)))
        end
    end.

(** ** enumerate_bundle_files *)

(** [stat.get("exists") and not stat.get("isDir")] *)
Definition is_regular (st : StatDict) : bool :=
  truthy (st_exists st) && negb (truthy (st_isDir st)).

(** The body shared by the three loops: [sizes[rel] = size; total += size]
    for a regular file, nothing otherwise. *)
Definition record_size (rel : string) (st : StatDict) (acc : gmap string Z * Z)
  : gmap string Z * Z :=
  if is_regular st then
    let size := default 0 (st_size st) in
    (<[rel := size]> (fst acc), snd acc + size)
  else acc.

(** The loop over a batch after a successful batched stat. *)
Definition record_batch (bundle_path : string) (batch : list string)
    (stats : gmap string StatDict) (acc : gmap string Z * Z) : gmap string Z * Z :=
  fold_left
    (fun acc rel => record_size rel (default empty_stat (stats !! Posix.slash bundle_path rel)) acc)
    batch acc.

(** The loop of individual stat calls. *)
Fixpoint stat_each (bundle_path : string) (batch : list string) (acc : gmap string Z * Z)
  : Py (gmap string Z * Z) :=
  match batch with
  | [] => ret acc
  | rel :: rest =>
      let* stat := stat_path (Posix.slash bundle_path rel) in
      stat_each bundle_path rest (record_size rel stat acc)
  end.

(** The [try]/[except Exception] around one batch. *)
Definition stat_batch (bundle_path : string) (batch : list string) (acc : gmap string Z * Z)
  : Py (gmap string Z * Z) :=
  try_except
    (let* stats := stat_paths (map (Posix.slash bundle_path) batch) in
     ret (record_batch bundle_path batch stats acc))
    (fun _ => true)
    (fun e => log (DebugBatchStatFailed e) ;; stat_each bundle_path batch acc).

Fixpoint stat_batches (bundle_path : string) (bs : list (list string))
    (acc : gmap string Z * Z) : Py (gmap string Z * Z) :=
  match bs with
  | [] => ret acc
  | batch :: rest =>
      let* acc' := stat_batch bundle_path batch acc in
      stat_batches bundle_path rest acc'
  end.

Definition enumerate_bundle_files (bundle_path : string) (config : option TransferConfig)
  : Py (list string * list string * gmap string Z * Z) :=
  let config := default default_config config in
  let* listing := list_files bundle_path in
  let dirs := default [] (l_dirs listing) in
  let files := default [] (l_files listing) in
  let* acc :=
    (if has_stat_paths && negb (bool_decide (files = [])) then
       if batch_stat_size config =? 0
       then raise (ValueError "range() arg 3 must not be zero")
       else stat_batches bundle_path
              (batches (Z.to_nat (batch_stat_size config)) files) (∅, 0)
     else stat_each bundle_path files (∅, 0)) in
  ret (dirs, files, fst acc, snd acc).

(** ** pull_file_via_frida *)

(** The [while offset < size] loop, on the file opened on [local_path]. *)
Equations? read_loop (remote_path local_path : string) (chunk_size size : Z)
    (progress : option nat) (offset : Z) (w : World) : (Exception + unit) * World
  by wf (Z.to_nat (size - offset)) lt :=
  read_loop remote_path local_path chunk_size size progress offset w
    with Z_lt_dec offset size := {
    | right _ => (inr tt, w)
    | left _
        with read_file remote_path offset (Z.min chunk_size (size - offset)) w := {
        | (inl e, w1) => (inl e, w1)
        | (inr [], w1) => (inr tt, w1)
        | (inr (b :: chunk), w1) =>
            read_loop remote_path local_path chunk_size size progress
              (offset + Z.of_nat (length (b :: chunk)))
              (snd (progress_update progress (Z.of_nat (length (b :: chunk)))
                      (snd (handle_write local_path (b :: chunk) w1)))) } }.
Proof. simpl length. lia. Qed.

Definition pull_file_via_frida (remote_path local_path : string) (chunk_size : Z)
    (size : option Z) (progress : option nat) : Py unit :=
  let* size :=
    match size with
    | Some size => ret size
    | None =>
        let* stat := stat_path remote_path in
        if negb (truthy (st_exists stat))
        then raise (RuntimeError ("Remote path not found: " +:+ remote_path))
        else if truthy (st_isDir stat)
        then raise (RuntimeError ("Remote path is a directory: " +:+ remote_path))
        else ret (default 0 (st_size stat))
    end in
  let local_dir := Posix.dirname local_path in
  (if negb (String.eqb local_dir "") then makedirs local_dir else ret tt) ;;
  open_wb local_path ;;
  read_loop remote_path local_path chunk_size size progress 0.

(** ** _pull_files_parallel *)

(** The worker: every [Exception] of the transfer is caught and returned. *)
Definition download_file (bundle_path local_dir : string) (sizes : gmap string Z)
    (config : TransferConfig) (progress : option nat) (rel : string)
  : Py (string * bool * option Exception) :=
  try_except
    (pull_file_via_frida (Posix.slash bundle_path rel) (Posix.join local_dir rel)
       (chunk_size config) (sizes !! rel) progress ;;
     ret (rel, true, None))
    (fun _ => true)
    (fun e => ret (rel, false, Some e)).

(** The pool runs each submitted call to its end; [sched] stands for the
    thread scheduling and decides the order in which the calls complete and
    [as_completed] hands them to the loop that logs the failures.  The calls
    are taken one whole call at a time: how the reads of calls in flight
    interleave is not represented. *)
Definition _pull_files_parallel (sched : nat -> nat) (bundle_path local_dir : string)
    (files : list string) (sizes : gmap string Z) (config : TransferConfig)
    (progress : option nat) : Py unit :=
  if max_workers config <=? 0
  then raise (ValueError "max_workers must be greater than 0")
  else
    for_each
      (completion_order sched (Z.to_nat (max_workers config)) 0 (length files) files)
      (fun rel =>
         let* (rel, success, error) :=
           download_file bundle_path local_dir sizes config progress rel in
         match success, error with
         | false, Some error => log (WarningFailedToDownload rel error)
         | _, _ => ret tt
         end).

(** ** pull_bundle_via_frida *)

Definition pull_bundle_via_frida (sched : nat -> nat) (bundle_path local_dir : string)
    (config : option TransferConfig) (files dirs : option (list string))
    (sizes : option (gmap string Z)) (progress : option nat) : Py unit :=
  let config := default default_config config in
  let* (dirs, files, sizes) :=
    match files, dirs, sizes with
    | Some files, Some dirs, Some sizes => ret (dirs, files, sizes)
    | _, _, _ =>
        let* (dirs, files, sizes, _) := enumerate_bundle_files bundle_path (Some config) in
        ret (dirs, files, sizes)
    end in
  makedirs local_dir ;;
  for_each (sorted_by_len dirs) (fun rel => makedirs (Posix.join local_dir rel)) ;;
  let valid_files := filter (fun rel => is_Some (sizes !! rel)) files in
  if (1 <? max_workers config) && (1 <? Z.of_nat (length valid_files))
  then _pull_files_parallel sched bundle_path local_dir valid_files sizes config progress
  else
    for_each valid_files
      (fun rel =>
         pull_file_via_frida (Posix.slash bundle_path rel) (Posix.join local_dir rel)
           (chunk_size config) (sizes !! rel) progress).

End Transfer.

(* ===================================================================== *)
(** * ssh.py: SshClient's walk and downloads *)
(* ===================================================================== *)

Section Ssh.

Context {R T : Type} {SF : Sftp R} {TT : Terminal R T}.

Local Open Scope py_scope.

Abbreviation World := (World R T).
Abbreviation Py A := (M World Exception A).

(** [IOError] is [OSError]. *)
Definition is_IOError (e : Exception) : bool :=
  match e with OSError _ => true | _ => false end.

Definition self_sftp : Py unit := call sftp_session EvSftpSession.

(** The loop of [_walk_sftp] over the entries of [remote_dir]; [recurse]
    is its call of [_walk_sftp], [acc] the two lists [files] and [dirs] the
    calls append to. *)
Definition walk_entries
    (recurse : string -> string -> list (string * string * Z) * list string
               -> Py (list (string * string * Z) * list string))
    (remote_dir rel_base : string)
  : list SFTPAttributes -> list (string * string * Z) * list string
    -> Py (list (string * string * Z) * list string) :=
  fix loop (entries : list SFTPAttributes)
      (acc : list (string * string * Z) * list string) {struct entries} :=
    match entries with
    | [] => ret acc
    | entry :: rest =>
        let remote_path := Posix.join remote_dir (filename entry) in
        let rel_path :=
          if String.eqb rel_base "" then filename entry
          else Posix.join rel_base (filename entry) in
        if is_dir entry then
          let* acc' := recurse remote_path rel_path (fst acc, snd acc ++ [rel_path]) in
          loop rest acc'
        else loop rest (fst acc ++ [(remote_path, rel_path, attr_size entry)], snd acc)
    end.

(** [_walk_sftp]; [limit] is the interpreter's recursion limit. *)
Fixpoint _walk_sftp (limit : nat) (remote_dir rel_base : string)
    (acc : list (string * string * Z) * list string)
  : Py (list (string * string * Z) * list string) :=
  match limit with
  | O => raise (RuntimeError "maximum recursion depth exceeded")
  | S limit' =>
      let* entries :=
        try_except
          (let* es := call (sftp_listdir_attr remote_dir) (EvListdir remote_dir) in
           ret (Some es))
          is_IOError
          (fun e => log (DebugListFailed remote_dir e) ;; ret None) in
      match entries with
      | None => ret acc
      | Some entries =>
          walk_entries (_walk_sftp limit') remote_dir rel_base entries acc
      end
  end.

Definition walk (limit : nat) (remote_dir : string)
  : Py (list (string * string * Z) * list string) :=
  self_sftp ;;
  _walk_sftp limit remote_dir "" ([], []).

(** The progress callback of [_download_file_sftp], called with the
    successive values of [transferred]. *)
Fixpoint run_callbacks (progress : option nat) (last : Z) (transferred : list Z) : Py unit :=
  match transferred with
  | [] => ret tt
  | t :: rest =>
      progress_update progress (t - last) ;;
      run_callbacks progress t rest
  end.

Definition _download_file_sftp (remote_path local_path : string) (progress : option nat)
  : Py unit :=
  fun w =>
    let '(o, e) := sftp_get remote_path local_path (env w) in
    let w1 := emit (EvSftpGet remote_path local_path (got o)) (set_env e w) in
    let w2 := match stored o with
              | Some content => set_fs (<[local_path := content]> (fs w1)) w1
              | None => w1
              end in
    let w3 := match progress with
              | Some _ => snd (run_callbacks progress 0 (callbacks o) w2)
              | None => w2
              end in
    (got o, w3).

Definition download_file_ssh (remote_path local_path : string) (progress : option nat)
  : Py unit :=
  let local_dir := Posix.dirname local_path in
  (if negb (String.eqb local_dir "") then makedirs local_dir else ret tt) ;;
  self_sftp ;;
  _download_file_sftp remote_path local_path progress.

(** [SshClient.download_dir] *)
Definition download_dir (limit : nat) (remote_dir local_dir : string)
    (files : option (list (string * string * Z))) (dirs : option (list string))
    (progress : option nat) : Py unit :=
  let* (files, dirs) :=
    match files, dirs with
    | Some files, Some dirs => ret (files, dirs)
    | _, _ => walk limit remote_dir
    end in
  makedirs local_dir ;;
  for_each (sorted_by_len dirs) (fun rel => makedirs (Posix.join local_dir rel)) ;;
  self_sftp ;;
  for_each files
    (fun f => _download_file_sftp (fst (fst f)) (Posix.join local_dir (snd (fst f))) progress).

End Ssh.

(* ===================================================================== *)
(** * dumper.py: attach and detach *)
(* ===================================================================== *)

Section FridaDumperMethods.

Context {R T : Type} {DV : Device R}.

Local Open Scope py_scope.

Abbreviation World := (World R T).
Abbreviation Py A := (M World Exception A).

Definition is_attach_timeout (e : Exception) : bool :=
  match e with
  | TransportError _ | OperationCancelledError _ => true
  | _ => false
  end.

Definition set_session (b : bool) : Py unit :=
  modify (fun w => set_dumper (mkDumper b (_script (dumper w)) (_pid (dumper w))) w).
Definition set_script (b : bool) : Py unit :=
  modify (fun w => set_dumper (mkDumper (_session (dumper w)) b (_pid (dumper w))) w).
Definition set_pid (p : option Z) : Py unit :=
  modify (fun w => set_dumper (mkDumper (_session (dumper w)) (_script (dumper w)) p) w).

(** [_load_agent] *)
Definition _load_agent : Py unit :=
  let* has_session := gets (fun w => _session (dumper w)) in
  if negb has_session then raise (RuntimeError "No active session")
  else call script_load EvLoadAgent ;; set_script true.

(** [_attach_with_retries]: [retries] attempts are left, [last_error] is
    the error of the last failed one.  The timer that cancels an attempt
    after [timeout] shows as an [OperationCancelledError] of the attach. *)
Fixpoint _attach_with_retries (target : Z) (retries : nat) (last_error : option Exception)
  : Py unit :=
  match retries with
  | O => match last_error with
         | Some e => raise e
         | None => ret tt
         end
  | S retries' =>
      fun w =>
        match (call (device_attach target) (EvAttach target) ;;
               set_session true ;;
               _load_agent) w with
        | (inr tt, w1) => (inr tt, w1)
        | (inl exc, w1) =>
            if is_attach_timeout exc
            then _attach_with_retries target retries' (Some exc) w1
            else (inl exc, w1)
        end
  end.

Definition attach (target : Z) (retries : nat) : Py unit :=
  _attach_with_retries target retries None ;;
  set_pid (Some target).

Definition detach : Py unit :=
  let* has_session := gets (fun w => _session (dumper w)) in
  if has_session then
    call session_detach EvDetach ;;
    modify (set_dumper (mkDumper false false None))
  else ret tt.

End FridaDumperMethods.

(* ===================================================================== *)
(** * cli.py: BundleDownloader *)
(* ===================================================================== *)

(** [DownloadContext]; of [ctx] the downloader reads whether [ctx.ssh] is
    set. *)
Record DownloadContext : Type := mkContext {
  ctx_ssh : bool;
  transfer_config : TransferConfig
}.

(** The candidates of [_switch_to_transfer_process], in its order. *)
Definition candidates : list string :=
  ["SpringBoard"; "backboardd"; "launchd"; "installd"].

Definition session_lost_message : string :=
  "Frida session lost while downloading. Retry with --no-resume or use SSH transfer (-H/-u/-p).".

Section BundleDownloader.

Context {R T : Type} {D : Dumper R} {TT : Terminal R T} {SF : Sftp R} {DV : Device R}.

Local Open Scope py_scope.

Abbreviation World := (World R T).
Abbreviation Py A := (M World Exception A).
Abbreviation Cli A := (M World BaseException A).

(** A call that raises no more than [Exception]s, inside code that may
    exit. *)
Definition lift {A} (c : Py A) : Cli A :=
  fun w => match c w with
           | (inl e, w') => (inl (Exc e), w')
           | (inr a, w') => (inr a, w')
           end.

(** [ProgressBar(total, label=label)]: a new object. *)
Definition new_progress (total : option Z) (label : string) : Py nat :=
  fun w =>
    let tty := isatty (env w) in
    let '(now, e) := time_time (env w) in
    let a := fresh (dom (bars w)) in
    (inr a, set_bars (<[a := Progress.__init__ tty epoch now total label]> (bars w))
                     (set_env e w)).

(** [progress.finish()] *)
Definition progress_finish (a : nat) : Py unit :=
  fun w =>
    match bars w !! a with
    | None => (inr tt, w)
    | Some pb =>
        if negb (Progress._enabled pb) then (inr tt, w)
        else
          let '(now, e) := time_time (env w) in
          let '(pb', out) := Progress.finish within_100ms line_text now pb in
          (inr tt, print out (set_bars (<[a := pb']> (bars w)) (set_env e w)))
    end.

(** [_switch_to_transfer_process]: the loop over the candidate names. *)
Fixpoint switch_loop (names : list string) (processes : list Process) : Py bool :=
  match names with
  | [] => ret false
  | name_ :: rest =>
      let* attached := gets (fun w => _pid (dumper w)) in
      match find (fun p => String.eqb (name p) name_) processes with
      | Some proc =>
          if negb (bool_decide (Some (pid proc) = attached)) then
            log (InfoSwitching name_ (pid proc)) ;;
            try_except detach (fun _ => true) (fun _ => ret tt) ;;
            attach (pid proc) 1 ;;
            ret true
          else switch_loop rest processes
      | None => switch_loop rest processes
      end
  end.

Definition _switch_to_transfer_process : Py bool :=
  let* processes :=
    try_except
      (let* ps := call device_enumerate_processes EvEnumerateProcesses in ret (Some ps))
      (fun _ => true)
      (fun _ => ret None) in
  match processes with
  | None => ret false
  | Some processes => switch_loop candidates processes
  end.

(** [_download_via_ssh] *)
Definition _download_via_ssh (limit : nat)
    (bundle_path local_bundle_dir remote_dump_path local_decrypted : string) : Py unit :=
  log InfoScanningSsh ;;
  let* (bundle_files, bundle_dirs) := walk limit bundle_path in
  let bundle_total := fold_left (fun acc f => acc + snd f) bundle_files 0 in
  self_sftp ;;
  let* dump_size := call (sftp_stat remote_dump_path) (EvSftpStat remote_dump_path) in
  let* progress := new_progress (Some (bundle_total + dump_size)) "Downloading" in
  download_dir limit bundle_path local_bundle_dir (Some bundle_files) (Some bundle_dirs)
    (Some progress) ;;
  download_file_ssh remote_dump_path local_decrypted (Some progress) ;;
  progress_finish progress.

(** The [try] block of [_download_via_frida]. *)
Definition frida_transfer (sched : nat -> nat)
    (bundle_path local_bundle_dir remote_dump_path local_decrypted : string)
    (config : TransferConfig) : Py unit :=
  let* (bundle_dirs, bundle_files, bundle_sizes, bundle_total) :=
    enumerate_bundle_files bundle_path (Some config) in
  let* dump_stat := stat_path remote_dump_path in
  let dump_size := default 0 (st_size dump_stat) in
  let* progress := new_progress (Some (bundle_total + dump_size)) "Downloading" in
  pull_bundle_via_frida sched bundle_path local_bundle_dir (Some config)
    (Some bundle_files) (Some bundle_dirs) (Some bundle_sizes) (Some progress) ;;
  pull_file_via_frida remote_dump_path local_decrypted (256 * 1024) (Some dump_size)
    (Some progress) ;;
  progress_finish progress.

(** [except (frida.InvalidOperationError, frida.TransportError)] *)
Definition is_session_lost (e : BaseException) : bool :=
  match e with
  | Exc (InvalidOperationError _) | Exc (TransportError _) => true
  | _ => false
  end.

(** [_handle_frida_error]; [retry] is its call of [_download_via_frida]. *)
Definition _handle_frida_error (context : DownloadContext) (limit : nat) (retry : Cli unit)
    (exc : Exception)
    (bundle_path local_bundle_dir remote_dump_path local_decrypted : string) : Cli unit :=
  log (WarningSessionLost exc) ;;
  if ctx_ssh context then
    log InfoFallingBackToSsh ;;
    lift (_download_via_ssh limit bundle_path local_bundle_dir remote_dump_path local_decrypted)
  else
    let* switched := lift _switch_to_transfer_process in
    if switched then
      log InfoRetrying ;;
      retry
    else raise (SystemExit session_lost_message exc).

(** [_download_via_frida].  The function and its error handler call each
    other; [limit] is the interpreter's recursion limit, and [sched] gives
    each attempt its thread scheduling. *)
Fixpoint _download_via_frida (context : DownloadContext) (sched : nat -> nat -> nat)
    (limit : nat)
    (bundle_path local_bundle_dir remote_dump_path local_decrypted : string)
    (config : TransferConfig) : Cli unit :=
  match limit with
  | O => raise (Exc (RuntimeError "maximum recursion depth exceeded"))
  | S limit' =>
      log InfoScanningFrida ;;
      try_except
        (lift (frida_transfer (sched limit') bundle_path local_bundle_dir remote_dump_path
                 local_decrypted config))
        is_session_lost
        (fun e =>
           match e with
           | Exc exc =>
               _handle_frida_error context limit'
                 (_download_via_frida context sched limit' bundle_path local_bundle_dir
                    remote_dump_path local_decrypted config)
                 exc bundle_path local_bundle_dir remote_dump_path local_decrypted
           | _ => raise e
           end)
  end.

(** [download_bundle] *)
Definition download_bundle (context : DownloadContext) (sched : nat -> nat -> nat)
    (limit : nat)
    (bundle_path local_bundle_dir remote_dump_path local_decrypted : string) : Cli unit :=
  if ctx_ssh context then
    lift (_download_via_ssh limit bundle_path local_bundle_dir remote_dump_path local_decrypted)
  else
    _download_via_frida context sched limit bundle_path local_bundle_dir remote_dump_path
      local_decrypted (transfer_config context).

End BundleDownloader.

(* ===================================================================== *)
(** * cli.py: the download of a directory *)
(* ===================================================================== *)

Section DirectoryDownloader.

Context {R T : Type} {D : Dumper R} {TT : Terminal R T} {SF : Sftp R} {DV : Device R}.

Local Open Scope py_scope.

Abbreviation World := (World R T).
Abbreviation Py A := (M World Exception A).
Abbreviation Cli A := (M World BaseException A).

(** [_download_dir_via_ssh].  The log records are those of the bundle
    download; here their text names [label]. *)
Definition _download_dir_via_ssh (limit : nat) (remote_path local_dir label : string)
  : Py unit :=
  log InfoScanningSsh ;;
  let* (files, dirs) := walk limit remote_path in
  let total := fold_left (fun acc f => acc + snd f) files 0 in
  let* progress := new_progress (Some total) label in
  download_dir limit remote_path local_dir (Some files) (Some dirs) (Some progress) ;;
  progress_finish progress.

(** What [_download_dir_via_frida] does in its [try] block, and again
    after a switch of the transfer process: enumerate, make the bar, pull
    the tree, finish the bar. *)
Definition directory_transfer (sched : nat -> nat) (remote_path local_dir label : string)
    (config : TransferConfig) : Py unit :=
  let* (dirs, files, sizes, total) := enumerate_bundle_files remote_path (Some config) in
  let* progress := new_progress (Some total) label in
  pull_bundle_via_frida sched remote_path local_dir (Some config)
    (Some files) (Some dirs) (Some sizes) (Some progress) ;;
  progress_finish progress.

(** [_download_dir_via_frida]; [sched 0] is the thread scheduling of the
    first attempt and [sched 1] that of the second. *)
Definition _download_dir_via_frida (context : DownloadContext) (sched : nat -> nat -> nat)
    (limit : nat) (remote_path local_dir label : string) (config : TransferConfig)
  : Cli unit :=
  log InfoScanningFrida ;;
  try_except
    (lift (directory_transfer (sched 0%nat) remote_path local_dir label config))
    is_session_lost
    (fun e =>
       match e with
       | Exc exc =>
           log (WarningSessionLost exc) ;;
           if ctx_ssh context then
             log InfoFallingBackToSsh ;;
             lift (_download_dir_via_ssh limit remote_path local_dir label)
           else
             let* switched := lift _switch_to_transfer_process in
             if switched then
               log InfoRetrying ;;
               lift (directory_transfer (sched 1%nat) remote_path local_dir label config)
             else raise (SystemExit session_lost_message exc)
       | _ => raise e
       end).

(** [download_sandbox] *)
Definition download_sandbox (context : DownloadContext) (sched : nat -> nat -> nat)
    (limit : nat) (sandbox_path sandbox_out_dir : string) : Cli unit :=
  if ctx_ssh context then
    lift (_download_dir_via_ssh limit sandbox_path sandbox_out_dir "Downloading sandbox")
  else
    _download_dir_via_frida context sched limit sandbox_path sandbox_out_dir
      "Downloading sandbox" (transfer_config context).

End DirectoryDownloader.

(* ===================================================================== *)
(** * dumper.py: get_bundle_info *)
(* ===================================================================== *)

(** The [getbundleinfo] export of the agent; [Info] is the dictionary it
    answers. *)
Class BundleInfoAgent (R Info : Type) : Type := {
  exports_getbundleinfo : R -> (Exception + Info) * R
}.

(** The loop of [get_bundle_info] with [retries] attempts left; the
    [RuntimeError] of the end is raised from the last error. *)
Fixpoint get_bundle_info_loop {R Info : Type} {A : BundleInfoAgent R Info} (retries : nat)
  : M R Exception Info :=
  match retries with
  | O => raise (RuntimeError "Failed to fetch bundle info")
  | S retries' =>
      try_except exports_getbundleinfo (fun _ => true)
        (fun _ => get_bundle_info_loop retries')
  end.

(** [get_bundle_info(retries)]: [range(retries)] is empty for a negative
    [retries]. *)
Definition get_bundle_info {R Info : Type} {A : BundleInfoAgent R Info} (retries : Z)
  : M R Exception Info :=
  get_bundle_info_loop (Z.to_nat retries).

(* ===================================================================== *)
(** * ssh.py: the connection and the SFTP session of SshClient *)
(* ===================================================================== *)

Module SshClient.

(** The fields [_client] and [_sftp]: set or [None]. *)
Record fields : Type := mkFields {
  _client : bool;
  _sftp : bool
}.

(** [paramiko]'s client: [connect] (with the keepalive set on its
    transport), [open_sftp], the timeout set on the channel of the session,
    and the two [close]. *)
Class Paramiko (R : Type) : Type := {
  client_connect : R -> (Exception + unit) * R;
  client_open_sftp : R -> (Exception + unit) * R;
  channel_settimeout : R -> (Exception + unit) * R;
  sftp_close : R -> (Exception + unit) * R;
  client_close : R -> (Exception + unit) * R
}.

Section Methods.

Context {R : Type} {P : Paramiko R}.

Local Open Scope py_scope.

Abbreviation Ssh A := (M (R * fields) Exception A).

(** A call of the library: the object is as before. *)
Definition library (op : R -> (Exception + unit) * R) : Ssh unit :=
  fun s => let '(r, e) := op (fst s) in (r, (e, snd s)).

Definition set_fields (f : fields) : Ssh unit := modify (fun s => (fst s, f)).

(** [__init__] *)
Definition __init__ : fields := mkFields false false.

(** [connect] *)
Definition connect : Ssh unit :=
  library client_connect ;;
  let* f := gets snd in
  set_fields (mkFields true (_sftp f)).

(** The [sftp] property *)
Definition sftp : Ssh unit :=
  let* f := gets snd in
  if _sftp f then ret tt
  else if negb (_client f) then raise (RuntimeError "SSH client not connected.")
  else
    library client_open_sftp ;;
    set_fields (mkFields (_client f) true) ;;
    library channel_settimeout.

(** [close] *)
Definition close : Ssh unit :=
  let* f := gets snd in
  (if _sftp f then
     try_except (library sftp_close) (fun _ => true) (fun _ => ret tt) ;;
     set_fields (mkFields (_client f) false)
   else ret tt) ;;
  let* f := gets snd in
  (if _client f then
     try_except (library client_close) (fun _ => true) (fun _ => ret tt) ;;
     set_fields (mkFields false (_sftp f))
   else ret tt).

End Methods.

End SshClient.

(* ===================================================================== *)
(** * utils.py and cli.py: names *)
(* ===================================================================== *)

Module Utils.

Definition code_in (c : ascii) (lo hi : nat) : bool :=
  (lo <=? nat_of_ascii c)%nat && (nat_of_ascii c <=? hi)%nat.

(** [c.isspace()] for the characters up to U+00FF. *)
Definition is_space (c : ascii) : bool :=
  code_in c 9 13 || code_in c 28 32 || code_in c 133 133 || code_in c 160 160.

(** [s.strip()] *)
Definition strip (s : string) : string :=
  string_of_list_ascii
    (rev (Posix.drop_while is_space
            (rev (Posix.drop_while is_space (list_ascii_of_string s))))).

(** The characters outside the class [[^A-Za-z0-9._-]]. *)
Definition is_safe (c : ascii) : bool :=
  code_in c 65 90 || code_in c 97 122 || code_in c 48 57
  || Ascii.eqb c "."%char || Ascii.eqb c "_"%char || Ascii.eqb c "-"%char.

(** [re.sub(r"[^A-Za-z0-9._-]", "_", s)] *)
Definition replace_unsafe (s : string) : string :=
  string_of_list_ascii
    (map (fun c => if is_safe c then c else "_"%char) (list_ascii_of_string s)).

(** [sanitize_filename(name, fallback)] *)
Definition sanitize_filename (name fallback : string) : string :=
  if String.eqb name "" then fallback
  else
    let safe := replace_unsafe (strip name) in
    if String.eqb safe "" then fallback else safe.

(** [c.lower()] for the characters up to U+00FF. *)
Definition lower_char (c : ascii) : ascii :=
  if code_in c 65 90 || code_in c 192 214 || code_in c 216 222
  then ascii_of_nat (nat_of_ascii c + 32)
  else c.

(** [s.lower()] *)
Definition lower (s : string) : string :=
  string_of_list_ascii (map lower_char (list_ascii_of_string s)).

End Utils.

Module Apps.

(** An entry of [device.enumerate_applications()]. *)
Record Application : Type := mkApp {
  identifier : string;
  name : option string;
  pid : Z
}.

(** The two tests of the loop of [resolve_app]. *)
Definition matches_exactly (app : Application) (target : string) : bool :=
  String.eqb (identifier app) target || bool_decide (name app = Some target).

Definition matches_lowered (app : Application) (target_lower : string) : bool :=
  String.eqb (Utils.lower (identifier app)) target_lower
  || String.eqb (Utils.lower (default "" (name app))) target_lower.

(** [resolve_app(apps, target)] *)
Fixpoint resolve_app (apps : list Application) (target : string) : option Application :=
  match apps with
  | [] => None
  | app :: rest =>
      if matches_exactly app target then Some app
      else if matches_lowered app (Utils.lower target) then Some app
      else resolve_app rest target
  end.

End Apps.

(* ===================================================================== *)
(** * A simulated device *)
(* ===================================================================== *)

(** A device with a fixed remote file system, on which the faults of the
    examples can be injected.  Used to run the functions above on concrete
    inputs. *)
Module Sim.

Record device : Type := mkDevice {
  remote_files : list (string * bytes);     (* absolute path, content *)
  remote_dirs : list string;                (* absolute paths *)
  listing : Listing;                        (* the answer of [listfiles] *)
  batch_stat_fails : bool;
  read_fault : string -> Z -> option (Exception + bytes);
  processes : list Process;
  attach_fault : Z -> option Exception;
  session_dead : bool;                      (* every RPC raises TransportError *)
  clock : nat
}.

Definition lookup_file (d : device) (path : string) : option bytes :=
  snd <$> find (fun f => String.eqb (fst f) path) (remote_files d).

Definition stat_of (d : device) (path : string) : StatDict :=
  match lookup_file d path with
  | Some content => mkStat (Some true) (Some false) (Some (Z.of_nat (length content)))
  | None =>
      if existsb (String.eqb path) (remote_dirs d)
      then mkStat (Some true) (Some true) (Some 0)
      else mkStat (Some false) None None
  end.

Definition lost : Exception := TransportError "session detached".

Definition rpc {A} (d : device) (answer : Exception + A) : (Exception + A) * device :=
  (if session_dead d then inl lost else answer, d).

Definition read_of (d : device) (path : string) (offset size : Z) : Exception + bytes :=
  match read_fault d path offset with
  | Some answer => answer
  | None =>
      match lookup_file d path with
      | Some content => inr (take (Z.to_nat size) (drop (Z.to_nat offset) content))
      | None => inl (OtherException "unable to open file")
      end
  end.

#[export] Instance agent : Dumper device := {|
  has_stat_paths := true;
  exports_listfiles := fun _ d => rpc d (inr (listing d));
  exports_statpath := fun path d => rpc d (inr (stat_of d path));
  exports_statpaths := fun paths d =>
    rpc d (if batch_stat_fails d then inl (OtherException "statpaths failed")
           else inr (list_to_map (map (fun p => (p, stat_of d p)) paths)));
  exports_readfile := fun path offset size d => rpc d (read_of d path offset size)
|}.

Definition tick (d : device) : device :=
  mkDevice (remote_files d) (remote_dirs d) (listing d) (batch_stat_fails d)
    (read_fault d) (processes d) (attach_fault d) (session_dead d) (S (clock d)).

Definition revive (d : device) : device :=
  mkDevice (remote_files d) (remote_dirs d) (listing d) (batch_stat_fails d)
    (read_fault d) (processes d) (attach_fault d) false (clock d).

#[export] Instance console : Terminal device nat := {|
  time_time := fun d => (clock d, tick d);
  within_100ms := fun now last => (now - last <? 1)%nat;
  line_text := fun _ label _ _ _ => label;
  epoch := 0%nat;
  isatty := fun _ => false
|}.

#[export] Instance sftp_server : Sftp device := {|
  sftp_session := fun d => (inr tt, d);
  sftp_listdir_attr := fun path d =>
    (inr (map (fun sub => mkAttr (Posix.basename sub) true 0)
            (filter (fun sub => Posix.dirname sub = path) (remote_dirs d))
          ++ map (fun f => mkAttr (Posix.basename (fst f)) false (Z.of_nat (length (snd f))))
               (filter (fun f => Posix.dirname (fst f) = path) (remote_files d))), d);
  sftp_stat := fun path d =>
    (match lookup_file d path with
     | Some content => inr (Z.of_nat (length content))
     | None => inl (OSError "No such file")
     end, d);
  sftp_get := fun remote _ d =>
    (match lookup_file d remote with
     | Some content => mkGet (inr tt) (Some content) [Z.of_nat (length content)]
     | None => mkGet (inl (OSError "No such file")) None []
     end, d)
|}.

#[export] Instance frida_device : Device device := {|
  device_enumerate_processes := fun d => (inr (processes d), d);
  session_detach := fun d => (inr tt, d);
  device_attach := fun target d =>
    match attach_fault d target with
    | Some e => (inl e, d)
    | None => (inr tt, revive d)
    end;
  script_load := fun d => (inr tt, d)
|}.

Definition no_fault : string -> Z -> option (Exception + bytes) := fun _ _ => None.

(** The world at the start: nothing local, nothing logged, no bar, the
    dumper attached to [attached]. *)
Definition start (d : device) (attached : option Z) : World device nat :=
  mkWorld d ∅ [] [] ∅ [] (mkDumper true true attached).

(** The bundle of the specification's scenario: directories [a] and [a/b]
    with the files [a/f1] and [a/b/f2], under [/app]. *)
Definition f1 : bytes := [x01; x02; x03; x04; x05].
Definition f2 : bytes := [x0a; x0b; x0c].

Definition bundle : device :=
  mkDevice [("/app/a/f1", f1); ("/app/a/b/f2", f2)]
           ["/app/a"; "/app/a/b"]
           (mkListing (Some ["a/b"; "a"]) (Some ["a/f1"; "a/b/f2"]))
           false no_fault [] (fun _ => None) false 0.

(** The same device, where the first read of [a/f1] returns two bytes
    whatever the length asked for. *)
Definition short_reads : device :=
  mkDevice (remote_files bundle) (remote_dirs bundle) (listing bundle) false
    (fun path offset =>
       if String.eqb path "/app/a/f1" && (offset =? 0) then Some (inr [x01; x02]) else None)
    [] (fun _ => None) false 0.



(** The same device, on which reading [a/f1] fails. *)
Definition read_fails : device :=
  mkDevice (remote_files bundle) (remote_dirs bundle) (listing bundle) false
    (fun path _ =>
       if String.eqb path "/app/a/f1" then Some (inl (OtherException "read failed"))
       else None)
    [] (fun _ => None) false 0.

(** The manifest of the bundle, as an enumeration returns it. *)
Definition bundle_files : list string := ["a/f1"; "a/b/f2"].
Definition bundle_dirs : list string := ["a/b"; "a"].
Definition bundle_sizes : gmap string Z := <["a/b/f2" := 3]> (<["a/f1" := 5]> ∅).

(** One worker: the sequential path. *)
Definition one_worker : TransferConfig := mkConfig (256 * 1024) 1 50.

(** The download of the bundle from the device on which reading [a/f1]
    fails: with one worker, and with the four workers of the default
    configuration under the scheduling [sched]. *)
Definition sequential_download : (Exception + unit) * World device nat :=
  pull_bundle_via_frida (fun _ => 0%nat) "/app" "out" (Some one_worker)
    (Some bundle_files) (Some bundle_dirs) (Some bundle_sizes) None (start read_fails None).

Definition parallel_download (sched : nat -> nat) : (Exception + unit) * World device nat :=
  pull_bundle_via_frida sched "/app" "out" (Some default_config)
    (Some bundle_files) (Some bundle_dirs) (Some bundle_sizes) None (start read_fails None).

(** The download of the whole bundle over Frida, enumerating, under the
    scheduling that lets the second of two calls in flight complete first,
    and over SSH with the manifest given. *)
Definition frida_tree : (Exception + unit) * World device nat :=
  pull_bundle_via_frida (fun _ => 1%nat) "/app" "out" None None None None None
    (start bundle None).

Definition ssh_manifest : list (string * string * Z) :=
  [("/app/a/f1", "a/f1", 5); ("/app/a/b/f2", "a/b/f2", 3)].

Definition ssh_tree : (Exception + unit) * World device nat :=
  download_dir 1000 "/app" "out" (Some ssh_manifest) (Some bundle_dirs) None
    (start bundle None).

(** The device after the target process has died: every RPC raises until
    the dumper is attached again.  [procs] are the processes running and
    [fault] what attaching to a PID raises. *)
Definition crashed (procs : list Process) (fault : Z -> option Exception) : device :=
  mkDevice (remote_files bundle) (remote_dirs bundle) (listing bundle) false no_fault
    procs fault true 0.

Definition attach_times_out (target : Z) : option Exception :=
  if target =? 50 then Some (TransportError "timed out") else None.

(** The download of the bundle and of [a/f1] as the dumped executable,
    by a downloader without SSH whose dumper is attached to PID 100. *)
Definition download_after_crash (procs : list Process) (fault : Z -> option Exception)
  : (BaseException + unit) * World device nat :=
  download_bundle (mkContext false default_config) (fun _ _ => 0%nat) 10
    "/app" "out/app" "/app/a/f1" "out/decrypted" (start (crashed procs fault) (Some 100)).

(** The same download by a downloader with SSH, entered on the Frida
    side. *)
Definition download_with_ssh : (BaseException + unit) * World device nat :=
  _download_via_frida (mkContext true default_config) (fun _ _ => 0%nat) 10
    "/app" "out/app" "/app/a/f1" "out/decrypted" default_config
    (start (crashed [] (fun _ => None)) (Some 100)).

(** The copy of [a/f1] in chunks of two bytes. *)
Definition copy_f1 : (Exception + unit) * World device nat :=
  pull_file_via_frida "/app/a/f1" "out/a/f1" 2 (Some 5) None (start bundle None).

(** The copy of [a/f1] from the device with the short read, in one chunk. *)
Definition copy_f1_short : (Exception + unit) * World device nat :=
  pull_file_via_frida "/app/a/f1" "out/a/f1" 8 (Some 5) None (start short_reads None).

End Sim.

(* ===================================================================== *)
(** * Vocabulary of the properties *)
(* ===================================================================== *)

(** How a run of the read loop ends. *)
Inductive loop_end : Type :=
| Completed                       (* [offset] reached [size] *)
| EmptyRead                       (* [break] on an empty chunk *)
| Raised (e : Exception).         (* [read_file] raised *)

Definition loop_result (o : loop_end) : Exception + unit :=
  match o with
  | Raised e => inl e
  | _ => inr tt
  end.

(** The calls a run of the read loop makes from [offset] on, and how it
    ends: while [offset < size] one read of [min(chunk_size, size - offset)]
    bytes at [offset]; a non-empty chunk is written and moves the offset by
    its length. *)
Inductive loop_trace (remote_path local_path : string) (chunk_size size : Z)
  : Z -> list event -> loop_end -> Prop :=
| loop_completed offset :
    size <= offset ->
    loop_trace remote_path local_path chunk_size size offset [] Completed
| loop_raised offset e :
    offset < size ->
    loop_trace remote_path local_path chunk_size size offset
      [EvReadFile remote_path offset (Z.min chunk_size (size - offset)) (inl e)]
      (Raised e)
| loop_empty offset :
    offset < size ->
    loop_trace remote_path local_path chunk_size size offset
      [EvReadFile remote_path offset (Z.min chunk_size (size - offset)) (inr [])]
      EmptyRead
| loop_chunk offset chunk evs o :
    offset < size ->
    chunk <> [] ->
    loop_trace remote_path local_path chunk_size size
      (offset + Z.of_nat (length chunk)) evs o ->
    loop_trace remote_path local_path chunk_size size offset
      (EvReadFile remote_path offset (Z.min chunk_size (size - offset)) (inr chunk)
         :: EvWrite local_path chunk :: evs)
      o.

(** What [pull_file_via_frida] does on the local side before its loop:
    the directory of the destination is made if it has one, then the
    destination is opened. *)
Definition prelude (local_path : string) : list event :=
  (if negb (String.eqb (Posix.dirname local_path) "")
   then [EvMakedirs (Posix.dirname local_path)] else [])
  ++ [EvOpen local_path].

(** The bytes a call answered, for a [read_file] that returned. *)
Definition chunk_of (ev : event) : bytes :=
  match ev with
  | EvReadFile _ _ _ (inr chunk) => chunk
  | _ => []
  end.

(** The chunks the [read_file] calls of a trace returned, joined in order. *)
Definition chunks_read (evs : list event) : bytes := concat (map chunk_of evs).

Definition is_read (ev : event) : bool :=
  match ev with
  | EvReadFile _ _ _ _ => true
  | _ => false
  end.

(** The stat answers an enumeration read, in order, each with the path it
    is about: the answer of an individual stat that returned, and for a
    batched stat that returned [stats.get(path, {})] for each path of the
    batch. *)
Definition observations_of (ev : event) : list (string * StatDict) :=
  match ev with
  | EvStatPath path (inr stat) => [(path, stat)]
  | EvStatPaths paths (inr stats) =>
      map (fun path => (path, default empty_stat (stats !! path))) paths
  | _ => []
  end.

Definition observations (evs : list event) : list (string * StatDict) :=
  concat (map observations_of evs).

(** What the loops of the enumeration compute from the stat answers of the
    relative paths [rels], taken in order. *)
Definition record_all (rels : list string) (sts : list StatDict)
    (acc : gmap string Z * Z) : gmap string Z * Z :=
  fold_left (fun acc p => record_size (fst p) (snd p) acc) (zip rels sts) acc.


(** The individual stat calls for the paths [rels] that answered [sts]. *)
Definition stat_events (bundle_path : string) (rels : list string) (sts : list StatDict)
  : list event :=
  zip_with (fun rel st => EvStatPath (Posix.slash bundle_path rel) (inr st)) rels sts.

Definition is_stat (ev : event) : bool :=
  match ev with
  | EvStatPath _ _ | EvStatPaths _ _ => true
  | _ => false
  end.

(** A read that returned, with fewer bytes than it asked for. *)
Definition is_short_read (ev : event) : bool :=
  match ev with
  | EvReadFile _ _ len (inr chunk) => Z.of_nat (length chunk) <? len
  | _ => false
  end.

(** A read that returned exactly the bytes it asked for. *)
Definition is_exact_read (ev : event) : Prop :=
  match ev with
  | EvReadFile _ _ len r => exists chunk, r = inr chunk /\ Z.of_nat (length chunk) = len
  | _ => True
  end.

(** "A short read ends the copy": no read follows a short one. *)
Definition short_read_ends_copy (evs : list event) : Prop :=
  forall pre ev post,
    evs = pre ++ ev :: post -> is_short_read ev = true ->
    Forall (fun ev' => is_read ev' = false) post.

(** The events of a file transfer: the destination is opened or written,
    the remote file is read or fetched. *)
Definition is_transfer (ev : event) : bool :=
  match ev with
  | EvOpen _ | EvWrite _ _ | EvReadFile _ _ _ _ | EvSftpGet _ _ _ => true
  | _ => false
  end.

Definition no_transfer (ev : event) : Prop := is_transfer ev = false.

Definition any_event (ev : event) : Prop := True.

(** The creation of the listed directories under [local_dir], in the
    order of the sort. *)
Definition makedirs_events (local_dir : string) (dirs : list string) : list event :=
  map (fun rel => EvMakedirs (Posix.join local_dir rel)) (sorted_by_len dirs).

(** In the events [evs] the directories [dirs] are all created, in the
    order of the sort, before anything is transferred. *)
Definition dirs_before_transfers (local_dir : string) (dirs : list string)
    (evs : list event) : Prop :=
  exists pre post,
    evs = pre ++ EvMakedirs local_dir :: makedirs_events local_dir dirs ++ post
    /\ Forall (fun ev => is_transfer ev = false) pre.

(** From [w] to [w'] the trace has grown by events that satisfy [P]. *)
Definition extends {R T : Type} (P : event -> Prop) (w w' : World R T) : Prop :=
  exists evs, trace w' = trace w ++ evs /\ Forall P evs.

(** The world once [local_dir] and the listed directories are made. *)
Definition with_dirs {R T : Type} (local_dir : string) (dirs : list string)
    (w : World R T) : World R T :=
  mkWorld (env w) (fs w)
    (trace w ++ EvMakedirs local_dir :: makedirs_events local_dir dirs)
    (logs w) (bars w) (stdout w) (dumper w).

(** The process [_switch_to_transfer_process] settles on: for the first
    candidate name, in the order of the list, whose first process of that
    name has a PID other than the attached one, that process. *)
Fixpoint select_candidate (names : list string) (processes : list Process)
    (attached : option Z) : option (string * Process) :=
  match names with
  | [] => None
  | name_ :: rest =>
      match find (fun p => String.eqb (name p) name_) processes with
      | Some proc =>
          if bool_decide (Some (pid proc) = attached)
          then select_candidate rest processes attached
          else Some (name_, proc)
      | None => select_candidate rest processes attached
      end
  end.

(** Not longer than. *)
Definition len_le (a b : string) : Prop := (String.length a <= String.length b)%nat.

(** The warnings logged for the units that failed. *)
Definition warning_of (unit_result : string * (Exception + unit)) : list log_record :=
  match snd unit_result with
  | inl e => [WarningFailedToDownload (fst unit_result) e]
  | inr _ => []
  end.

Definition warnings_of (results : list (string * (Exception + unit))) : list log_record :=
  concat (map warning_of results).

Section Units.

Context {R T : Type} {D : Dumper R} {TT : Terminal R T}.

(** The units of [results] are run from one world to another: each unit
    is a whole call of [pull_file_via_frida] that ends by itself, with its
    own outcome, and a failure leaves a warning in the log before the next
    unit is taken. *)
Inductive units_run (bundle_path local_dir : string) (sizes : gmap string Z)
    (config : TransferConfig) (progress : option nat)
  : list (string * (Exception + unit)) -> World R T -> World R T -> Prop :=
| units_done w : units_run bundle_path local_dir sizes config progress [] w w
| units_step rel r rest w w1 w2 :
    pull_file_via_frida (Posix.slash bundle_path rel) (Posix.join local_dir rel)
      (chunk_size config) (sizes !! rel) progress w = (r, w1) ->
    units_run bundle_path local_dir sizes config progress rest
      (match r with
       | inl e => add_log (WarningFailedToDownload rel e) w1
       | inr _ => w1
       end) w2 ->
    units_run bundle_path local_dir sizes config progress ((rel, r) :: rest) w w2.

(** Which directories a call of [pull_bundle_via_frida] works with: those
    it was given, or those of the listing when it enumerates. *)
Definition listed_dirs (bundle_path : string) (files dirs : option (list string))
    (sizes : option (gmap string Z)) (w : World R T) (dirs' : list string) : Prop :=
  match files, dirs, sizes with
  | Some _, Some dirs, Some _ => dirs' = dirs
  | _, _, _ =>
      exists listing e,
        exports_listfiles bundle_path (env w) = (inr listing, e)
        /\ dirs' = default [] (l_dirs listing)
  end.

End Units.

(** Which directories a call of [SshClient.download_dir] works with: those
    it was given, or those its walk of the remote directory finds. *)
Definition walked_dirs {R T : Type} {SF : Sftp R} (limit : nat) (remote_dir : string)
    (files : option (list (string * string * Z))) (dirs : option (list string))
    (w : World R T) (dirs' : list string) : Prop :=
  match files, dirs with
  | Some _, Some dirs => dirs' = dirs
  | _, _ => exists files' w1, walk limit remote_dir w = (inr (files', dirs'), w1)
  end.

(** The bar after the updates [deltas], each made at its reading of the
    clock. *)
Definition updates {T : Type} (within_100ms : T -> T -> bool)
    (line_text : option Z -> string -> Z -> T -> T -> string)
    (deltas : list (Z * T)) (pb : @Progress.ProgressBar T) : @Progress.ProgressBar T :=
  fold_left (fun pb d => fst (Progress.update within_100ms line_text (fst d) (snd d) pb))
    deltas pb.

(** The sum of the positive numbers of a list. *)
Definition positive_sum (deltas : list Z) : Z :=
  fold_right (fun d sum => Z.max 0 d + sum) 0 deltas.

(** An event of the read loop on [remote_path] and [local_path] for a file
    of [size] bytes: a read at an offset inside the file, of no more than
    [chunk_size] bytes and no more than what is left, or the write of a
    chunk that is not empty. *)
Definition read_in_bounds (remote_path local_path : string) (chunk_size size : Z)
    (ev : event) : Prop :=
  match ev with
  | EvReadFile p off len _ =>
      p = remote_path /\ 0 <= off < size /\ len <= chunk_size /\ off + len <= size
  | EvWrite p chunk => p = local_path /\ chunk <> []
  | _ => False
  end.

(** A read that returned no more bytes than it asked for. *)
Definition no_overlong_read (ev : event) : Prop :=
  match ev with
  | EvReadFile _ _ len (inr chunk) => Z.of_nat (length chunk) <= len
  | _ => True
  end.

(** An event of the copy of [remote_path] to [local_path]: the directory
    of the local path is made, the local path opened or written, the remote
    path read. *)
Definition copies (remote_path local_path : string) (ev : event) : Prop :=
  match ev with
  | EvMakedirs p => p = Posix.dirname local_path
  | EvOpen p | EvWrite p _ => p = local_path
  | EvReadFile p _ _ _ => p = remote_path
  | _ => False
  end.

(** An event of the copy of one of the files [rels] of the bundle. *)
Definition copies_one_of (bundle_path local_dir : string) (rels : list string)
    (ev : event) : Prop :=
  exists rel,
    rel ∈ rels /\ copies (Posix.slash bundle_path rel) (Posix.join local_dir rel) ev.

(** Who is called: the agent's exports, the local file system, the SFTP
    session. *)
Definition is_agent_call (ev : event) : bool :=
  match ev with
  | EvListFiles _ _ | EvStatPath _ _ | EvStatPaths _ _ | EvReadFile _ _ _ _ => true
  | _ => false
  end.

Definition is_local (ev : event) : bool :=
  match ev with
  | EvMakedirs _ | EvOpen _ | EvWrite _ _ => true
  | _ => false
  end.

Definition is_sftp_call (ev : event) : bool :=
  match ev with
  | EvListdir _ _ | EvSftpStat _ _ | EvSftpSession _ | EvSftpGet _ _ _ => true
  | _ => false
  end.

(** The SSH side of a download. *)
Definition ssh_side (ev : event) : Prop := is_sftp_call ev || is_local ev = true.

Definition no_sftp (ev : event) : Prop := is_sftp_call ev = false.

(** The enumeration of the processes, with which a switch of the transfer
    process starts, and how many of them a trace holds. *)
Definition is_enumeration (ev : event) : bool :=
  match ev with
  | EvEnumerateProcesses _ => true
  | _ => false
  end.

Fixpoint enumerations (evs : list event) : nat :=
  match evs with
  | [] => 0
  | ev :: evs' => ((if is_enumeration ev then 1 else 0) + enumerations evs')%nat
  end.

(** The fetch of the entry [f] of an SFTP manifest into [local_dir], with
    its outcome. *)
Definition fetched (local_dir : string) (r : Exception + unit) (f : string * string * Z)
  : event :=
  EvSftpGet (fst (fst f)) (Posix.join local_dir (snd (fst f))) r.

(** The byte counts [last], [t1], [t2], ... never go down. *)
Fixpoint increasing (last : Z) (transferred : list Z) : Prop :=
  match transferred with
  | [] => True
  | t :: rest => last <= t /\ increasing t rest
  end.

Definition no_enumeration (ev : event) : Prop := is_enumeration ev = false.

(** Every character of the string is one of [A-Za-z0-9._-]. *)
Definition all_safe (s : string) : Prop :=
  Forall (fun c => Utils.is_safe c = true) (list_ascii_of_string s).

(** The state of the agent after [n] calls of [getbundleinfo] that all
    raised; [None] when one of them answered. *)
Fixpoint after_failures {R Info : Type} {A : BundleInfoAgent R Info} (n : nat) (r : R)
  : option R :=
  match n with
  | O => Some r
  | S n' =>
      match exports_getbundleinfo r with
      | (inl _, r') => after_failures n' r'
      | (inr _, _) => None
      end
  end.


(* ===================================================================== *)
(** * Further inputs on the simulated device *)
(* ===================================================================== *)

Module Scenes.
Import Sim.

(** A bar made away from a terminal, and the world that holds it. *)
Definition quiet_bar : @Progress.ProgressBar nat :=
  Progress.__init__ false 0%nat 0%nat (Some 5) "Downloading".

Definition counting : World device nat :=
  set_bars {[0%nat := quiet_bar]} (start bundle None).

(** The copy of [a/f1] in chunks of two bytes, counted by the bar. *)
Definition counted_copy : (Exception + unit) * World device nat :=
  pull_file_via_frida "/app/a/f1" "out/a/f1" 2 (Some 5) (Some 0%nat) counting.

(** Configurations whose batch size is zero and negative. *)
Definition zero_batch : TransferConfig := mkConfig (256 * 1024) 4 0.
Definition negative_batch : TransferConfig := mkConfig (256 * 1024) 4 (-1).

(** The device on which every attach to PID 50 times out. *)
Definition unreachable : device := crashed [] attach_times_out.

(** The switch of the transfer process on a crashed device where
    SpringBoard is the attached process and backboardd runs as PID 7. *)
Definition switching : (Exception + bool) * World device nat :=
  _switch_to_transfer_process
    (start (crashed [mkProcess "SpringBoard" 100; mkProcess "backboardd" 7] (fun _ => None))
       (Some 100)).

(** An SFTP server that refuses to list any directory. *)
Definition locked_sftp : Sftp device := {|
  sftp_session := fun d => (inr tt, d);
  sftp_listdir_attr := fun _ d => (inl (OSError "Permission denied"), d);
  sftp_stat := fun _ d => (inl (OSError "No such file"), d);
  sftp_get := fun _ _ d => (mkGet (inl (OSError "No such file")) None [], d)
|}.

(** The SFTP manifest of the bundle with a file that is gone between the
    two that exist. *)
Definition stale_manifest : list (string * string * Z) :=
  [("/app/a/f1", "a/f1", 5); ("/app/a/gone", "a/gone", 1); ("/app/a/b/f2", "a/b/f2", 3)].

Definition stale_ssh_tree : (Exception + unit) * World device nat :=
  download_dir 1000 "/app" "out" (Some stale_manifest) (Some bundle_dirs) None
    (start bundle None).

(** The downloads of the bundle and of the sandbox by a downloader with
    SSH, and of the sandbox by one without, from a device that works. *)
Definition bundle_over_ssh : (BaseException + unit) * World device nat :=
  download_bundle (mkContext true default_config) (fun _ _ => 0%nat) 10
    "/app" "out/app" "/app/a/f1" "out/decrypted" (start bundle (Some 100)).

Definition sandbox_over_frida : (BaseException + unit) * World device nat :=
  download_sandbox (mkContext false default_config) (fun _ _ => 0%nat) 10
    "/app" "out/sandbox" (start bundle (Some 100)).

(** The download of the sandbox after the target process has died, by a
    downloader without SSH. *)
Definition sandbox_after_crash (procs : list Process)
  : (BaseException + unit) * World device nat :=
  download_sandbox (mkContext false default_config) (fun _ _ => 0%nat) 10
    "/app" "out/sandbox" (start (crashed procs (fun _ => None)) (Some 100)).

(** Two applications whose identifiers differ by case only. *)
Definition shadowed_apps : list Apps.Application :=
  [Apps.mkApp "com.example.App" (Some "Demo") 11;
   Apps.mkApp "com.example.app" (Some "demo") 12].

(** An agent whose runtime is ready at the third call: the state counts
    the calls made. *)
Definition slow_agent : BundleInfoAgent nat string := {|
  exports_getbundleinfo := fun n =>
    (if (n <? 2)%nat then inl (OtherException "ObjC runtime not ready")
     else inr "com.example.app", S n)
|}.

(** A [paramiko] client on which every call succeeds but the setting of
    the channel timeout; the state counts the sessions opened. *)
Definition no_timeout_client : SshClient.Paramiko nat := {|
  SshClient.client_connect := fun n => (inr tt, n);
  SshClient.client_open_sftp := fun n => (inr tt, S n);
  SshClient.channel_settimeout := fun n => (inl (OSError "Socket is closed"), n);
  SshClient.sftp_close := fun n => (inl (OSError "Socket is closed"), n);
  SshClient.client_close := fun n => (inr tt, n)
|}.


End Scenes.

(* ===================================================================== *)
(** * Properties of the progress bar *)
(* ===================================================================== *)

Module ProgressFacts.
Import Progress.

Section Facts.

Context {T : Type}.
Variable within_100ms : T -> T -> bool.
Variable line_text : option Z -> string -> Z -> T -> T -> string.

#[local] Abbreviation update := (update within_100ms line_text).
#[local] Abbreviation render := (_render_unlocked within_100ms line_text).

(** Rendering reads the counters and leaves them as they are. *)
Lemma render_current force now (pb : @ProgressBar T) :
  current (fst (render force now pb)) = current pb.
Proof.
  unfold _render_unlocked.
  destruct (_enabled pb); simpl; [| reflexivity].
  destruct (negb force && within_100ms now (_last_render pb)); reflexivity.
Qed.

Lemma render_total force now (pb : @ProgressBar T) :
  total (fst (render force now pb)) = total pb.
Proof.
  unfold _render_unlocked.
  destruct (_enabled pb); simpl; [| reflexivity].
  destruct (negb force && within_100ms now (_last_render pb)); reflexivity.
Qed.

Lemma update_nonpositive delta now (pb : @ProgressBar T) :
  delta <= 0 -> update delta now pb = (pb, None).
Proof.
  intros H. unfold Progress.update.
  destruct (Z.leb_spec delta 0); [reflexivity | lia].
Qed.

Lemma update_positive delta now (pb : @ProgressBar T) :
  0 < delta -> current (fst (update delta now pb)) = current pb + delta.
Proof.
  intros H. unfold Progress.update.
  destruct (Z.leb_spec delta 0); [lia |].
  rewrite render_current. reflexivity.
Qed.

Lemma update_current delta now (pb : @ProgressBar T) :
  current (fst (update delta now pb)) =
  if 0 <? delta then current pb + delta else current pb.
Proof.
  destruct (Z.ltb_spec 0 delta).
  - apply update_positive; assumption.
  - rewrite update_nonpositive by assumption. reflexivity.
Qed.

(** C7. [update(delta)] adds [delta] to the transferred counter exactly
    when [delta > 0] and leaves the bar untouched (no render either) when
    [delta <= 0]; hence two updates by [d1, d2 >= 0] of a new bar, whatever
    the clock says at each, leave the counter at [d1 + d2], and
    [update(-5)] changes nothing. *)
Theorem update_adds_positive_deltas
    (pb : @ProgressBar T) (delta d1 d2 : Z) (now now1 now2 start epoch : T)
    (tty : bool) (total : option Z) (label : string) :
  0 <= d1 -> 0 <= d2 ->
  current (fst (update delta now pb))
    = (if 0 <? delta then current pb + delta else current pb)
  /\ (if 0 <? delta then True else update delta now pb = (pb, None))
  /\ current (fst (update d2 now2 (fst (update d1 now1 (__init__ tty epoch start total label)))))
     = d1 + d2
  /\ update (-5) now pb = (pb, None).
Proof.
  intros H1 H2. split; [| split; [| split]].
  - apply update_current.
  - destruct (Z.ltb_spec 0 delta); [exact I |].
    apply update_nonpositive. assumption.
  - rewrite !update_current. simpl.
    destruct (Z.ltb_spec 0 d1), (Z.ltb_spec 0 d2); lia.
  - apply update_nonpositive. lia.
Qed.

End Facts.

(** The theorem on a bar at a terminal that renders every update. *)
Lemma update_adds_positive_deltas_witness :
  0 <= 100 /\ 0 <= 50 /\
  current (fst (update (fun _ _ : nat => false) (fun _ l _ _ _ => l) 50 2%nat
             (fst (update (fun _ _ : nat => false) (fun _ l _ _ _ => l) 100 1%nat
                     (__init__ true 0%nat 0%nat (Some 150) "Downloading"))))) = 150.
Proof.
  split; [lia |]. split; [lia |].
  exact (proj1 (proj2 (proj2
    (update_adds_positive_deltas (fun _ _ : nat => false) (fun _ l _ _ _ => l)
       (__init__ true 0%nat 0%nat (Some 150) "Downloading") 7 100 50
       0%nat 1%nat 2%nat 0%nat 0%nat true (Some 150) "Downloading"
       ltac:(lia) ltac:(lia))))).
Defined.

End ProgressFacts.

(* ===================================================================== *)
(** * Properties of the single-file download *)
(* ===================================================================== *)

Section PullFileFacts.

Context {R T : Type} {D : Dumper R} {TT : Terminal R T}.

Abbreviation World := (World R T).

Implicit Types (w : World) (offset size chunk_size : Z) (progress : option nat).

(** ** What each primitive changes *)

Lemma call_inv {A} (op : R -> (Exception + A) * R) ev w r w' :
  call op ev w = (r, w') ->
  exists e, op (env w) = (r, e) /\ w' = emit (ev r) (set_env e w).
Proof.
  unfold call. destruct (op (env w)) as [r0 e] eqn:E.
  intros [= <- <-]. eauto.
Qed.

Lemma read_file_inv path offset size w r w' :
  read_file path offset size w = (r, w') ->
  exists e, exports_readfile path offset size (env w) = (r, e)
            /\ w' = emit (EvReadFile path offset size r) (set_env e w).
Proof. apply call_inv. Qed.

Lemma stat_path_inv path w r w' :
  stat_path path w = (r, w') ->
  exists e, exports_statpath path (env w) = (r, e)
            /\ w' = emit (EvStatPath path r) (set_env e w).
Proof. apply call_inv. Qed.

Lemma progress_update_frame progress delta w :
  fst (progress_update progress delta w) = inr tt
  /\ fs (snd (progress_update progress delta w)) = fs w
  /\ trace (snd (progress_update progress delta w)) = trace w
  /\ logs (snd (progress_update progress delta w)) = logs w
  /\ dumper (snd (progress_update progress delta w)) = dumper w.
Proof.
  unfold progress_update.
  destruct progress as [a |]; [| done].
  destruct (bars w !! a) as [pb |]; [| done].
  destruct (if (0 <? delta) && Progress._enabled pb then time_time (env w)
            else (Progress._last_render pb, env w)) as [now e].
  destruct (Progress.update within_100ms line_text delta now pb) as [pb' out].
  done.
Qed.

Lemma progress_update_none delta w : progress_update None delta w = (inr tt, w).
Proof. reflexivity. Qed.

(** ** The read loop *)

Lemma read_loop_step remote_path local_path chunk_size size progress offset w :
  read_loop remote_path local_path chunk_size size progress offset w =
  if offset <? size then
    match read_file remote_path offset (Z.min chunk_size (size - offset)) w with
    | (inl e, w1) => (inl e, w1)
    | (inr [], w1) => (inr tt, w1)
    | (inr chunk, w1) =>
        read_loop remote_path local_path chunk_size size progress
          (offset + Z.of_nat (length chunk))
          (snd (progress_update progress (Z.of_nat (length chunk))
                  (snd (handle_write local_path chunk w1))))
    end
  else (inr tt, w).
Proof.
  rewrite read_loop_equation_1.
  destruct (Z_lt_dec offset size) as [Hlt | Hge]; simpl.
  - destruct (Z.ltb_spec offset size); [| lia].
    destruct (read_file remote_path offset (Z.min chunk_size (size - offset)) w)
      as [[e | [| b chunk]] w1]; reflexivity.
  - destruct (Z.ltb_spec offset size); [lia | reflexivity].
Qed.

Lemma handle_write_eq local_path chunk w :
  handle_write local_path chunk w =
  (inr tt, emit (EvWrite local_path chunk)
             (set_fs (<[local_path := default [] (fs w !! local_path) ++ chunk]> (fs w)) w)).
Proof. reflexivity. Qed.

Lemma chunks_read_app evs1 evs2 :
  chunks_read (evs1 ++ evs2) = chunks_read evs1 ++ chunks_read evs2.
Proof. unfold chunks_read. rewrite map_app, concat_app. reflexivity. Qed.

(** The loop makes the calls described by [loop_trace], returns what its
    end says, and leaves in the open file what it held before followed by
    the chunks read; the other files, the log and the dumper are as
    before. *)
Lemma read_loop_spec remote_path local_path chunk_size size progress :
  forall (n : nat) offset w res w' c0,
    Z.to_nat (size - offset) = n ->
    fs w !! local_path = Some c0 ->
    read_loop remote_path local_path chunk_size size progress offset w = (res, w') ->
    exists evs o,
      trace w' = trace w ++ evs
      /\ loop_trace remote_path local_path chunk_size size offset evs o
      /\ res = loop_result o
      /\ fs w' = <[local_path := c0 ++ chunks_read evs]> (fs w)
      /\ logs w' = logs w
      /\ dumper w' = dumper w.
Proof.
  induction n as [n IH] using lt_wf_ind.
  intros offset w res w' c0 Hn Hc0 Hrun.
  rewrite read_loop_step in Hrun.
  destruct (Z.ltb_spec offset size) as [Hlt | Hge].
  - destruct (read_file remote_path offset (Z.min chunk_size (size - offset)) w)
      as [[e | chunk] w1] eqn:Hread.
    + injection Hrun as <- <-.
      apply read_file_inv in Hread as (e' & _ & ->).
      exists [EvReadFile remote_path offset (Z.min chunk_size (size - offset)) (inl e)],
             (Raised e).
      simpl. rewrite app_nil_r, insert_id by assumption.
      repeat split; try reflexivity. constructor; assumption.
    + apply read_file_inv in Hread as (e' & _ & ->).
      destruct chunk as [| b chunk].
      * injection Hrun as <- <-.
        exists [EvReadFile remote_path offset (Z.min chunk_size (size - offset)) (inr [])],
               EmptyRead.
        simpl. rewrite app_nil_r, insert_id by assumption.
        repeat split; try reflexivity. constructor; assumption.
      * set (chunk' := b :: chunk) in *.
        set (ev := EvReadFile remote_path offset (Z.min chunk_size (size - offset))
                     (inr chunk')) in *.
        set (w1 := emit ev (set_env e' w)) in *.
        set (w2 := snd (handle_write local_path chunk' w1)) in *.
        destruct (progress_update_frame progress (Z.of_nat (length chunk')) w2)
          as (_ & Hfs & Htr & Hlog & Hdump).
        set (w3 := snd (progress_update progress (Z.of_nat (length chunk')) w2)) in *.
        assert (Hlen : (0 < length chunk')%nat) by (subst chunk'; simpl; lia).
        assert (Hfs3 : fs w3 = <[local_path := c0 ++ chunk']> (fs w)).
        { rewrite Hfs. subst w2 w1. simpl. rewrite Hc0. reflexivity. }
        assert (Hlook : fs w3 !! local_path = Some (c0 ++ chunk'))
          by (rewrite Hfs3; apply lookup_insert_eq).
        destruct (IH (Z.to_nat (size - (offset + Z.of_nat (length chunk'))))
                    ltac:(lia) _ w3 res w' _ eq_refl Hlook Hrun)
          as (evs & o & Htrace & Hloop & Hres & Hfs' & Hlogs' & Hdump').
        exists (ev :: EvWrite local_path chunk' :: evs), o.
        split.
        { rewrite Htrace, Htr. subst w2 w1. simpl. rewrite <- !app_assoc. reflexivity. }
        split.
        { subst ev. constructor; [assumption | subst chunk'; discriminate | assumption]. }
        split; [assumption |].
        split.
        { rewrite Hfs', Hfs3, insert_insert_eq.
          change (chunks_read (ev :: EvWrite local_path chunk' :: evs))
            with (chunk' ++ [] ++ chunks_read evs).
          simpl. rewrite <- app_assoc. reflexivity. }
        split.
        { rewrite Hlogs', Hlog. reflexivity. }
        rewrite Hdump', Hdump. reflexivity.
  - injection Hrun as <- <-.
    exists [], Completed. simpl.
    rewrite !app_nil_r, insert_id by assumption.
    repeat split; try reflexivity. constructor; assumption.
Qed.

(** ** Runs of the loop *)

Lemma loop_trace_empty_read rp lp cs size offset evs o :
  loop_trace rp lp cs size offset evs o ->
  forall pre p off len post,
    evs = pre ++ EvReadFile p off len (inr []) :: post ->
    post = [] /\ o = EmptyRead.
Proof.
  induction 1 as [offset Hge | offset e Hlt | offset Hlt | offset chunk evs o Hlt Hne Hrest IH];
    intros pre p off len post Heq.
  - destruct pre; discriminate.
  - destruct pre as [| ? [| ? ?]]; discriminate.
  - destruct pre as [| ? [| ? ?]]; [| discriminate ..].
    injection Heq as _ _ _ <-. done.
  - destruct pre as [| ? [| ? pre]]; simplify_eq/=.
    eapply IH. reflexivity.
Qed.

Lemma loop_trace_chunk_continues rp lp cs size offset evs o :
  loop_trace rp lp cs size offset evs o ->
  forall pre p off len chunk post,
    evs = pre ++ EvReadFile p off len (inr chunk) :: post ->
    chunk <> [] ->
    off + Z.of_nat (length chunk) < size ->
    exists r post',
      post = EvWrite lp chunk
             :: EvReadFile rp (off + Z.of_nat (length chunk))
                  (Z.min cs (size - (off + Z.of_nat (length chunk)))) r
             :: post'.
Proof.
  induction 1 as [offset Hge | offset e Hlt | offset Hlt | offset chunk evs o Hlt Hne Hrest IH];
    intros pre p off len chunk' post Heq Hne' Hoff.
  - destruct pre; discriminate.
  - destruct pre as [| ? [| ? ?]]; discriminate.
  - destruct pre as [| ? [| ? ?]]; simplify_eq/=.
  - destruct pre as [| ? [| ? pre]]; simplify_eq/=.
    + inversion Hrest; subst; try lia; eauto.
    + eapply IH; eauto.
Qed.

Lemma loop_trace_exact rp lp cs size offset evs o :
  loop_trace rp lp cs size offset evs o ->
  0 < cs -> offset <= size ->
  Forall is_exact_read evs ->
  o = Completed /\ Z.of_nat (length (chunks_read evs)) = size - offset.
Proof.
  induction 1 as [offset Hge | offset e Hlt | offset Hlt | offset chunk evs o Hlt Hne Hrest IH];
    intros Hcs Hle Hexact.
  - split; [reflexivity |]. simpl. lia.
  - apply Forall_cons in Hexact as [(chunk & [=] & _) _].
  - apply Forall_cons in Hexact as [(chunk & [= <-] & Hlen) _]. simpl in Hlen. lia.
  - apply Forall_cons in Hexact as [(chunk' & [= <-] & Hlen) Hexact].
    apply Forall_cons in Hexact as [_ Hexact].
    destruct IH as [-> Hsum]; [lia | lia | assumption |].
    split; [reflexivity |].
    change (chunks_read (EvReadFile rp offset (Z.min cs (size - offset)) (inr chunk)
                           :: EvWrite lp chunk :: evs))
      with (chunk ++ [] ++ chunks_read evs).
    simpl. rewrite length_app. lia.
Qed.

(** ** The whole function *)

Lemma pull_file_known_size_eq remote_path local_path chunk_size size progress w :
  pull_file_via_frida remote_path local_path chunk_size (Some size) progress w =
  let w0 := if negb (String.eqb (Posix.dirname local_path) "")
            then emit (EvMakedirs (Posix.dirname local_path)) w else w in
  read_loop remote_path local_path chunk_size size progress 0
    (emit (EvOpen local_path) (set_fs (<[local_path := []]> (fs w0)) w0)).
Proof.
  unfold pull_file_via_frida, bind, ret, makedirs, open_wb, modify.
  destruct (negb (String.eqb (Posix.dirname local_path) "")); reflexivity.
Qed.

Lemma pull_file_known_size remote_path local_path chunk_size size progress w res w' :
  pull_file_via_frida remote_path local_path chunk_size (Some size) progress w = (res, w') ->
  exists evs o,
    trace w' = trace w ++ prelude local_path ++ evs
    /\ loop_trace remote_path local_path chunk_size size 0 evs o
    /\ res = loop_result o
    /\ fs w' = <[local_path := chunks_read evs]> (fs w)
    /\ logs w' = logs w
    /\ dumper w' = dumper w.
Proof.
  rewrite pull_file_known_size_eq. cbv zeta.
  set (w0 := if negb (String.eqb (Posix.dirname local_path) "")
             then emit (EvMakedirs (Posix.dirname local_path)) w else w).
  intros Hrun.
  eapply read_loop_spec with (c0 := []) in Hrun; [| reflexivity |].
  2:{ simpl. apply lookup_insert_eq. }
  destruct Hrun as (evs & o & Htrace & Hloop & Hres & Hfs & Hlogs & Hdump).
  exists evs, o. simpl in *.
  split.
  { rewrite Htrace. unfold prelude. subst w0.
    destruct (negb _); simpl; rewrite <- ?app_assoc; reflexivity. }
  split; [assumption |]. split; [assumption |].
  split.
  { rewrite Hfs, insert_insert_eq. subst w0. destruct (negb _); reflexivity. }
  split.
  { rewrite Hlogs. subst w0. destruct (negb _); reflexivity. }
  rewrite Hdump. subst w0. destruct (negb _); reflexivity.
Qed.

Lemma pull_file_unknown_size remote_path local_path chunk_size progress w :
  pull_file_via_frida remote_path local_path chunk_size None progress w =
  match stat_path remote_path w with
  | (inl e, w1) => (inl e, w1)
  | (inr stat, w1) =>
      if negb (truthy (st_exists stat))
      then (inl (RuntimeError ("Remote path not found: " +:+ remote_path)), w1)
      else if truthy (st_isDir stat)
      then (inl (RuntimeError ("Remote path is a directory: " +:+ remote_path)), w1)
      else pull_file_via_frida remote_path local_path chunk_size
             (Some (default 0 (st_size stat))) progress w1
  end.
Proof.
  unfold pull_file_via_frida, bind at 1 2.
  destruct (stat_path remote_path w) as [[e | stat] w1]; [reflexivity |].
  destruct (negb (truthy (st_exists stat))); [reflexivity |].
  destruct (truthy (st_isDir stat)); reflexivity.
Qed.

Lemma loop_trace_no_stat rp lp cs size offset evs o :
  loop_trace rp lp cs size offset evs o ->
  Forall (fun ev => is_stat ev = false) evs.
Proof. induction 1; repeat constructor; assumption. Qed.

Lemma prelude_no_stat lp : Forall (fun ev => is_stat ev = false) (prelude lp).
Proof. unfold prelude. destruct (negb _); repeat constructor. Qed.

Lemma chunks_read_prelude lp evs : chunks_read (prelude lp ++ evs) = chunks_read evs.
Proof. unfold prelude. destruct (negb _); reflexivity. Qed.

(** C2 (amended). A download with a known size makes, besides creating
    and opening its destination, the calls of the read loop: while
    [offset < size] one read of [min(chunk_size, size - offset)] bytes at
    [offset].  An empty read ends the copy without an error.  A non-empty
    read, short or not, is written and the loop goes on: when the offset it
    leaves is below [size] the next read follows at that offset.  When the
    chunk size is positive and every read returns exactly the length asked
    for, the call returns and the local file holds exactly [size] bytes. *)
Theorem pull_file_read_loop remote_path local_path chunk_size size progress w res w' :
  pull_file_via_frida remote_path local_path chunk_size (Some size) progress w = (res, w') ->
  exists evs o,
    trace w' = trace w ++ prelude local_path ++ evs
    /\ loop_trace remote_path local_path chunk_size size 0 evs o
    /\ res = loop_result o
    /\ (forall pre p off len post,
          evs = pre ++ EvReadFile p off len (inr []) :: post ->
          post = [] /\ res = inr tt)
    /\ (forall pre p off len chunk post,
          evs = pre ++ EvReadFile p off len (inr chunk) :: post ->
          chunk <> [] ->
          off + Z.of_nat (length chunk) < size ->
          exists r post',
            post = EvWrite local_path chunk
                   :: EvReadFile remote_path (off + Z.of_nat (length chunk))
                        (Z.min chunk_size (size - (off + Z.of_nat (length chunk)))) r
                   :: post')
    /\ (0 < chunk_size -> 0 <= size -> Forall is_exact_read evs ->
        res = inr tt
        /\ exists content,
             fs w' !! local_path = Some content /\ Z.of_nat (length content) = size).
Proof.
  intros Hrun.
  apply pull_file_known_size in Hrun
    as (evs & o & Htrace & Hloop & Hres & Hfs & _ & _).
  exists evs, o.
  split; [assumption |]. split; [assumption |]. split; [assumption |].
  split.
  { intros pre p off len post Heq.
    destruct (loop_trace_empty_read _ _ _ _ _ _ _ Hloop _ _ _ _ _ Heq) as [-> ->].
    subst res. done. }
  split.
  { intros pre p off len chunk post Heq Hne Hoff.
    eapply loop_trace_chunk_continues; eauto. }
  intros Hcs Hsize Hexact.
  destruct (loop_trace_exact _ _ _ _ _ _ _ Hloop Hcs Hsize Hexact) as [-> Hlen].
  split; [subst res; reflexivity |].
  exists (chunks_read evs). rewrite Hfs, lookup_insert_eq.
  split; [reflexivity | lia].
Qed.

(** C9 (amended). When the caller supplies no size, the download stats
    the remote path and raises [RuntimeError] with the message "Remote path
    not found" if the answer does not say it exists, with the message
    "Remote path is a directory" if it says it is a directory; nothing local
    is touched.  When the caller supplies a size, no stat call is made: the
    calls are those of the copy, and the result is that of its loop. *)
Theorem pull_file_stat_check remote_path local_path chunk_size progress w stat e size :
  exports_statpath remote_path (env w) = (inr stat, e) ->
  is_regular stat = false ->
  pull_file_via_frida remote_path local_path chunk_size None progress w
  = (inl (RuntimeError
            ((if truthy (st_exists stat) then "Remote path is a directory: "
              else "Remote path not found: ") +:+ remote_path)),
     emit (EvStatPath remote_path (inr stat)) (set_env e w))
  /\ exists evs o,
       trace (snd (pull_file_via_frida remote_path local_path chunk_size (Some size)
                     progress w))
       = trace w ++ prelude local_path ++ evs
       /\ Forall (fun ev => is_stat ev = false) (prelude local_path ++ evs)
       /\ loop_trace remote_path local_path chunk_size size 0 evs o
       /\ fst (pull_file_via_frida remote_path local_path chunk_size (Some size)
                 progress w)
          = loop_result o.
Proof.
  intros Hstat Hirregular. split.
  - rewrite pull_file_unknown_size.
    unfold stat_path, call. rewrite Hstat.
    unfold is_regular in Hirregular.
    destruct (truthy (st_exists stat)); simpl in *; [| reflexivity].
    destruct (truthy (st_isDir stat)); [reflexivity | discriminate].
  - destruct (pull_file_via_frida remote_path local_path chunk_size (Some size) progress w)
      as [res w'] eqn:Hrun.
    apply pull_file_known_size in Hrun
      as (evs & o & Htrace & Hloop & Hres & _).
    exists evs, o. simpl.
    split; [assumption |].
    split; [| split; assumption].
    apply Forall_app. split; [apply prelude_no_stat |].
    eapply loop_trace_no_stat; eassumption.
Qed.

(** C10. A download that returns has opened its destination in
    truncating mode: whatever the local file held before, it now holds
    exactly the chunks the [read_file] calls of the download returned, in
    order, and no other local file has changed.  For a remote file of size
    zero (supplied, or reported by the stat call) there is no read call, the
    local file is empty, and no progress bar has been updated. *)
Theorem pull_file_content remote_path local_path chunk_size (size : option Z) progress w w' :
  pull_file_via_frida remote_path local_path chunk_size size progress w = (inr tt, w') ->
  exists evs,
    trace w' = trace w ++ evs
    /\ fs w' !! local_path = Some (chunks_read evs)
    /\ (forall p, p <> local_path -> fs w' !! p = fs w !! p)
    /\ (size = Some 0
        \/ (size = None
            /\ exists stat e, exports_statpath remote_path (env w) = (inr stat, e)
                              /\ default 0 (st_size stat) = 0) ->
        Forall (fun ev => is_read ev = false) evs
        /\ fs w' !! local_path = Some []
        /\ bars w' = bars w
        /\ stdout w' = stdout w).
Proof.
  assert (Hknown : forall size0 w0,
    pull_file_via_frida remote_path local_path chunk_size (Some size0) progress w0
      = (inr tt, w') ->
    exists evs,
      trace w' = trace w0 ++ evs
      /\ fs w' !! local_path = Some (chunks_read evs)
      /\ (forall p, p <> local_path -> fs w' !! p = fs w0 !! p)
      /\ (size0 = 0 ->
          Forall (fun ev => is_read ev = false) evs
          /\ fs w' !! local_path = Some []
          /\ bars w' = bars w0 /\ stdout w' = stdout w0)).
  { intros size0 w0 Hrun.
    pose proof Hrun as Hrun'.
    apply pull_file_known_size in Hrun
      as (evs & o & Htrace & Hloop & Hres & Hfs & _ & _).
    exists (prelude local_path ++ evs).
    split; [assumption |].
    split; [rewrite Hfs, lookup_insert_eq, chunks_read_prelude; reflexivity |].
    split; [intros p Hp; rewrite Hfs; apply lookup_insert_ne; congruence |].
    intros ->.
    rewrite pull_file_known_size_eq, read_loop_step in Hrun'. simpl in Hrun'.
    injection Hrun' as <-.
    inversion Hloop; subst; try lia.
    rewrite app_nil_r. simpl.
    split; [unfold prelude; destruct (negb _); repeat constructor |].
    split; [apply lookup_insert_eq |].
    destruct (negb _); done. }
  intros Hrun. destruct size as [size |].
  - destruct (Hknown _ _ Hrun) as (evs & Htrace & Hfs & Hothers & Hzero).
    exists evs. repeat (split; [assumption |]).
    intros [[= ->] | [[=] _]]. apply Hzero. reflexivity.
  - rewrite pull_file_unknown_size in Hrun.
    destruct (stat_path remote_path w) as [[ex | stat] w1] eqn:Hstat; [discriminate |].
    apply stat_path_inv in Hstat as (e & Hstat & ->).
    destruct (negb (truthy (st_exists stat))); [discriminate |].
    destruct (truthy (st_isDir stat)); [discriminate |].
    destruct (Hknown _ _ Hrun) as (evs & Htrace & Hfs & Hothers & Hzero).
    exists (EvStatPath remote_path (inr stat) :: evs).
    split; [rewrite Htrace; simpl; rewrite <- app_assoc; reflexivity |].
    split; [assumption |].
    split; [assumption |].
    intros [[=] | (_ & stat' & e' & Hstat' & Hsize)].
    rewrite Hstat in Hstat'. injection Hstat' as <- <-.
    destruct (Hzero Hsize) as (Hreads & Hempty & Hbars & Hout).
    split; [constructor; [reflexivity | assumption] |].
    repeat (split; [assumption |]). assumption.
Qed.

End PullFileFacts.

Module PullFileExamples.
Import Sim.

(** The loop theorem on the copy of [a/f1] (five bytes) in chunks of two. *)
Lemma pull_file_read_loop_witness :
  copy_f1 = (inr tt, snd copy_f1)
  /\ fs (snd copy_f1) !! "out/a/f1" = Some f1
  /\ exists evs o,
       trace (snd copy_f1) = trace (start bundle None) ++ prelude "out/a/f1" ++ evs
       /\ loop_trace "/app/a/f1" "out/a/f1" 2 5 0 evs o
       /\ @inr Exception unit tt = loop_result o.
Proof.
  assert (H : copy_f1 = (inr tt, snd copy_f1)) by (vm_compute; reflexivity).
  split; [exact H |].
  split; [vm_compute; reflexivity |].
  destruct (pull_file_read_loop "/app/a/f1" "out/a/f1" 2 5 None (start bundle None)
              (inr tt) (snd copy_f1) H)
    as (evs & o & Htrace & Hloop & Hres & _).
  exists evs, o. auto.
Defined.

(** C2, as stated, fails: the first read of this copy returns two of the
    five bytes asked for, and the copy does not end there; a second read
    asks for the remaining three bytes at offset two, and all five bytes
    arrive. *)
Lemma short_read_does_not_end_copy :
  fst copy_f1_short = inr tt
  /\ ~ short_read_ends_copy (trace (snd copy_f1_short))
  /\ fs (snd copy_f1_short) !! "out/a/f1" = Some f1.
Proof.
  split; [vm_compute; reflexivity |].
  split; [| vm_compute; reflexivity].
  intros Hends.
  specialize (Hends [EvMakedirs "out/a"; EvOpen "out/a/f1"]
                    (EvReadFile "/app/a/f1" 0 5 (inr [x01; x02]))
                    [EvWrite "out/a/f1" [x01; x02];
                     EvReadFile "/app/a/f1" 2 3 (inr [x03; x04; x05]);
                     EvWrite "out/a/f1" [x03; x04; x05]]).
  assert (Hpost : Forall (fun ev' => is_read ev' = false)
                    [EvWrite "out/a/f1" [x01; x02];
                     EvReadFile "/app/a/f1" 2 3 (inr [x03; x04; x05]);
                     EvWrite "out/a/f1" [x03; x04; x05]]).
  { apply Hends; vm_compute; reflexivity. }
  inversion Hpost as [| ? ? _ Hrest]. inversion Hrest as [| ? ? Hread _].
  discriminate Hread.
Qed.

(** With a chunk size of zero every read asks for zero bytes and gets
    them, and nothing is copied: the positive chunk size is needed for the
    last part of the loop theorem. *)
Lemma zero_chunk_size_copies_nothing :
  let run := pull_file_via_frida "/app/a/f1" "out/a/f1" 0 (Some 5) None (start bundle None) in
  fst run = inr tt
  /\ trace (snd run)
     = [EvMakedirs "out/a"; EvOpen "out/a/f1"; EvReadFile "/app/a/f1" 0 0 (inr [])]
  /\ fs (snd run) !! "out/a/f1" = Some [].
Proof. vm_compute. auto. Qed.

(** The stat check on a path the device does not have. *)
Lemma pull_file_stat_check_witness :
  exports_statpath "/app/missing" (env (start bundle None))
    = (inr (stat_of bundle "/app/missing"), bundle)
  /\ is_regular (stat_of bundle "/app/missing") = false
  /\ fst (pull_file_via_frida "/app/missing" "out/x" 4 None None (start bundle None))
     = inl (RuntimeError "Remote path not found: /app/missing").
Proof.
  assert (H1 : exports_statpath "/app/missing" (env (start bundle None))
               = (inr (stat_of bundle "/app/missing"), bundle)) by reflexivity.
  assert (H2 : is_regular (stat_of bundle "/app/missing") = false) by reflexivity.
  split; [exact H1 |]. split; [exact H2 |].
  rewrite (proj1 (pull_file_stat_check "/app/missing" "out/x" 4 None (start bundle None)
                    _ _ 0 H1 H2)).
  reflexivity.
Defined.

(** C9, as stated, fails: with a size supplied, the download of a path
    that does not exist, and the download of a directory, make no stat call
    and return without an error. *)
Lemma supplied_size_skips_stat_check :
  is_regular (stat_of bundle "/app/missing") = false
  /\ truthy (st_exists (stat_of bundle "/app/missing")) = false
  /\ pull_file_via_frida "/app/missing" "out/x" 4 (Some 0) None (start bundle None)
     = (inr tt,
        mkWorld bundle {["out/x" := []]} [EvMakedirs "out"; EvOpen "out/x"] [] ∅ []
          (mkDumper true true None))
  /\ truthy (st_isDir (stat_of bundle "/app/a")) = true
  /\ pull_file_via_frida "/app/a" "out/x" 4 (Some 0) None (start bundle None)
     = (inr tt,
        mkWorld bundle {["out/x" := []]} [EvMakedirs "out"; EvOpen "out/x"] [] ∅ []
          (mkDumper true true None)).
Proof. repeat split; vm_compute; reflexivity. Qed.

(** The content theorem on the copy of [a/f1] over a local file that held
    other bytes. *)
Lemma pull_file_content_witness :
  let w := set_fs {["out/a/f1" := [xff; xff; xff; xff; xff; xff; xff]]} (start bundle None) in
  let run := pull_file_via_frida "/app/a/f1" "out/a/f1" 2 None None w in
  run = (inr tt, snd run)
  /\ exists evs,
       trace (snd run) = trace w ++ evs
       /\ fs (snd run) !! "out/a/f1" = Some (chunks_read evs)
       /\ chunks_read evs = f1.
Proof.
  intros w run.
  assert (H : run = (inr tt, snd run)) by (vm_compute; reflexivity).
  split; [exact H |].
  destruct (pull_file_content "/app/a/f1" "out/a/f1" 2 None None w (snd run) H)
    as (evs & Htrace & Hfs & _).
  exists evs. split; [assumption |]. split; [assumption |].
  assert (Hf : fs (snd run) !! "out/a/f1" = Some f1) by (vm_compute; reflexivity).
  congruence.
Defined.

End PullFileExamples.

(* ===================================================================== *)
(** * Properties of the enumeration *)
(* ===================================================================== *)

Section RecordFacts.

Implicit Types (acc : gmap string Z * Z) (rels : list string) (sts : list StatDict).


Lemma record_all_cons rel rels st sts acc :
  record_all (rel :: rels) (st :: sts) acc = record_all rels sts (record_size rel st acc).
Proof. reflexivity. Qed.

Lemma record_all_app rels1 rels2 sts1 sts2 acc :
  length sts1 = length rels1 ->
  record_all (rels1 ++ rels2) (sts1 ++ sts2) acc
  = record_all rels2 sts2 (record_all rels1 sts1 acc).
Proof.
  revert sts1 acc. induction rels1 as [| rel rels1 IH]; intros [| st sts1] acc Hlen;
    try discriminate; [reflexivity |].
  simpl app. rewrite !record_all_cons. apply IH. simpl in Hlen. lia.
Qed.

(** The loop after a batched stat records what it reads from the answer. *)
Lemma record_batch_all bundle_path (stats : gmap string StatDict) rels acc :
  record_batch bundle_path rels stats acc
  = record_all rels
      (map (fun rel => default empty_stat (stats !! Posix.slash bundle_path rel)) rels) acc.
Proof.
  revert acc. induction rels as [| rel rels IH]; intros acc; [reflexivity |].
  simpl map. rewrite record_all_cons, <- IH. reflexivity.
Qed.







End RecordFacts.

Lemma batches_step (n : nat) (x : string) (l : list string) :
  batches (S n) (x :: l) = take (S n) (x :: l) :: batches (S n) (drop (S n) (x :: l)).
Proof. rewrite batches_equation_3. reflexivity. Qed.

(** The batches of a positive size are a partition of the list into
    consecutive runs: joined they give the list back, none is empty or
    longer than the size, and all but the last have exactly the size. *)
Lemma batches_partition (n : nat) : (0 < n)%nat -> forall (m : nat) (files : list string),
  length files = m ->
  concat (batches n files) = files
  /\ Forall (fun batch => (0 < length batch <= n)%nat) (batches n files)
  /\ (forall i batch, batches n files !! i = Some batch ->
        (S i < length (batches n files))%nat -> length batch = n).
Proof.
  intros Hn. destruct n as [| n]; [lia |].
  induction m as [m IH] using lt_wf_ind. intros [| x l] Hlen.
  - rewrite batches_equation_2. repeat split; [constructor | intros i b [=]].
  - rewrite batches_step.
    destruct (IH (length (drop (S n) (x :: l)))) with (files := drop (S n) (x :: l))
      as (Hconcat & Hsizes & Hfull); [| reflexivity |].
    { rewrite length_drop. simpl in *. lia. }
    split; [| split].
    + change (concat (?b :: ?bs)) with (b ++ concat bs).
      rewrite Hconcat. apply take_drop.
    + constructor; [| assumption].
      rewrite length_take. simpl. lia.
    + intros [| i] batch Hlookup Hnext; simpl in Hlookup.
      * injection Hlookup as <-.
        change (length (x :: take n l)) with (S (length (take n l))).
        rewrite length_take.
        destruct (drop (S n) (x :: l)) as [| y rest] eqn:Hdrop.
        { rewrite batches_equation_2 in Hnext. simpl in Hnext. lia. }
        assert (Hrest : (length (drop n l) <> 0)%nat)
          by (change (drop n l) with (drop (S n) (x :: l)); rewrite Hdrop; discriminate).
        rewrite length_drop in Hrest. lia.
      * apply (Hfull i); [assumption |]. cbn [length] in Hnext. lia.
Qed.

Section EnumerateFacts.

Context {R T : Type} {D : Dumper R} {TT : Terminal R T}.

Abbreviation World := (World R T).

Implicit Types (w : World) (acc : gmap string Z * Z) (rels batch : list string)
  (sts : list StatDict).

Lemma observations_app evs1 evs2 :
  observations (evs1 ++ evs2) = observations evs1 ++ observations evs2.
Proof. unfold observations. rewrite map_app, concat_app. reflexivity. Qed.

Lemma observations_stat_events bundle_path rels : forall sts,
  length sts = length rels ->
  observations (stat_events bundle_path rels sts)
  = zip (map (Posix.slash bundle_path) rels) sts.
Proof.
  induction rels as [| rel rels IH]; intros [| st sts] Hlen; try discriminate;
    [reflexivity |].
  simpl in *. unfold observations in *. simpl. f_equal. apply IH. lia.
Qed.

Lemma stat_paths_inv paths w r w' :
  stat_paths paths w = (r, w') ->
  exists e, exports_statpaths paths (env w) = (r, e)
            /\ w' = emit (EvStatPaths paths r) (set_env e w).
Proof. apply call_inv. Qed.

(** The loop of individual stats that returns has made one call per path,
    in order, and recorded their answers. *)
Lemma stat_each_spec bundle_path batch : forall acc w acc' w',
  stat_each bundle_path batch acc w = (inr acc', w') ->
  exists sts,
    length sts = length batch
    /\ trace w' = trace w ++ stat_events bundle_path batch sts
    /\ acc' = record_all batch sts acc
    /\ logs w' = logs w.
Proof.
  induction batch as [| rel batch IH]; intros acc w acc' w' Hrun.
  - injection Hrun as <- <-. exists []. rewrite app_nil_r. done.
  - simpl in Hrun. unfold bind in Hrun.
    destruct (stat_path (Posix.slash bundle_path rel) w) as [[e | st] w1] eqn:Hstat;
      [discriminate |].
    apply stat_path_inv in Hstat as (e & _ & ->).
    apply IH in Hrun as (sts & Hlen & Htrace & Hacc & Hlogs).
    exists (st :: sts). simpl in *.
    split; [lia |].
    split; [rewrite Htrace, <- app_assoc; reflexivity |].
    split; assumption.
Qed.


Lemma stat_batch_fallback_eq bundle_path batch acc w e e1 :
  exports_statpaths (map (Posix.slash bundle_path) batch) (env w) = (inl e, e1) ->
  stat_batch bundle_path batch acc w
  = stat_each bundle_path batch acc
      (add_log (DebugBatchStatFailed e)
         (emit (EvStatPaths (map (Posix.slash bundle_path) batch) (inl e)) (set_env e1 w))).
Proof.
  intros Hraise.
  unfold stat_batch, try_except, bind, stat_paths, call. rewrite Hraise. reflexivity.
Qed.

Lemma stat_batch_success_eq bundle_path batch acc w stats e1 :
  exports_statpaths (map (Posix.slash bundle_path) batch) (env w) = (inr stats, e1) ->
  stat_batch bundle_path batch acc w
  = (inr (record_batch bundle_path batch stats acc),
     emit (EvStatPaths (map (Posix.slash bundle_path) batch) (inr stats)) (set_env e1 w)).
Proof.
  intros Hret.
  unfold stat_batch, try_except, bind, stat_paths, call. rewrite Hret. reflexivity.
Qed.

(** A batch that is done, by the batched stat or by the individual ones,
    has read one stat answer per path of the batch, in order, and recorded
    them. *)
Lemma stat_batch_spec bundle_path batch acc w acc' w' :
  stat_batch bundle_path batch acc w = (inr acc', w') ->
  exists evs sts,
    trace w' = trace w ++ evs
    /\ length sts = length batch
    /\ observations evs = zip (map (Posix.slash bundle_path) batch) sts
    /\ acc' = record_all batch sts acc.
Proof.
  destruct (exports_statpaths (map (Posix.slash bundle_path) batch) (env w))
    as [[e | stats] e1] eqn:Hcall.
  - rewrite (stat_batch_fallback_eq _ _ _ _ _ _ Hcall). intros Hrun.
    apply stat_each_spec in Hrun as (sts & Hlen & Htrace & Hacc & _).
    exists (EvStatPaths (map (Posix.slash bundle_path) batch) (inl e)
              :: stat_events bundle_path batch sts), sts.
    split; [rewrite Htrace; simpl; rewrite <- app_assoc; reflexivity |].
    split; [assumption |].
    split; [| assumption].
    change (observations (?x :: ?l)) with (observations_of x ++ observations l).
    simpl. apply observations_stat_events. assumption.
  - rewrite (stat_batch_success_eq _ _ _ _ _ _ Hcall). intros [= <- <-].
    exists [EvStatPaths (map (Posix.slash bundle_path) batch) (inr stats)],
           (map (fun rel => default empty_stat (stats !! Posix.slash bundle_path rel)) batch).
    split; [reflexivity |].
    split; [apply length_map |].
    split; [| apply record_batch_all].
    unfold observations. simpl. rewrite app_nil_r.
    clear. induction batch as [| rel batch IH]; [reflexivity |].
    simpl. f_equal. apply IH.
Qed.

Lemma zip_app_same {A B} (l1 l2 : list A) (k1 k2 : list B) :
  length l1 = length k1 -> zip (l1 ++ l2) (k1 ++ k2) = zip l1 k1 ++ zip l2 k2.
Proof.
  revert k1. induction l1 as [| x l1 IH]; intros [| y k1] Hlen; try discriminate;
    [reflexivity |].
  simpl. f_equal. apply IH. simpl in Hlen. lia.
Qed.

Lemma stat_batches_spec bundle_path bs : forall acc w acc' w',
  stat_batches bundle_path bs acc w = (inr acc', w') ->
  exists evs sts,
    trace w' = trace w ++ evs
    /\ length sts = length (concat bs)
    /\ observations evs = zip (map (Posix.slash bundle_path) (concat bs)) sts
    /\ acc' = record_all (concat bs) sts acc.
Proof.
  induction bs as [| batch bs IH]; intros acc w acc' w' Hrun.
  - injection Hrun as <- <-. exists [], []. rewrite app_nil_r. done.
  - simpl in Hrun. unfold bind in Hrun.
    destruct (stat_batch bundle_path batch acc w) as [[e | acc1] w1] eqn:Hbatch;
      [discriminate |].
    apply stat_batch_spec in Hbatch as (evs1 & sts1 & Htrace1 & Hlen1 & Hobs1 & ->).
    apply IH in Hrun as (evs2 & sts2 & Htrace2 & Hlen2 & Hobs2 & ->).
    exists (evs1 ++ evs2), (sts1 ++ sts2). simpl concat.
    split; [rewrite Htrace2, Htrace1, app_assoc; reflexivity |].
    split; [rewrite !length_app; lia |].
    split.
    + rewrite observations_app, Hobs1, Hobs2, map_app.
      symmetry. apply zip_app_same. rewrite length_map. lia.
    + symmetry. apply record_all_app. assumption.
Qed.



(** An enumeration that returns has listed the bundle, returns the two
    lists of the listing as they came (absent ones as empty lists), and has
    recorded one stat answer per path of the file list it went through:
    the whole list, or none of it when the batch size is negative. *)
Lemma enumerate_spec bundle_path config w dirs files sizes total w' :
  enumerate_bundle_files bundle_path config w = (inr (dirs, files, sizes, total), w') ->
  exists listing e evs sts walked,
    exports_listfiles bundle_path (env w) = (inr listing, e)
    /\ dirs = default [] (l_dirs listing)
    /\ files = default [] (l_files listing)
    /\ trace w' = trace w ++ EvListFiles bundle_path (inr listing) :: evs
    /\ (walked = files \/ walked = [])
    /\ length sts = length walked
    /\ observations evs = zip (map (Posix.slash bundle_path) walked) sts
    /\ (sizes, total) = record_all walked sts (∅, 0).
Proof.
  unfold enumerate_bundle_files, bind at 1, list_files.
  destruct (call (exports_listfiles bundle_path) (EvListFiles bundle_path) w)
    as [[ex | listing] w1] eqn:Hlist; [discriminate |].
  apply call_inv in Hlist as (e & Hlist & ->).
  set (cfg := default default_config config).
  set (fl := default [] (l_files listing)).
  set (w1 := emit _ _).
  unfold bind, ret.
  destruct (has_stat_paths && negb (bool_decide (fl = []))).
  - destruct (batch_stat_size cfg =? 0); [discriminate |].
    destruct (stat_batches bundle_path (batches (Z.to_nat (batch_stat_size cfg)) fl) (∅, 0) w1)
      as [[ex | acc] w2] eqn:Hrun; [discriminate |].
    intros [= <- <- <- <- <-].
    apply stat_batches_spec in Hrun as (evs & sts & Htrace & Hlen & Hobs & Hacc).
    exists listing, e, evs, sts, (concat (batches (Z.to_nat (batch_stat_size cfg)) fl)).
    split; [assumption |]. split; [reflexivity |]. split; [reflexivity |].
    split; [rewrite Htrace; subst w1; simpl; rewrite <- app_assoc; reflexivity |].
    split.
    { destruct (Z.to_nat (batch_stat_size cfg)) as [| n] eqn:Hn.
      - right. rewrite batches_equation_1. reflexivity.
      - left. eapply batches_partition; [lia | reflexivity]. }
    split; [assumption |]. split; [assumption |].
    rewrite <- Hacc. symmetry. apply surjective_pairing.
  - destruct (stat_each bundle_path fl (∅, 0) w1) as [[ex | acc] w2] eqn:Hrun;
      [discriminate |].
    intros [= <- <- <- <- <-].
    apply stat_each_spec in Hrun as (sts & Hlen & Htrace & Hacc & _).
    exists listing, e, (stat_events bundle_path fl sts), sts, fl.
    split; [assumption |]. split; [reflexivity |]. split; [reflexivity |].
    split; [rewrite Htrace; subst w1; simpl; rewrite <- app_assoc; reflexivity |].
    split; [left; reflexivity |].
    split; [assumption |].
    split; [apply observations_stat_events; assumption |].
    rewrite <- Hacc. symmetry. apply surjective_pairing.
Qed.



End EnumerateFacts.

Module EnumerateExamples.
Import Sim.



End EnumerateExamples.

(* ===================================================================== *)
(** * Properties of the tree download *)
(* ===================================================================== *)

Section SortFacts.

Implicit Types (x a b : string) (l dirs : list string).

Lemma insert_by_len_perm x l : insert_by_len x l ≡ₚ x :: l.
Proof.
  induction l as [| y l IH]; simpl; [reflexivity |].
  destruct (String.length x <=? String.length y)%nat; [reflexivity |].
  rewrite IH. apply Permutation_swap.
Qed.

Lemma sorted_by_len_perm dirs : sorted_by_len dirs ≡ₚ dirs.
Proof.
  induction dirs as [| x dirs IH]; simpl; [reflexivity |].
  rewrite insert_by_len_perm, IH. reflexivity.
Qed.

Lemma insert_by_len_sorted x l :
  StronglySorted len_le l -> StronglySorted len_le (insert_by_len x l).
Proof.
  induction 1 as [| y l Hsorted IH Hall]; simpl.
  - repeat constructor.
  - destruct (Nat.leb_spec (String.length x) (String.length y)) as [Hle | Hgt].
    + constructor; [constructor; assumption |].
      constructor; [exact Hle |].
      eapply Forall_impl; [exact Hall |].
      intros z Hz. unfold len_le in *. lia.
    + constructor; [assumption |].
      rewrite insert_by_len_perm. constructor; [| assumption].
      unfold len_le. lia.
Qed.

Lemma sorted_by_len_sorted dirs : StronglySorted len_le (sorted_by_len dirs).
Proof.
  induction dirs as [| x dirs IH]; simpl; [constructor |].
  apply insert_by_len_sorted. assumption.
Qed.

(** The sort is stable: the paths of one length keep their order. *)
Lemma insert_by_len_stable (n : nat) x l :
  filter (fun y => String.length y = n) (insert_by_len x l)
  = filter (fun y => String.length y = n) (x :: l).
Proof.
  induction l as [| y l IH]; simpl; [reflexivity |].
  destruct (Nat.leb_spec (String.length x) (String.length y)) as [Hle | Hgt];
    [reflexivity |].
  rewrite (filter_cons _ y), IH, !filter_cons.
  destruct (decide (String.length y = n)), (decide (String.length x = n));
    try reflexivity; lia.
Qed.

Lemma sorted_by_len_stable (n : nat) dirs :
  filter (fun y => String.length y = n) (sorted_by_len dirs)
  = filter (fun y => String.length y = n) dirs.
Proof.
  induction dirs as [| x dirs IH]; simpl; [reflexivity |].
  rewrite insert_by_len_stable, !filter_cons, IH. reflexivity.
Qed.

Lemma length_append a b :
  String.length (a +:+ b) = (String.length a + String.length b)%nat.
Proof. induction a as [| c a IH]; simpl; [reflexivity | rewrite IH; reflexivity]. Qed.

Lemma ancestor_shorter a b :
  Posix.ancestor a b -> (String.length a < String.length b)%nat.
Proof. intros [rest ->]. rewrite !length_append. simpl. lia. Qed.

(** In the sorted list an ancestor stands before each of its descendants. *)
Lemma ancestor_first dirs a b l1 l2 :
  a ∈ dirs -> Posix.ancestor a b ->
  sorted_by_len dirs = l1 ++ b :: l2 ->
  a ∈ l1.
Proof.
  intros Hin Hanc Hsplit.
  pose proof (ancestor_shorter _ _ Hanc) as Hlt.
  pose proof (sorted_by_len_sorted dirs) as Hsorted.
  rewrite <- (sorted_by_len_perm dirs), Hsplit in Hin. rewrite Hsplit in Hsorted.
  apply elem_of_app in Hin as [Hin | Hin]; [assumption |].
  apply elem_of_cons in Hin as [-> | Hin]; [lia |].
  apply StronglySorted_app_1_r, StronglySorted_cons in Hsorted as [Hall _].
  rewrite Forall_forall in Hall. specialize (Hall _ Hin). unfold len_le in Hall. lia.
Qed.

End SortFacts.

Section TraceFacts.

Context {R T : Type}.

Abbreviation World := (World R T).

Implicit Types (w : World) (P : event -> Prop).

Lemma extends_refl P w : extends P w w.
Proof. exists []. rewrite app_nil_r. split; [reflexivity | constructor]. Qed.

Lemma extends_trans P w1 w2 w3 : extends P w1 w2 -> extends P w2 w3 -> extends P w1 w3.
Proof.
  intros (evs1 & H1 & HP1) (evs2 & H2 & HP2).
  exists (evs1 ++ evs2). rewrite H2, H1, app_assoc.
  split; [reflexivity | apply Forall_app; split; assumption].
Qed.

Lemma extends_weaken (P Q : event -> Prop) w w' :
  (forall ev, P ev -> Q ev) -> extends P w w' -> extends Q w w'.
Proof.
  intros HPQ (evs & H & HP). exists evs. split; [assumption |].
  eapply Forall_impl; eassumption.
Qed.

Lemma extends_same_trace P w w' : trace w' = trace w -> extends P w w'.
Proof. intros H. exists []. rewrite app_nil_r. split; [assumption | constructor]. Qed.

Lemma extends_call {A} P (op : R -> (Exception + A) * R) ev w r w' :
  (forall r, P (ev r)) -> call op ev w = (r, w') -> extends P w w'.
Proof.
  intros HP Hcall. apply call_inv in Hcall as (e & _ & ->).
  exists [ev r]. split; [reflexivity | repeat constructor; apply HP].
Qed.

Lemma extends_bind {E A B} P (c : M World E A) (k : A -> M World E B) w r w' :
  (forall w r w', c w = (r, w') -> extends P w w') ->
  (forall a w r w', k a w = (r, w') -> extends P w w') ->
  bind c k w = (r, w') -> extends P w w'.
Proof.
  intros Hc Hk. unfold bind.
  destruct (c w) as [[e | a] w1] eqn:Hrun.
  - intros [= <- <-]. eapply Hc; eassumption.
  - intros Hrest. eapply extends_trans; [eapply Hc | eapply Hk]; eassumption.
Qed.

Lemma extends_try_except {E A} P (c : M World E A) handles (h : E -> M World E A) w r w' :
  (forall w r w', c w = (r, w') -> extends P w w') ->
  (forall e w r w', h e w = (r, w') -> extends P w w') ->
  try_except c handles h w = (r, w') -> extends P w w'.
Proof.
  intros Hc Hh. unfold try_except.
  destruct (c w) as [[e | a] w1] eqn:Hrun.
  - destruct (handles e).
    + intros Hrest. eapply extends_trans; [eapply Hc | eapply Hh]; eassumption.
    + intros [= <- <-]. eapply Hc; eassumption.
  - intros [= <- <-]. eapply Hc; eassumption.
Qed.

Lemma extends_for_each {E A} P (xs : list A) (body : A -> M World E unit) :
  (forall x w r w', body x w = (r, w') -> extends P w w') ->
  forall w r w', for_each xs body w = (r, w') -> extends P w w'.
Proof.
  intros Hbody. induction xs as [| x xs IH]; intros w r w'; simpl.
  - intros [= <- <-]. apply extends_refl.
  - apply extends_bind; [apply Hbody | intros _; apply IH].
Qed.

Lemma extends_log {E} P (record : log_record) w (r : E + unit) w' :
  log record w = (r, w') -> extends P w w'.
Proof. intros [= <- <-]. apply extends_same_trace. reflexivity. Qed.

Lemma extends_ret {E A} P (a : A) w (r : E + A) w' : ret a w = (r, w') -> extends P w w'.
Proof. intros [= <- <-]. apply extends_refl. Qed.

Lemma extends_raise {E A} P (e : E) w (r : E + A) w' : raise e w = (r, w') -> extends P w w'.
Proof. intros [= <- <-]. apply extends_refl. Qed.

(** The loop that makes the listed directories. *)
Lemma makedirs_loop (local_dir : string) (rels : list string) : forall w,
  for_each rels (fun rel => makedirs (Posix.join local_dir rel)) w
  = (inr tt,
     mkWorld (env w) (fs w)
       (trace w ++ map (fun rel => EvMakedirs (Posix.join local_dir rel)) rels)
       (logs w) (bars w) (stdout w) (dumper w)).
Proof.
  induction rels as [| rel rels IH]; intros w; simpl.
  - rewrite app_nil_r. destruct w; reflexivity.
  - unfold bind, makedirs, modify. rewrite IH. simpl.
    rewrite <- app_assoc. reflexivity.
Qed.

Lemma makedirs_all (local_dir : string) (dirs : list string) w :
  bind (makedirs local_dir)
    (fun _ => for_each (sorted_by_len dirs) (fun rel => makedirs (Posix.join local_dir rel))) w
  = (inr tt, with_dirs local_dir dirs w).
Proof.
  unfold bind, makedirs at 1, modify. rewrite makedirs_loop. simpl.
  unfold with_dirs, makedirs_events. rewrite <- app_assoc. reflexivity.
Qed.

End TraceFacts.

Section BundleFacts.

Context {R T : Type} {D : Dumper R} {TT : Terminal R T}.

Abbreviation World := (World R T).

Implicit Types (w : World) (config : TransferConfig) (sizes : gmap string Z)
  (progress : option nat) (files dirs : list string).

(** ** The enumeration makes no transfer *)

Lemma stat_each_extends bundle_path batch : forall acc w r w',
  stat_each bundle_path batch acc w = (r, w') -> extends no_transfer w w'.
Proof.
  induction batch as [| rel batch IH]; intros acc w r w'; simpl.
  - apply extends_ret.
  - apply extends_bind.
    + intros w0 r0 w0'. apply extends_call. reflexivity.
    + intros st. apply IH.
Qed.

Lemma stat_batch_extends bundle_path batch acc w r w' :
  stat_batch bundle_path batch acc w = (r, w') -> extends no_transfer w w'.
Proof.
  apply extends_try_except.
  - intros w0 r0 w0'. apply extends_bind.
    + intros w1 r1 w1'. apply extends_call. reflexivity.
    + intros stats w1 r1 w1'. apply extends_ret.
  - intros e w0 r0 w0'. apply extends_bind.
    + intros w1 r1 w1'. apply extends_log.
    + intros _. apply stat_each_extends.
Qed.

Lemma stat_batches_extends bundle_path bs : forall acc w r w',
  stat_batches bundle_path bs acc w = (r, w') -> extends no_transfer w w'.
Proof.
  induction bs as [| batch bs IH]; intros acc w r w'; simpl.
  - apply extends_ret.
  - apply extends_bind.
    + intros w0 r0 w0'. apply stat_batch_extends.
    + intros acc'. apply IH.
Qed.

Lemma enumerate_extends bundle_path (config : option TransferConfig) w r w' :
  enumerate_bundle_files bundle_path config w = (r, w') -> extends no_transfer w w'.
Proof.
  apply extends_bind.
  - intros w0 r0 w0'. apply extends_call. reflexivity.
  - intros listing w0 r0 w0'. apply extends_bind.
    + intros w1 r1 w1'.
      destruct (has_stat_paths && negb (bool_decide (default [] (l_files listing) = []))).
      * destruct (batch_stat_size (default default_config config) =? 0).
        -- apply extends_raise.
        -- apply stat_batches_extends.
      * apply stat_each_extends.
    + intros acc w1 r1 w1'. apply extends_ret.
Qed.

(** ** The file transfers only add to the trace *)

Lemma pull_file_logs remote_path local_path chunk_size (size : option Z) progress w r w' :
  pull_file_via_frida remote_path local_path chunk_size size progress w = (r, w') ->
  logs w' = logs w /\ extends any_event w w'.
Proof.
  assert (Hknown : forall size0 w0,
    pull_file_via_frida remote_path local_path chunk_size (Some size0) progress w0 = (r, w') ->
    logs w' = logs w0 /\ extends any_event w0 w').
  { intros size0 w0 Hrun.
    apply pull_file_known_size in Hrun as (evs & o & Htrace & _ & _ & _ & Hlogs & _).
    split; [assumption |].
    exists (prelude local_path ++ evs). split; [assumption |].
    apply Forall_forall. intros; exact I. }
  destruct size as [size |]; [apply Hknown |].
  rewrite pull_file_unknown_size.
  destruct (stat_path remote_path w) as [[e | stat] w1] eqn:Hstat.
  - intros [= <- <-]. apply stat_path_inv in Hstat as (e' & _ & ->).
    split; [reflexivity |]. exists [EvStatPath remote_path (inl e)]. repeat constructor.
  - apply stat_path_inv in Hstat as (e' & _ & Hw1).
    assert (Hstep : logs w1 = logs w /\ extends any_event w w1).
    { subst w1. split; [reflexivity |].
      exists [EvStatPath remote_path (inr stat)]. repeat constructor. }
    destruct Hstep as [Hlogs1 Hext1].
    destruct (negb (truthy (st_exists stat))); [intros [= <- <-]; auto |].
    destruct (truthy (st_isDir stat)); [intros [= <- <-]; auto |].
    intros Hrun. apply Hknown in Hrun as [Hlogs Hext].
    split; [congruence | eapply extends_trans; eassumption].
Qed.

(** ** The pool *)

Lemma completion_order_perm (sched : nat -> nat) (workers : nat) :
  (0 < workers)%nat ->
  forall (n step : nat) (pending : list string),
    length pending = n ->
    completion_order sched workers step n pending ≡ₚ pending.
Proof.
  intros Hworkers. induction n as [| n IH]; intros step pending Hlen.
  - destruct pending; [reflexivity | discriminate].
  - simpl.
    assert (Hlt : (sched step mod Nat.min workers (length pending) < length pending)%nat).
    { pose proof (Nat.mod_upper_bound (sched step) (Nat.min workers (length pending))).
      lia. }
    destruct (lookup_lt_is_Some_2 _ _ Hlt) as [rel Hrel].
    rewrite Hrel.
    etransitivity; [| symmetry; apply (delete_Permutation pending _ rel Hrel)].
    constructor. apply IH.
    rewrite length_delete by eauto. lia.
Qed.

(** The loop over the completed calls: every call of the order is made
    and ends by itself, whatever the ends of the others, the failures are
    logged, and the loop returns. *)
Lemma pool_runs_all bundle_path local_dir sizes config progress (order : list string) :
  forall w,
  exists results w',
    for_each order
      (fun rel =>
         bind (download_file bundle_path local_dir sizes config progress rel)
           (fun '(rel, success, error) =>
              match success, error with
              | false, Some error => log (WarningFailedToDownload rel error)
              | _, _ => ret tt
              end)) w
    = (inr tt, w')
    /\ map fst results = order
    /\ units_run bundle_path local_dir sizes config progress results w w'.
Proof.
  induction order as [| rel order IH]; intros w.
  - exists [], w. repeat split. constructor.
  - simpl. unfold bind at 1 2. unfold download_file, try_except, bind at 1.
    destruct (pull_file_via_frida (Posix.slash bundle_path rel) (Posix.join local_dir rel)
                (chunk_size config) (sizes !! rel) progress w) as [[e | []] w1] eqn:Hpull.
    + simpl.
      destruct (IH (add_log (WarningFailedToDownload rel e) w1))
        as (results & w' & Hrun & Horder & Hunits).
      exists ((rel, inl e) :: results), w'.
      split; [exact Hrun |]. split; [simpl; congruence |].
      econstructor; eassumption.
    + simpl.
      destruct (IH w1) as (results & w' & Hrun & Horder & Hunits).
      exists ((rel, inr tt) :: results), w'.
      split; [exact Hrun |]. split; [simpl; congruence |].
      econstructor; eassumption.
Qed.

Lemma units_run_logs bundle_path local_dir sizes config progress results w w' :
  units_run bundle_path local_dir sizes config progress results w w' ->
  logs w' = logs w ++ warnings_of results /\ extends any_event w w'.
Proof.
  induction 1 as [w | rel r rest w w1 w2 Hpull Hrest [IHlogs IHext]].
  - rewrite app_nil_r. split; [reflexivity | apply extends_refl].
  - apply pull_file_logs in Hpull as [Hlogs Hext].
    split.
    + rewrite IHlogs. unfold warnings_of. simpl. unfold warning_of at 2. simpl.
      destruct r as [e | u]; simpl; rewrite Hlogs, <- ?app_assoc; reflexivity.
    + eapply extends_trans; [exact Hext |].
      eapply extends_trans; [| exact IHext].
      destruct r; [apply extends_same_trace; reflexivity | apply extends_refl].
Qed.

(** ** pull_bundle_via_frida, case by case *)

Lemma pull_bundle_listed sched bundle_path local_dir (config : option TransferConfig)
    files dirs sizes progress w :
  pull_bundle_via_frida sched bundle_path local_dir config (Some files) (Some dirs)
    (Some sizes) progress w
  = let cfg := default default_config config in
    let valid_files := filter (fun rel => is_Some (sizes !! rel)) files in
    if (1 <? max_workers cfg) && (1 <? Z.of_nat (length valid_files))
    then _pull_files_parallel sched bundle_path local_dir valid_files sizes cfg progress
           (with_dirs local_dir dirs w)
    else
      for_each valid_files
        (fun rel =>
           pull_file_via_frida (Posix.slash bundle_path rel) (Posix.join local_dir rel)
             (chunk_size cfg) (sizes !! rel) progress)
        (with_dirs local_dir dirs w).
Proof.
  unfold pull_bundle_via_frida. unfold bind at 1. unfold ret at 1.
  cbv beta iota zeta.
  match goal with
  | |- bind ?c (fun _ => bind ?d (fun _ => ?k)) w = _ =>
      transitivity (bind (bind c (fun _ => d)) (fun _ => k) w);
        [unfold bind; destruct (c w) as [[? | ?] ?]; reflexivity |]
  end.
  unfold bind at 1. rewrite makedirs_all.
  destruct (_ && _); reflexivity.
Qed.

Lemma pull_bundle_unlisted sched bundle_path local_dir (config : option TransferConfig)
    (files dirs : option (list string)) (sizes : option (gmap string Z)) progress w :
  match files, dirs, sizes with Some _, Some _, Some _ => False | _, _, _ => True end ->
  pull_bundle_via_frida sched bundle_path local_dir config files dirs sizes progress w
  = match enumerate_bundle_files bundle_path (Some (default default_config config)) w with
    | (inl e, w1) => (inl e, w1)
    | (inr (dirs, files, sizes, _), w1) =>
        pull_bundle_via_frida sched bundle_path local_dir config (Some files) (Some dirs)
          (Some sizes) progress w1
    end.
Proof.
  intros Hunlisted.
  assert (Hstep : pull_bundle_via_frida sched bundle_path local_dir config
                    files dirs sizes progress w
                  = bind (enumerate_bundle_files bundle_path
                            (Some (default default_config config)))
                      (fun '(dirs, files, sizes, _) =>
                         pull_bundle_via_frida sched bundle_path local_dir config
                           (Some files) (Some dirs) (Some sizes) progress) w).
  { unfold pull_bundle_via_frida.
    destruct files as [files |], dirs as [dirs |], sizes as [sizes |];
      try contradiction;
      unfold bind, ret;
      destruct (enumerate_bundle_files bundle_path (Some (default default_config config)) w)
        as [[e | [[[d f] s] t]] w1]; reflexivity. }
  rewrite Hstep. unfold bind.
  destruct (enumerate_bundle_files bundle_path (Some (default default_config config)) w)
    as [[e | [[[d f] s] t]] w1]; reflexivity.
Qed.

Lemma pull_files_parallel_spec sched bundle_path local_dir files sizes config progress w :
  0 < max_workers config ->
  exists results w',
    _pull_files_parallel sched bundle_path local_dir files sizes config progress w
    = (inr tt, w')
    /\ map fst results ≡ₚ files
    /\ units_run bundle_path local_dir sizes config progress results w w'.
Proof.
  intros Hworkers. unfold _pull_files_parallel.
  destruct (Z.leb_spec (max_workers config) 0); [lia |].
  destruct (pool_runs_all bundle_path local_dir sizes config progress
              (completion_order sched (Z.to_nat (max_workers config)) 0 (length files) files)
              w) as (results & w' & Hrun & Horder & Hunits).
  exists results, w'.
  split; [exact Hrun |]. split; [| assumption].
  rewrite Horder. apply completion_order_perm; [lia | reflexivity].
Qed.

Lemma pull_files_parallel_extends sched bundle_path local_dir files sizes config progress
    w r w' :
  _pull_files_parallel sched bundle_path local_dir files sizes config progress w = (r, w') ->
  extends any_event w w'.
Proof.
  destruct (Z.leb_spec (max_workers config) 0) as [Hle | Hgt].
  - unfold _pull_files_parallel.
    destruct (Z.leb_spec (max_workers config) 0); [| lia].
    apply extends_raise.
  - destruct (pull_files_parallel_spec sched bundle_path local_dir files sizes config
                progress w Hgt) as (results & w'' & -> & _ & Hunits).
    intros [= <- <-]. eapply units_run_logs. eassumption.
Qed.

Lemma pull_bundle_dirs_first sched bundle_path local_dir (config : option TransferConfig)
    (files dirs : option (list string)) (sizes : option (gmap string Z)) progress w r w' :
  pull_bundle_via_frida sched bundle_path local_dir config files dirs sizes progress w
  = (r, w') ->
  exists evs,
    trace w' = trace w ++ evs
    /\ ((exists e, r = inl e) /\ Forall no_transfer evs
        \/ exists dirs',
             listed_dirs bundle_path files dirs sizes w dirs'
             /\ dirs_before_transfers local_dir dirs' evs).
Proof.
  assert (Hlisted : forall files0 dirs0 sizes0 w0,
    pull_bundle_via_frida sched bundle_path local_dir config (Some files0) (Some dirs0)
      (Some sizes0) progress w0 = (r, w') ->
    exists post,
      trace w' = trace w0 ++ EvMakedirs local_dir :: makedirs_events local_dir dirs0 ++ post).
  { intros files0 dirs0 sizes0 w0. rewrite pull_bundle_listed. cbv zeta.
    intros Hrun.
    assert (Hext : extends any_event (with_dirs local_dir dirs0 w0) w').
    { revert Hrun. destruct (_ && _).
      - apply pull_files_parallel_extends.
      - apply extends_for_each.
        intros rel w1 r1 w1' Hpull. eapply pull_file_logs. eassumption. }
    destruct Hext as (post & Htrace & _). exists post.
    rewrite Htrace. simpl. rewrite <- app_assoc. reflexivity. }
  destruct files as [files |], dirs as [dirs |], sizes as [sizes |];
    [intros Hrun; destruct (Hlisted _ _ _ _ Hrun) as (post & Htrace); eexists;
     split; [exact Htrace |]; right; exists dirs; split; [reflexivity |];
     exists [], post; split; [reflexivity | constructor]
    | ..].
  all: rewrite pull_bundle_unlisted by exact I.
  all: destruct (enumerate_bundle_files bundle_path (Some (default default_config config)) w)
         as [[e | [[[d f] s] t]] w1] eqn:Henum.
  all: pose proof (enumerate_extends _ _ _ _ _ Henum) as (pre & Hpre & Hno).
  all: try (intros [= <- <-]; exists pre; split; [assumption |]; left; eauto).
  all: intros Hrun; destruct (Hlisted _ _ _ _ Hrun) as (post & Htrace).
  all: apply enumerate_spec in Henum as (listing & e & _ & _ & _ & Hlist & Hd & _).
  all: exists (pre ++ EvMakedirs local_dir :: makedirs_events local_dir d ++ post).
  all: split; [rewrite Htrace, Hpre, <- app_assoc; reflexivity |].
  all: right; exists d; split; [exists listing, e; auto | exists pre, post; auto].
Qed.

(** C1 (amended). On the parallel path of [pull_bundle_via_frida] (more
    than one worker and more than one file with a size), whatever the thread
    scheduling: the call returns, and returns nothing (there is no failure
    list); it returns after every dispatched unit has been run to its own
    end, each unit exactly once; the failure of a unit is caught at the
    worker and logged as one warning, and changes nothing for the units that
    are still to run. *)
Theorem parallel_units_isolated (sched : nat -> nat) bundle_path local_dir config
    files dirs sizes progress w :
  1 < max_workers config ->
  (1 < length (filter (fun rel => is_Some (sizes !! rel)) files))%nat ->
  exists results w',
    pull_bundle_via_frida sched bundle_path local_dir (Some config) (Some files)
      (Some dirs) (Some sizes) progress w = (inr tt, w')
    /\ map fst results ≡ₚ filter (fun rel => is_Some (sizes !! rel)) files
    /\ units_run bundle_path local_dir sizes config progress results
         (with_dirs local_dir dirs w) w'
    /\ logs w' = logs w ++ warnings_of results.
Proof.
  intros Hworkers Hfiles.
  rewrite pull_bundle_listed. cbv zeta. simpl default.
  destruct (Z.ltb_spec 1 (max_workers config)); [| lia].
  destruct (Z.ltb_spec 1 (Z.of_nat (length (filter (fun rel => is_Some (sizes !! rel)) files))));
    [| lia].
  simpl andb. cbv iota.
  destruct (pull_files_parallel_spec sched bundle_path local_dir
              (filter (fun rel => is_Some (sizes !! rel)) files) sizes config progress
              (with_dirs local_dir dirs w)) as (results & w' & Hrun & Hperm & Hunits);
    [lia |].
  exists results, w'.
  split; [exact Hrun |]. split; [assumption |]. split; [assumption |].
  apply units_run_logs in Hunits as [Hlogs _]. exact Hlogs.
Qed.

End BundleFacts.

Module BundleExamples.
Import Sim.

(** C1, as stated, fails.  On the sequential path (one worker) the
    failure of the first unit leaves the call by an exception: nothing is
    logged, and the second unit is never started.  On the parallel path the
    failure of a unit is caught and logged, and the call returns the unit
    value: no failure list comes back on either path. *)
Lemma sequential_failure_aborts_siblings :
  fst sequential_download = inl (OtherException "read failed")
  /\ logs (snd sequential_download) = []
  /\ fs (snd sequential_download) !! "out/a/b/f2" = None
  /\ trace (snd sequential_download)
     = [EvMakedirs "out"; EvMakedirs "out/a"; EvMakedirs "out/a/b";
        EvMakedirs "out/a"; EvOpen "out/a/f1";
        EvReadFile "/app/a/f1" 0 5 (inl (OtherException "read failed"))]
  /\ fst (parallel_download (fun _ => 0%nat)) = inr tt
  /\ logs (snd (parallel_download (fun _ => 0%nat)))
     = [WarningFailedToDownload "a/f1" (OtherException "read failed")].
Proof. repeat split; vm_compute; reflexivity. Qed.

(** The parallel path on the same device, when the failing unit completes
    last: the call returns, the failure is logged, the other file has
    arrived. *)
Lemma parallel_units_isolated_witness :
  1 < max_workers default_config
  /\ (1 < length (filter (fun rel => is_Some (bundle_sizes !! rel)) bundle_files))%nat
  /\ fst (parallel_download (fun _ => 1%nat)) = inr tt
  /\ logs (snd (parallel_download (fun _ => 1%nat)))
     = [WarningFailedToDownload "a/f1" (OtherException "read failed")]
  /\ fs (snd (parallel_download (fun _ => 1%nat))) !! "out/a/b/f2" = Some f2
  /\ exists results,
       map fst results ≡ₚ bundle_files
       /\ logs (snd (parallel_download (fun _ => 1%nat))) = [] ++ warnings_of results.
Proof.
  assert (H1 : 1 < max_workers default_config) by (simpl; lia).
  assert (H2 : (1 < length (filter (fun rel => is_Some (bundle_sizes !! rel)) bundle_files))%nat)
    by (vm_compute; lia).
  split; [exact H1 |]. split; [exact H2 |].
  split; [vm_compute; reflexivity |].
  split; [vm_compute; reflexivity |].
  split; [vm_compute; reflexivity |].
  destruct (parallel_units_isolated (fun _ => 1%nat) "/app" "out" default_config
              bundle_files bundle_dirs bundle_sizes None (start read_fails None) H1 H2)
    as (results & w' & Hrun & Hperm & _ & Hlogs).
  exists results. split.
  - rewrite Hperm. vm_compute. reflexivity.
  - unfold parallel_download. rewrite Hrun. exact Hlogs.
Defined.

End BundleExamples.

Section SshFacts.

Context {R T : Type} {SF : Sftp R} {TT : Terminal R T}.

Abbreviation World := (World R T).

Implicit Types (w : World) (progress : option nat).

Lemma walk_entries_extends recurse remote_dir rel_base :
  (forall rd rb acc w r w', recurse rd rb acc w = (r, w') -> extends no_transfer w w') ->
  forall entries acc w r w',
    walk_entries recurse remote_dir rel_base entries acc w = (r, w') ->
    extends no_transfer w w'.
Proof.
  intros Hrec. induction entries as [| entry rest IH]; intros acc w r w'; simpl.
  - apply extends_ret.
  - destruct (is_dir entry).
    + apply extends_bind; [apply Hrec | intros acc'; apply IH].
    + apply IH.
Qed.

Lemma _walk_sftp_extends limit : forall remote_dir rel_base acc w r w',
  _walk_sftp limit remote_dir rel_base acc w = (r, w') -> extends no_transfer w w'.
Proof.
  induction limit as [| limit IH]; intros remote_dir rel_base acc w r w'; simpl.
  - apply extends_raise.
  - apply extends_bind.
    + intros w0 r0 w0'. apply extends_try_except.
      * intros w1 r1 w1'. apply extends_bind.
        -- intros w2 r2 w2'. apply extends_call. reflexivity.
        -- intros es w2 r2 w2'. apply extends_ret.
      * intros e w1 r1 w1'. apply extends_bind.
        -- intros w2 r2 w2'. apply extends_log.
        -- intros _ w2 r2 w2'. apply extends_ret.
    + intros [entries |] w0 r0 w0'.
      * apply walk_entries_extends. apply IH.
      * apply extends_ret.
Qed.

Lemma walk_extends limit remote_dir w r w' :
  walk limit remote_dir w = (r, w') -> extends no_transfer w w'.
Proof.
  apply extends_bind.
  - intros w0 r0 w0'. apply extends_call. reflexivity.
  - intros _. apply _walk_sftp_extends.
Qed.

Lemma run_callbacks_trace progress : forall transferred last w,
  trace (snd (run_callbacks progress last transferred w)) = trace w.
Proof.
  induction transferred as [| t rest IH]; intros last w; simpl; [reflexivity |].
  unfold bind.
  pose proof (progress_update_frame progress (t - last) w) as (Hres & _ & Htrace & _).
  destruct (progress_update progress (t - last) w) as [[e | []] w1]; simpl in *;
    [discriminate |].
  rewrite IH. assumption.
Qed.

Lemma _download_file_sftp_extends remote_path local_path progress w r w' :
  _download_file_sftp remote_path local_path progress w = (r, w') ->
  extends any_event w w'.
Proof.
  unfold _download_file_sftp.
  destruct (sftp_get remote_path local_path (env w)) as [o e].
  intros [= <- <-].
  exists [EvSftpGet remote_path local_path (got o)].
  split; [| repeat constructor].
  destruct progress; [rewrite run_callbacks_trace |]; destruct (stored o); reflexivity.
Qed.

Lemma download_dir_listed limit remote_dir local_dir files dirs progress w :
  download_dir limit remote_dir local_dir (Some files) (Some dirs) progress w
  = bind self_sftp
      (fun _ => for_each files
                  (fun f => _download_file_sftp (fst (fst f))
                              (Posix.join local_dir (snd (fst f))) progress))
      (with_dirs local_dir dirs w).
Proof.
  unfold download_dir. unfold bind at 1. unfold ret at 1. cbv beta iota zeta.
  match goal with
  | |- bind ?c (fun _ => bind ?d (fun _ => ?k)) w = _ =>
      transitivity (bind (bind c (fun _ => d)) (fun _ => k) w);
        [unfold bind; destruct (c w) as [[? | ?] ?]; reflexivity |]
  end.
  unfold bind at 1. rewrite makedirs_all. reflexivity.
Qed.

Lemma download_dir_dirs_first limit remote_dir local_dir
    (files : option (list (string * string * Z))) (dirs : option (list string))
    progress w r w' :
  download_dir limit remote_dir local_dir files dirs progress w = (r, w') ->
  exists evs,
    trace w' = trace w ++ evs
    /\ ((exists e, r = inl e) /\ Forall no_transfer evs
        \/ exists dirs',
             walked_dirs limit remote_dir files dirs w dirs'
             /\ dirs_before_transfers local_dir dirs' evs).
Proof.
  assert (Hlisted : forall files0 dirs0 w0,
    download_dir limit remote_dir local_dir (Some files0) (Some dirs0) progress w0 = (r, w') ->
    exists post,
      trace w' = trace w0 ++ EvMakedirs local_dir :: makedirs_events local_dir dirs0 ++ post).
  { intros files0 dirs0 w0. rewrite download_dir_listed. intros Hrun.
    assert (Hext : extends any_event (with_dirs local_dir dirs0 w0) w').
    { revert Hrun. apply extends_bind.
      - intros w1 r1 w1'. apply extends_call. exact (fun _ => I).
      - intros _. apply extends_for_each.
        intros f w1 r1 w1'. apply _download_file_sftp_extends. }
    destruct Hext as (post & Htrace & _). exists post.
    rewrite Htrace. simpl. rewrite <- app_assoc. reflexivity. }
  assert (Hunlisted :
    match files, dirs with Some _, Some _ => False | _, _ => True end ->
    download_dir limit remote_dir local_dir files dirs progress w
    = match walk limit remote_dir w with
      | (inl e, w1) => (inl e, w1)
      | (inr (files', dirs'), w1) =>
          download_dir limit remote_dir local_dir (Some files') (Some dirs') progress w1
      end).
  { intros Hno. unfold download_dir.
    destruct files as [files |], dirs as [dirs |]; try contradiction;
      unfold bind at 1; destruct (walk limit remote_dir w) as [[e | [f d]] w1];
      reflexivity. }
  destruct files as [files |], dirs as [dirs |];
    [intros Hrun; destruct (Hlisted _ _ _ Hrun) as (post & Htrace); eexists;
     split; [exact Htrace |]; right; exists dirs; split; [reflexivity |];
     exists [], post; split; [reflexivity | constructor]
    | ..].
  all: rewrite Hunlisted by exact I.
  all: destruct (walk limit remote_dir w) as [[e | [f d]] w1] eqn:Hwalk.
  all: pose proof (walk_extends _ _ _ _ _ Hwalk) as (pre & Hpre & Hno).
  all: try (intros [= <- <-]; exists pre; split; [assumption |]; left; eauto).
  all: intros Hrun; destruct (Hlisted _ _ _ Hrun) as (post & Htrace).
  all: exists (pre ++ EvMakedirs local_dir :: makedirs_events local_dir d ++ post).
  all: split; [rewrite Htrace, Hpre, <- app_assoc; reflexivity |].
  all: right; exists d; split; [exists f, w1; exact Hwalk | exists pre, post; auto].
Qed.

End SshFacts.

Section TreeDownload.

Context {R T : Type} {D : Dumper R} {TT : Terminal R T} {SF : Sftp R}.

(** C6. In a tree download over Frida ([pull_bundle_via_frida], under
    every thread scheduling) and over SSH ([SshClient.download_dir]), unless
    the listing of the remote tree failed and nothing was transferred at
    all, the trace reads: calls that transfer nothing, then the creation of
    the local root and of all the listed directories in the order of the
    sort by length, then the rest; so every listed directory is created
    before any file transfer begins.  The order of the sort is a
    rearrangement of the listed directories in which lengths never
    decrease, and in which a directory stands before each of its
    descendants. *)
Theorem directories_before_files
    (sched : nat -> nat) bundle_path local_dir (config : option TransferConfig)
    (files dirs : option (list string)) (sizes : option (gmap string Z))
    (progress : option nat) (w w' : World R T) (r : Exception + unit)
    (limit : nat) remote_dir local_dir_ssh
    (files_ssh : option (list (string * string * Z))) (dirs_ssh : option (list string))
    (progress_ssh : option nat) (ws ws' : World R T) (rs : Exception + unit) :
  pull_bundle_via_frida sched bundle_path local_dir config files dirs sizes progress w
    = (r, w') ->
  download_dir limit remote_dir local_dir_ssh files_ssh dirs_ssh progress_ssh ws
    = (rs, ws') ->
  (exists evs,
     trace w' = trace w ++ evs
     /\ ((exists e, r = inl e) /\ Forall no_transfer evs
         \/ exists dirs',
              listed_dirs bundle_path files dirs sizes w dirs'
              /\ dirs_before_transfers local_dir dirs' evs))
  /\ (exists evs,
        trace ws' = trace ws ++ evs
        /\ ((exists e, rs = inl e) /\ Forall no_transfer evs
            \/ exists dirs',
                 walked_dirs limit remote_dir files_ssh dirs_ssh ws dirs'
                 /\ dirs_before_transfers local_dir_ssh dirs' evs))
  /\ (forall listed : list string,
        sorted_by_len listed ≡ₚ listed
        /\ StronglySorted len_le (sorted_by_len listed)
        /\ forall a b l1 l2,
             a ∈ listed -> Posix.ancestor a b ->
             sorted_by_len listed = l1 ++ b :: l2 ->
             a ∈ l1).
Proof.
  intros Hfrida Hssh.
  split; [eapply pull_bundle_dirs_first; eassumption |].
  split; [eapply download_dir_dirs_first; eassumption |].
  intros listed.
  split; [apply sorted_by_len_perm |].
  split; [apply sorted_by_len_sorted |].
  intros a b l1 l2. apply ancestor_first.
Qed.

End TreeDownload.

Module TreeExamples.
Import Sim.

Lemma frida_tree_returns :
  pull_bundle_via_frida (fun _ => 1%nat) "/app" "out" None None None None None
    (start bundle None)
  = (inr tt, snd frida_tree).
Proof. vm_compute. reflexivity. Qed.

Lemma ssh_tree_returns :
  download_dir 1000 "/app" "out" (Some ssh_manifest) (Some bundle_dirs) None
    (start bundle None)
  = (inr tt, snd ssh_tree).
Proof. vm_compute. reflexivity. Qed.

(** The directories of the scenario are listed as [a/b], [a] and created
    as [a], [a/b], over Frida after the enumeration and over SSH at once,
    before the first file is opened or fetched. *)
Lemma tree_traces :
  sorted_by_len ["a/b"; "a"] = ["a"; "a/b"]
  /\ drop 2 (trace (snd frida_tree))
     = [EvMakedirs "out"; EvMakedirs "out/a"; EvMakedirs "out/a/b";
        EvMakedirs "out/a/b"; EvOpen "out/a/b/f2";
        EvReadFile "/app/a/b/f2" 0 3 (inr f2); EvWrite "out/a/b/f2" f2;
        EvMakedirs "out/a"; EvOpen "out/a/f1";
        EvReadFile "/app/a/f1" 0 5 (inr f1); EvWrite "out/a/f1" f1]
  /\ Forall no_transfer (take 2 (trace (snd frida_tree)))
  /\ trace (snd ssh_tree)
     = [EvMakedirs "out"; EvMakedirs "out/a"; EvMakedirs "out/a/b"; EvSftpSession (inr tt);
        EvSftpGet "/app/a/f1" "out/a/f1" (inr tt);
        EvSftpGet "/app/a/b/f2" "out/a/b/f2" (inr tt)].
Proof.
  split; [reflexivity |].
  split; [vm_compute; reflexivity |].
  split; [| vm_compute; reflexivity].
  vm_compute. repeat constructor.
Qed.

(** The theorem on the download of the bundle of the scenario, over Frida
    (enumerating, the second file completing first) and over SSH (with the
    manifest given). *)
Lemma directories_before_files_witness :
  pull_bundle_via_frida (fun _ => 1%nat) "/app" "out" None None None None None
    (start bundle None)
  = (inr tt, snd frida_tree)
  /\ download_dir 1000 "/app" "out" (Some ssh_manifest) (Some bundle_dirs) None
       (start bundle None)
     = (inr tt, snd ssh_tree)
  /\ (exists evs,
        trace (snd frida_tree) = trace (start bundle None) ++ evs
        /\ ((exists e, @inr Exception unit tt = inl e) /\ Forall no_transfer evs
            \/ exists dirs',
                 listed_dirs "/app" None None None (start bundle None) dirs'
                 /\ dirs_before_transfers "out" dirs' evs))
  /\ (forall a b l1 l2,
        a ∈ ["a/b"; "a"] -> Posix.ancestor a b ->
        sorted_by_len ["a/b"; "a"] = l1 ++ b :: l2 -> a ∈ l1).
Proof.
  split; [exact frida_tree_returns |].
  split; [exact ssh_tree_returns |].
  pose proof (directories_before_files (fun _ => 1%nat) "/app" "out" None None None None None
                (start bundle None) (snd frida_tree) (inr tt)
                1000 "/app" "out" (Some ssh_manifest) (Some bundle_dirs) None
                (start bundle None) (snd ssh_tree) (inr tt)
                frida_tree_returns ssh_tree_returns) as (Hfrida & _ & Hsort).
  split; [exact Hfrida |].
  exact (proj2 (proj2 (Hsort ["a/b"; "a"]))).
Defined.

End TreeExamples.

(* ===================================================================== *)
(** * Properties of the fallback controller *)
(* ===================================================================== *)

Section ControllerFacts.

Context {R T : Type} {D : Dumper R} {TT : Terminal R T} {SF : Sftp R} {DV : Device R}.

Abbreviation World := (World R T).

Implicit Types (w : World).

(** One attempt: whatever the attach or the loading of the agent raises
    leaves [attach] as it is, and the PID is recorded only on success. *)
Lemma attach_once target w :
  attach target 1 w
  = match bind (call (device_attach target) (EvAttach target))
            (fun _ => bind (set_session true) (fun _ => _load_agent)) w with
    | (inl exc, w1) => (inl exc, w1)
    | (inr _, w1) => set_pid (Some target) w1
    end.
Proof.
  unfold attach. unfold bind at 1. simpl _attach_with_retries.
  destruct (bind (call (device_attach target) (EvAttach target))
              (fun _ => bind (set_session true) (fun _ => _load_agent)) w)
    as [[exc | []] w1]; [| reflexivity].
  destruct (is_attach_timeout exc); reflexivity.
Qed.

(** The loop over the candidates settles on [select_candidate]'s process:
    with none it answers [False]; with one it logs the switch, detaches
    (errors ignored) and attaches to it in one attempt. *)
Lemma switch_loop_select (names : list string) (processes : list Process) w :
  switch_loop names processes w
  = match select_candidate names processes (_pid (dumper w)) with
    | None => (inr false, w)
    | Some (name_, proc) =>
        bind (log (InfoSwitching name_ (pid proc)))
          (fun _ => bind (try_except detach (fun _ => true) (fun _ => ret tt))
             (fun _ => bind (attach (pid proc) 1) (fun _ => ret true))) w
    end.
Proof.
  induction names as [| name_ rest IH]; [reflexivity |].
  simpl. unfold bind at 1, gets at 1.
  destruct (find (fun p => String.eqb (name p) name_) processes) as [proc |];
    [| exact IH].
  destruct (bool_decide (Some (pid proc) = _pid (dumper w))); simpl; [exact IH | reflexivity].
Qed.

(** When the attach to the selected process raises, the switch does not
    answer [False]: the error of the attach leaves
    [_switch_to_transfer_process] and [_handle_frida_error] as it is, and
    no [SystemExit] with the instruction is raised. *)
Lemma attach_failure_escapes (context : DownloadContext) (limit : nat)
    (retry : M World BaseException unit) (exc : Exception)
    (bundle_path local_bundle_dir remote_dump_path local_decrypted : string)
    w processes e0 name_ proc w1 err w2 :
  ctx_ssh context = false ->
  device_enumerate_processes (env w) = (inr processes, e0) ->
  select_candidate candidates processes (_pid (dumper w)) = Some (name_, proc) ->
  try_except detach (fun _ => true) (fun _ => ret tt)
    (add_log (InfoSwitching name_ (pid proc))
       (emit (EvEnumerateProcesses (inr processes))
          (set_env e0 (add_log (WarningSessionLost exc) w))))
  = (inr tt, w1) ->
  bind (call (device_attach (pid proc)) (EvAttach (pid proc)))
    (fun _ => bind (set_session true) (fun _ => _load_agent)) w1
  = (inl err, w2) ->
  _handle_frida_error context limit retry exc bundle_path local_bundle_dir
    remote_dump_path local_decrypted w
  = (inl (Exc err), w2).
Proof.
  intros Hssh Hprocs Hselect Hdetach Hattach.
  unfold _handle_frida_error. unfold bind at 1. unfold log at 1, modify at 1.
  rewrite Hssh. unfold bind at 1. unfold lift.
  unfold _switch_to_transfer_process. unfold bind at 1.
  unfold try_except at 1. unfold bind at 1. unfold call at 1.
  simpl env. rewrite Hprocs. unfold ret at 1.
  rewrite switch_loop_select. simpl dumper. rewrite Hselect.
  unfold bind at 1. unfold log at 1, modify at 1.
  unfold bind at 1. rewrite Hdetach.
  unfold bind at 1. rewrite attach_once, Hattach. reflexivity.
Qed.

(** With an SSH client the whole operation is done again over SSH. *)
Lemma ssh_fallback (context : DownloadContext) (limit : nat)
    (retry : M World BaseException unit) (exc : Exception)
    (bundle_path local_bundle_dir remote_dump_path local_decrypted : string) w :
  ctx_ssh context = true ->
  _handle_frida_error context limit retry exc bundle_path local_bundle_dir
    remote_dump_path local_decrypted w
  = lift (_download_via_ssh limit bundle_path local_bundle_dir remote_dump_path
            local_decrypted)
      (add_log InfoFallingBackToSsh (add_log (WarningSessionLost exc) w)).
Proof.
  intros Hssh. unfold _handle_frida_error. rewrite Hssh. reflexivity.
Qed.

(** Without SSH and without a candidate, the operation ends with the
    instruction, and the retry is not run. *)
Lemma no_candidate_exits (context : DownloadContext) (limit : nat)
    (retry : M World BaseException unit) (exc : Exception)
    (bundle_path local_bundle_dir remote_dump_path local_decrypted : string)
    w processes e0 :
  ctx_ssh context = false ->
  device_enumerate_processes (env w) = (inr processes, e0) ->
  select_candidate candidates processes (_pid (dumper w)) = None ->
  _handle_frida_error context limit retry exc bundle_path local_bundle_dir
    remote_dump_path local_decrypted w
  = (inl (SystemExit session_lost_message exc),
     emit (EvEnumerateProcesses (inr processes))
       (set_env e0 (add_log (WarningSessionLost exc) w))).
Proof.
  intros Hssh Hprocs Hselect.
  unfold _handle_frida_error. unfold bind at 1. unfold log at 1, modify at 1.
  rewrite Hssh. unfold bind at 1. unfold lift.
  unfold _switch_to_transfer_process. unfold bind at 1.
  unfold try_except at 1. unfold bind at 1. unfold call at 1.
  simpl env. rewrite Hprocs. unfold ret at 1.
  rewrite switch_loop_select. simpl dumper. rewrite Hselect. reflexivity.
Qed.

End ControllerFacts.

Module ControllerExamples.
Import Sim.

(** C3, on the input where the code departs from it: no SSH, the dumper
    attached to PID 100, SpringBoard running as PID 50, and the attach to it
    timing out.  The session is lost, SpringBoard is selected, the dumper
    detaches and makes one attach attempt; its [TransportError] then leaves
    the download as it is.  The operation does not end with the
    instruction to retry without resuming or to use SSH. *)
Theorem failed_attach_leaves_raw_error :
  fst (download_after_crash [mkProcess "SpringBoard" 50] attach_times_out)
  = inl (Exc (TransportError "timed out"))
  /\ fst (download_after_crash [mkProcess "SpringBoard" 50] attach_times_out)
     <> inl (SystemExit session_lost_message (TransportError "session detached"))
  /\ trace (snd (download_after_crash [mkProcess "SpringBoard" 50] attach_times_out))
     = [EvListFiles "/app" (inl (TransportError "session detached"));
        EvEnumerateProcesses (inr [mkProcess "SpringBoard" 50]);
        EvDetach (inr tt);
        EvAttach 50 (inl (TransportError "timed out"))]
  /\ logs (snd (download_after_crash [mkProcess "SpringBoard" 50] attach_times_out))
     = [InfoScanningFrida; WarningSessionLost (TransportError "session detached");
        InfoSwitching "SpringBoard" 50].
Proof.
  assert (Hres : fst (download_after_crash [mkProcess "SpringBoard" 50] attach_times_out)
                 = inl (Exc (TransportError "timed out"))) by (vm_compute; reflexivity).
  split; [exact Hres |].
  split; [rewrite Hres; discriminate |].
  split; vm_compute; reflexivity.
Qed.

(** The sibling failure of the same function: when no candidate is
    running, the operation does end with the instruction. *)
Lemma no_candidate_ends_with_instruction :
  fst (download_after_crash [mkProcess "Safari" 50] (fun _ => None))
  = inl (SystemExit session_lost_message (TransportError "session detached"))
  /\ trace (snd (download_after_crash [mkProcess "Safari" 50] (fun _ => None)))
     = [EvListFiles "/app" (inl (TransportError "session detached"));
        EvEnumerateProcesses (inr [mkProcess "Safari" 50])].
Proof. split; vm_compute; reflexivity. Qed.

(** The candidates are tried in the order of the list, not of the process
    list, and one that is the attached process is passed over: with the
    dumper attached to SpringBoard itself, backboardd is taken before
    launchd; the retried operation then completes. *)
Lemma switch_takes_first_other_candidate :
  let run := download_after_crash
               [mkProcess "SpringBoard" 100; mkProcess "launchd" 1; mkProcess "backboardd" 7]
               (fun _ => None) in
  fst run = inr tt
  /\ logs (snd run)
     = [InfoScanningFrida; WarningSessionLost (TransportError "session detached");
        InfoSwitching "backboardd" 7; InfoRetrying; InfoScanningFrida]
  /\ _pid (dumper (snd run)) = Some 7
  /\ fs (snd run) !! "out/decrypted" = Some f1.
Proof. vm_compute. repeat split; reflexivity. Qed.

(** With an SSH client, the lost session is answered by the whole
    operation over SSH: walk, stat, tree, file. *)
Lemma ssh_takes_over :
  fst download_with_ssh = inr tt
  /\ logs (snd download_with_ssh)
     = [InfoScanningFrida; WarningSessionLost (TransportError "session detached");
        InfoFallingBackToSsh; InfoScanningSsh]
  /\ fs (snd download_with_ssh) !! "out/app/a/f1" = Some f1
  /\ fs (snd download_with_ssh) !! "out/app/a/b/f2" = Some f2
  /\ fs (snd download_with_ssh) !! "out/decrypted" = Some f1.
Proof. vm_compute. repeat split; reflexivity. Qed.

End ControllerExamples.

(* ===================================================================== *)
(** * Further properties of the progress bar *)
(* ===================================================================== *)

Module BarFacts.
Import Progress.

Section Facts.

Context {T : Type}.
Variable within_100ms : T -> T -> bool.
Variable line_text : option Z -> string -> Z -> T -> T -> string.

#[local] Abbreviation update := (update within_100ms line_text).
#[local] Abbreviation render := (_render_unlocked within_100ms line_text).
#[local] Abbreviation finish := (finish within_100ms line_text).
#[local] Abbreviation all_updates := (updates within_100ms line_text).

Lemma render_keeps force now (pb : @ProgressBar T) :
  label (fst (render force now pb)) = label pb
  /\ _enabled (fst (render force now pb)) = _enabled pb
  /\ _start_time (fst (render force now pb)) = _start_time pb.
Proof.
  unfold _render_unlocked.
  destruct (_enabled pb) eqn:E; simpl; [| auto].
  destruct (negb force && within_100ms now (_last_render pb)); simpl; auto.
Qed.

Lemma update_keeps delta now (pb : @ProgressBar T) :
  total (fst (update delta now pb)) = total pb
  /\ label (fst (update delta now pb)) = label pb
  /\ _enabled (fst (update delta now pb)) = _enabled pb
  /\ _start_time (fst (update delta now pb)) = _start_time pb.
Proof.
  unfold Progress.update. destruct (delta <=? 0); [auto |].
  match goal with
  | |- context [_render_unlocked _ _ ?f ?n ?b] =>
      destruct (render_keeps f n b) as (Hl & He & Hs);
      pose proof (ProgressFacts.render_total within_100ms line_text f n b) as Ht
  end.
  simpl in Hl, He, Hs, Ht. auto.
Qed.

Lemma update_current_max delta now (pb : @ProgressBar T) :
  current (fst (update delta now pb)) = current pb + Z.max 0 delta.
Proof.
  rewrite ProgressFacts.update_current.
  destruct (Z.ltb_spec 0 delta); lia.
Qed.

Lemma positive_sum_nonneg deltas : 0 <= positive_sum deltas.
Proof. induction deltas as [| d deltas IH]; simpl; lia. Qed.

(** X1. Over any sequence of updates, whatever the clock says at each, the
    transferred counter ends at its first value plus the sum of the
    positive deltas, so it never decreases; the total, the label and the
    terminal flag stay as they were. *)
Theorem updates_add_positive_sum (deltas : list (Z * T)) (pb : @ProgressBar T) :
  current (all_updates deltas pb) = current pb + positive_sum (map fst deltas)
  /\ current pb <= current (all_updates deltas pb)
  /\ total (all_updates deltas pb) = total pb
  /\ label (all_updates deltas pb) = label pb
  /\ _enabled (all_updates deltas pb) = _enabled pb.
Proof.
  assert (H : current (all_updates deltas pb) = current pb + positive_sum (map fst deltas)
              /\ total (all_updates deltas pb) = total pb
              /\ label (all_updates deltas pb) = label pb
              /\ _enabled (all_updates deltas pb) = _enabled pb).
  { revert pb. induction deltas as [| [d now] deltas IH]; intros pb.
    - simpl. repeat split; lia.
    - unfold updates in *. simpl fold_left.
      destruct (IH (fst (update d now pb))) as (Hc & Ht & Hl & He).
      destruct (update_keeps d now pb) as (Ht' & Hl' & He' & _).
      rewrite Hc, Ht, Hl, He, update_current_max. simpl.
      repeat split; try assumption. lia. }
  destruct H as (Hc & Ht & Hl & He).
  repeat split; try assumption.
  rewrite Hc. pose proof (positive_sum_nonneg (map fst deltas)). lia.
Qed.

Lemma length_spaces n : String.length (spaces n) = n.
Proof.
  unfold spaces. induction n as [| n IH]; simpl; [reflexivity |].
  f_equal. exact IH.
Qed.

Lemma length_rendered line last :
  String.length (String (ascii_of_nat 13) line +:+ spaces (last - String.length line))
  = S (Nat.max (String.length line) last).
Proof.
  change (String (ascii_of_nat 13) line +:+ spaces (last - String.length line))
    with (String (ascii_of_nat 13) (line +:+ spaces (last - String.length line))).
  simpl String.length. rewrite length_append, length_spaces. lia.
Qed.

(** X2. On a bar at a terminal, a render that is not forced and comes
    within 100 ms of the last one writes nothing and leaves the bar as it
    is.  Any other render writes one text that starts at the carriage
    return and is one character longer than the longer of the new line and
    the line written before, so the line before is covered; it records the
    length of the new line and the time.  [finish] writes that text and
    then the newline, whatever the time. *)
Theorem render_covers_previous_line (force : bool) (now : T) (pb : @ProgressBar T) :
  _enabled pb = true ->
  let line := line_text (total pb) (label pb) (current pb) (_start_time pb) now in
  (force = false -> within_100ms now (_last_render pb) = true ->
   render force now pb = (pb, None))
  /\ (force = true \/ within_100ms now (_last_render pb) = false ->
      exists pb' text,
        render force now pb = (pb', Some text)
        /\ String.length text = S (Nat.max (String.length line) (_last_len pb))
        /\ _last_len pb' = String.length line
        /\ _last_render pb' = now
        /\ current pb' = current pb)
  /\ exists pb' text,
       finish now pb = (pb', [text; String (ascii_of_nat 10) ""])
       /\ String.length text = S (Nat.max (String.length line) (_last_len pb))
       /\ _last_len pb' = String.length line.
Proof.
  intros Hen line. split; [| split].
  - intros -> Hw. unfold _render_unlocked. rewrite Hen, Hw. reflexivity.
  - intros Hforce. unfold _render_unlocked. rewrite Hen. simpl negb.
    assert (Hc : negb force && within_100ms now (_last_render pb) = false).
    { destruct Hforce as [-> | ->]; [reflexivity | apply andb_false_r]. }
    rewrite Hc. cbv zeta. eexists _, _. split; [reflexivity |].
    split; [apply length_rendered |]. repeat split.
  - unfold Progress.finish, _render_unlocked. rewrite Hen. simpl.
    eexists _, _. split; [reflexivity |].
    split; [apply length_rendered | reflexivity].
Qed.

End Facts.

(** The theorem on a new bar at a terminal whose clock stands still. *)
Lemma render_covers_previous_line_witness :
  _enabled (__init__ true 0%nat 0%nat (Some 150) "Downloading") = true
  /\ exists pb' text,
       finish (fun now last : nat => (now - last <? 1)%nat) (fun _ l _ _ _ => l) 0%nat
         (__init__ true 0%nat 0%nat (Some 150) "Downloading")
       = (pb', [text; String (ascii_of_nat 10) ""])
       /\ String.length text = 12%nat.
Proof.
  split; [reflexivity |].
  destruct (proj2 (proj2
    (render_covers_previous_line (fun now last : nat => (now - last <? 1)%nat)
       (fun _ l _ _ _ => l) false 0%nat
       (__init__ true 0%nat 0%nat (Some 150) "Downloading") eq_refl)))
    as (pb' & text & Hfin & Hlen & _).
  exists pb', text. split; [exact Hfin | exact Hlen].
Defined.

End BarFacts.

Section BarInTheWorld.

Context {R T : Type} {TT : Terminal R T}.

Import Progress.

(** X3. A bar made away from a terminal counts and stays silent: an update
    changes nothing but the bar itself, whose counter grows by the delta if
    it is positive; it does not read the clock and writes nothing.
    [finish] leaves everything as it is. *)
Theorem bar_away_from_terminal_is_silent (a : nat) (pb : ProgressBar) (delta : Z)
    (w : World R T) :
  bars w !! a = Some pb ->
  _enabled pb = false ->
  (exists pb',
     progress_update (Some a) delta w = (inr tt, set_bars (<[a := pb']> (bars w)) w)
     /\ current pb' = current pb + Z.max 0 delta
     /\ _enabled pb' = false)
  /\ progress_finish a w = (inr tt, w).
Proof.
  intros Hbar Hen. split.
  - unfold progress_update. rewrite Hbar, Hen, andb_false_r.
    destruct (Progress.update within_100ms line_text delta (_last_render pb) pb)
      as [pb' out] eqn:Hup.
    assert (Hout : out = None).
    { revert Hup. unfold Progress.update, _render_unlocked.
      destruct (delta <=? 0); [intros [= _ <-]; reflexivity |].
      simpl. rewrite Hen. simpl. intros [= _ <-]. reflexivity. }
    subst out. exists pb'. split.
    + unfold print, set_bars, set_env. simpl. rewrite app_nil_r. reflexivity.
    + pose proof (BarFacts.update_current_max within_100ms line_text delta
                    (_last_render pb) pb) as Hc.
      destruct (BarFacts.update_keeps within_100ms line_text delta (_last_render pb) pb)
        as (_ & _ & He & _).
      rewrite Hup in Hc, He. simpl in Hc, He. split; [exact Hc | congruence].
  - unfold progress_finish. rewrite Hbar, Hen. reflexivity.
Qed.

End BarInTheWorld.

Module BarExamples.
Import Sim Scenes Progress.

Lemma bar_away_from_terminal_is_silent_witness :
  bars counting !! 0%nat = Some quiet_bar
  /\ _enabled quiet_bar = false
  /\ progress_finish 0%nat counting = (inr tt, counting).
Proof.
  split; [reflexivity |]. split; [reflexivity |].
  exact (proj2 (bar_away_from_terminal_is_silent 0%nat quiet_bar 7 counting
                  eq_refl eq_refl)).
Defined.

End BarExamples.

(* ===================================================================== *)
(** * Further properties of the single-file download *)
(* ===================================================================== *)

Section ReadLoopFacts.

Context {R T : Type} {D : Dumper R} {TT : Terminal R T}.

Lemma loop_trace_bounds rp lp cs size offset evs o :
  loop_trace rp lp cs size offset evs o ->
  0 <= offset ->
  Forall (read_in_bounds rp lp cs size) evs.
Proof.
  induction 1 as [offset Hge | offset e Hlt | offset Hlt
                  | offset chunk evs o Hlt Hne Hloop IH]; intros Hpos.
  - constructor.
  - constructor; [| constructor]. unfold read_in_bounds. split; [reflexivity | lia].
  - constructor; [| constructor]. unfold read_in_bounds. split; [reflexivity | lia].
  - constructor; [unfold read_in_bounds; split; [reflexivity | lia] |].
    constructor; [unfold read_in_bounds; auto |].
    apply IH. lia.
Qed.

Lemma loop_trace_fits rp lp cs size offset evs o :
  loop_trace rp lp cs size offset evs o ->
  offset <= size ->
  Forall no_overlong_read evs ->
  offset + Z.of_nat (length (chunks_read evs)) <= size.
Proof.
  induction 1 as [offset Hge | offset e Hlt | offset Hlt
                  | offset chunk evs o Hlt Hne Hloop IH]; intros Hle Hall.
  - simpl. lia.
  - simpl. lia.
  - simpl. lia.
  - inversion Hall as [| ev1 l1 Hread Hrest]; subst.
    inversion Hrest as [| ev2 l2 _ Hrest']; subst.
    simpl in Hread.
    change (chunks_read (EvReadFile rp offset (Z.min cs (size - offset)) (inr chunk)
                           :: EvWrite lp chunk :: evs))
      with (chunk ++ [] ++ chunks_read evs).
    simpl. rewrite length_app.
    assert (offset + Z.of_nat (length chunk) <= size) by lia.
    specialize (IH ltac:(assumption) Hrest'). lia.
Qed.

(** X4. Copying a file whose size was supplied, every read is made on the
    remote path at an offset inside the file and asks for no more than
    [chunk_size] bytes and no more than the bytes left before [size]; every
    write goes to the local path.  When no read returns more than it asked
    for, the local file ends with at most [size] bytes. *)
Theorem reads_stay_in_bounds (remote_path local_path : string) (chunk_size size : Z)
    (progress : option nat) (w w' : World R T) (res : Exception + unit) :
  pull_file_via_frida remote_path local_path chunk_size (Some size) progress w = (res, w') ->
  exists evs,
    trace w' = trace w ++ prelude local_path ++ evs
    /\ Forall (read_in_bounds remote_path local_path chunk_size size) evs
    /\ (0 <= size -> Forall no_overlong_read evs ->
        exists content,
          fs w' !! local_path = Some content /\ Z.of_nat (length content) <= size).
Proof.
  intros Hrun.
  destruct (pull_file_known_size _ _ _ _ _ _ _ _ Hrun)
    as (evs & o & Htrace & Hloop & _ & Hfs & _).
  exists evs. split; [exact Htrace |]. split.
  - eapply loop_trace_bounds; [exact Hloop | lia].
  - intros Hsize Hall. exists (chunks_read evs). split.
    + rewrite Hfs. apply lookup_insert_eq.
    + pose proof (loop_trace_fits _ _ _ _ _ _ _ Hloop Hsize Hall). lia.
Qed.

Lemma progress_update_bar (a : nat) (delta : Z) (w : World R T) pb :
  bars w !! a = Some pb ->
  exists pb',
    bars (snd (progress_update (Some a) delta w)) = <[a := pb']> (bars w)
    /\ Progress.current pb' = Progress.current pb + Z.max 0 delta
    /\ Progress.total pb' = Progress.total pb.
Proof.
  intros Hbar. unfold progress_update. rewrite Hbar.
  destruct (if (0 <? delta) && Progress._enabled pb then time_time (env w)
            else (Progress._last_render pb, env w)) as [now e].
  pose proof (BarFacts.update_current_max within_100ms line_text delta now pb) as Hc.
  destruct (BarFacts.update_keeps within_100ms line_text delta now pb) as (Ht & _).
  destruct (Progress.update within_100ms line_text delta now pb) as [pb' out].
  exists pb'. simpl in *. auto.
Qed.

(** The loop moves the counter of its bar by the bytes it appends to the
    local file. *)
Lemma read_loop_counts rp lp cs size (a : nat) :
  forall (n : nat) offset (w w' : World R T) res pb c0,
    Z.to_nat (size - offset) = n ->
    bars w !! a = Some pb ->
    fs w !! lp = Some c0 ->
    read_loop rp lp cs size (Some a) offset w = (res, w') ->
    exists pb' c1,
      bars w' !! a = Some pb'
      /\ fs w' !! lp = Some (c0 ++ c1)
      /\ Progress.current pb' = Progress.current pb + Z.of_nat (length c1)
      /\ Progress.total pb' = Progress.total pb
      /\ (forall b, b <> a -> bars w' !! b = bars w !! b).
Proof.
  induction n as [n IH] using lt_wf_ind.
  intros offset w w' res pb c0 Hn Hbar Hc0 Hrun.
  rewrite read_loop_step in Hrun.
  destruct (Z.ltb_spec offset size) as [Hlt | Hge].
  - destruct (read_file rp offset (Z.min cs (size - offset)) w)
      as [[e | chunk] w1] eqn:Hread;
      apply read_file_inv in Hread as (e' & _ & ->).
    + injection Hrun as <- <-. exists pb, []. simpl. rewrite app_nil_r.
      repeat split; try assumption. lia.
    + destruct chunk as [| b chunk].
      * injection Hrun as <- <-. exists pb, []. simpl. rewrite app_nil_r.
        repeat split; try assumption. lia.
      * set (chunk' := b :: chunk) in *.
        set (w1 := emit (EvReadFile rp offset (Z.min cs (size - offset)) (inr chunk'))
                     (set_env e' w)) in *.
        set (w2 := snd (handle_write lp chunk' w1)) in *.
        assert (Hbar2 : bars w2 !! a = Some pb) by exact Hbar.
        destruct (progress_update_bar a (Z.of_nat (length chunk')) w2 pb Hbar2)
          as (pb1 & Hbars & Hcur & Htot).
        destruct (progress_update_frame (Some a) (Z.of_nat (length chunk')) w2)
          as (_ & Hfs & _).
        set (w3 := snd (progress_update (Some a) (Z.of_nat (length chunk')) w2)) in *.
        assert (Hlen : (0 < length chunk')%nat) by (subst chunk'; simpl; lia).
        assert (Hbar3 : bars w3 !! a = Some pb1)
          by (rewrite Hbars; apply lookup_insert_eq).
        assert (Hlook : fs w3 !! lp = Some (c0 ++ chunk')).
        { rewrite Hfs. subst w2 w1. simpl. rewrite Hc0. apply lookup_insert_eq. }
        destruct (IH (Z.to_nat (size - (offset + Z.of_nat (length chunk'))))
                    ltac:(lia) _ w3 w' res pb1 _ eq_refl Hbar3 Hlook Hrun)
          as (pb' & c1 & Hb' & Hf' & Hc' & Ht' & Hother).
        exists pb', (chunk' ++ c1).
        split; [exact Hb' |].
        split; [rewrite app_assoc; exact Hf' |].
        split; [rewrite Hc', Hcur, length_app; lia |].
        split; [congruence |].
        intros b0 Hb0. rewrite Hother by assumption. rewrite Hbars.
        rewrite lookup_insert_ne by congruence. reflexivity.
  - injection Hrun as <- <-. exists pb, []. simpl. rewrite app_nil_r.
    repeat split; try assumption. lia.
Qed.

(** X5. Copying a file with a progress bar moves the bar's counter by
    exactly the number of bytes that end in the local file, also when the
    copy stops early or raises; the bar's total and the other bars are left
    alone. *)
Theorem progress_counts_written_bytes (remote_path local_path : string)
    (chunk_size size : Z) (a : nat) (pb : Progress.ProgressBar)
    (w w' : World R T) (res : Exception + unit) :
  bars w !! a = Some pb ->
  pull_file_via_frida remote_path local_path chunk_size (Some size) (Some a) w = (res, w') ->
  exists pb' content,
    bars w' !! a = Some pb'
    /\ fs w' !! local_path = Some content
    /\ Progress.current pb' = Progress.current pb + Z.of_nat (length content)
    /\ Progress.total pb' = Progress.total pb
    /\ (forall b, b <> a -> bars w' !! b = bars w !! b).
Proof.
  intros Hbar Hrun. rewrite pull_file_known_size_eq in Hrun. cbv zeta in Hrun.
  eapply (read_loop_counts _ _ _ _ a _ 0 _ w' res pb []) in Hrun;
    [| reflexivity | | ].
  - destruct Hrun as (pb' & c1 & H1 & H2 & H3 & H4 & H5).
    exists pb', c1. repeat split; try assumption.
    intros b Hb. rewrite H5 by assumption.
    destruct (negb (String.eqb (Posix.dirname local_path) "")); reflexivity.
  - destruct (negb (String.eqb (Posix.dirname local_path) "")); exact Hbar.
  - simpl. apply lookup_insert_eq.
Qed.

End ReadLoopFacts.

Module ReadLoopExamples.
Import Sim Scenes.

Lemma copy_f1_returns :
  pull_file_via_frida "/app/a/f1" "out/a/f1" 2 (Some 5) None (start bundle None)
  = (inr tt, snd copy_f1).
Proof. vm_compute. reflexivity. Qed.

Lemma reads_stay_in_bounds_witness :
  pull_file_via_frida "/app/a/f1" "out/a/f1" 2 (Some 5) None (start bundle None)
  = (inr tt, snd copy_f1)
  /\ exists evs,
       trace (snd copy_f1) = trace (start bundle None) ++ prelude "out/a/f1" ++ evs
       /\ Forall (read_in_bounds "/app/a/f1" "out/a/f1" 2 5) evs.
Proof.
  split; [exact copy_f1_returns |].
  destruct (reads_stay_in_bounds _ _ _ _ _ _ _ _ copy_f1_returns)
    as (evs & Htrace & Hall & _).
  exists evs. split; [exact Htrace | exact Hall].
Defined.

Lemma counted_copy_returns :
  pull_file_via_frida "/app/a/f1" "out/a/f1" 2 (Some 5) (Some 0%nat) counting
  = (inr tt, snd counted_copy).
Proof. vm_compute. reflexivity. Qed.

Lemma counting_holds_the_bar : bars counting !! 0%nat = Some quiet_bar.
Proof. reflexivity. Qed.

Lemma progress_counts_written_bytes_witness :
  bars counting !! 0%nat = Some quiet_bar
  /\ pull_file_via_frida "/app/a/f1" "out/a/f1" 2 (Some 5) (Some 0%nat) counting
     = (inr tt, snd counted_copy)
  /\ exists pb' content,
       bars (snd counted_copy) !! 0%nat = Some pb'
       /\ fs (snd counted_copy) !! "out/a/f1" = Some content
       /\ Progress.current pb' = Progress.current quiet_bar + Z.of_nat (length content).
Proof.
  split; [exact counting_holds_the_bar |].
  split; [exact counted_copy_returns |].
  destruct (progress_counts_written_bytes _ _ _ _ _ _ _ _ _
              counting_holds_the_bar counted_copy_returns)
    as (pb' & content & H1 & H2 & H3 & _).
  exists pb', content. split; [exact H1 |]. split; [exact H2 | exact H3].
Defined.

End ReadLoopExamples.

(* ===================================================================== *)
(** * Further properties of the bundle download *)
(* ===================================================================== *)

Section ManifestFacts.

Context {R T : Type} {D : Dumper R} {TT : Terminal R T}.

Lemma extends_for_each_in {E A} (P : event -> Prop) (xs : list A)
    (body : A -> M (World R T) E unit) :
  (forall x, x ∈ xs -> forall w r w', body x w = (r, w') -> extends P w w') ->
  forall w r w', for_each xs body w = (r, w') -> extends P w w'.
Proof.
  induction xs as [| x xs IH]; intros Hbody w r w'; simpl.
  - intros [= <- <-]. apply extends_refl.
  - apply extends_bind.
    + apply Hbody. left.
    + intros _. apply IH. intros y Hy. apply Hbody. right. exact Hy.
Qed.

Lemma pull_file_copies remote_path local_path chunk_size size progress
    (w w' : World R T) r :
  pull_file_via_frida remote_path local_path chunk_size (Some size) progress w = (r, w') ->
  extends (copies remote_path local_path) w w'.
Proof.
  intros Hrun.
  destruct (pull_file_known_size _ _ _ _ _ _ _ _ Hrun) as (evs & o & Htrace & Hloop & _).
  exists (prelude local_path ++ evs). split; [exact Htrace |].
  apply Forall_app. split.
  - unfold prelude.
    destruct (negb (String.eqb (Posix.dirname local_path) "")); repeat constructor.
  - eapply Forall_impl; [eapply loop_trace_bounds; [exact Hloop | lia] |].
    intros [] Hev; simpl in *; tauto.
Qed.

(** X6. With the manifest supplied, [pull_bundle_via_frida] makes no call
    to list or stat anything: after the directories are made, every event
    is the making of a local directory, the opening or writing of a local
    file or the reading of a remote file for one of the listed files that
    has a size entry.  A listed file without a size entry is never opened,
    read or written. *)
Theorem manifest_limits_the_download (sched : nat -> nat) (bundle_path local_dir : string)
    (config : option TransferConfig) (files dirs : list string) (sizes : gmap string Z)
    (progress : option nat) (w w' : World R T) (r : Exception + unit) :
  pull_bundle_via_frida sched bundle_path local_dir config (Some files) (Some dirs)
    (Some sizes) progress w = (r, w') ->
  exists evs,
    trace w' = trace w ++ EvMakedirs local_dir :: makedirs_events local_dir dirs ++ evs
    /\ Forall (copies_one_of bundle_path local_dir
                 (filter (fun rel => is_Some (sizes !! rel)) files)) evs.
Proof.
  rewrite pull_bundle_listed. cbv zeta.
  set (cfg := default default_config config).
  set (valid := filter (fun rel => is_Some (sizes !! rel)) files).
  assert (Hunit : forall rel, rel ∈ valid -> forall (w0 w0' : World R T) r0,
            pull_file_via_frida (Posix.slash bundle_path rel) (Posix.join local_dir rel)
              (chunk_size cfg) (sizes !! rel) progress w0 = (r0, w0') ->
            extends (copies_one_of bundle_path local_dir valid) w0 w0').
  { intros rel Hrel w0 w0' r0 Hrun.
    assert (Hsize : is_Some (sizes !! rel)).
    { subst valid. apply list_elem_of_filter in Hrel. tauto. }
    destruct Hsize as [size Hsize]. rewrite Hsize in Hrun.
    eapply extends_weaken; [| eapply pull_file_copies; exact Hrun].
    intros ev Hev. exists rel. split; assumption. }
  intros Hrun.
  assert (Hext : extends (copies_one_of bundle_path local_dir valid)
                   (with_dirs local_dir dirs w) w').
  { destruct ((1 <? max_workers cfg) && (1 <? Z.of_nat (length valid))) eqn:Hpar.
    - unfold _pull_files_parallel in Hrun.
      apply andb_true_iff in Hpar as [Hworkers _]. apply Z.ltb_lt in Hworkers.
      destruct (Z.leb_spec (max_workers cfg) 0); [lia |].
      revert Hrun. apply extends_for_each_in.
      intros rel Hrel w0 r0 w0'.
      assert (Hin : rel ∈ valid).
      { rewrite <- (completion_order_perm sched (Z.to_nat (max_workers cfg)) ltac:(lia)
                      (length valid) 0 valid eq_refl).
        exact Hrel. }
      apply extends_bind.
      + intros w1 r1 w1'. unfold download_file. apply extends_try_except.
        * intros w2 r2 w2'. apply extends_bind.
          -- intros w3 r3 w3'. apply Hunit. exact Hin.
          -- intros _ w3 r3 w3'. apply extends_ret.
        * intros e w2 r2 w2'. apply extends_ret.
      + intros [[rel' success] error] w1 r1 w1'.
        destruct success; [apply extends_ret |].
        destruct error; [apply extends_log | apply extends_ret].
    - revert Hrun. apply extends_for_each_in.
      intros rel Hrel w0 r0 w0'. apply Hunit. exact Hrel. }
  destruct Hext as (evs & Htrace & Hall).
  exists evs. split; [| exact Hall].
  rewrite Htrace. unfold with_dirs. simpl. rewrite <- app_assoc. reflexivity.
Qed.

(** X7. A batch size that is not positive.  When the agent offers the
    batched stat and the listing names a file, a batch size of zero makes
    the enumeration raise [ValueError] right after the listing, and a
    negative one makes it return every listed file with no size at all and
    a total of zero, without any stat call; the download that enumerates
    with a negative batch size then makes the directories, copies no file
    and returns. *)
Theorem batch_size_not_positive (sched : nat -> nat) (bundle_path local_dir : string)
    (config : TransferConfig) (progress : option nat) (w : World R T)
    (listing : Listing) (e : R) :
  has_stat_paths = true ->
  exports_listfiles bundle_path (env w) = (inr listing, e) ->
  default [] (l_files listing) <> [] ->
  batch_stat_size config <= 0 ->
  enumerate_bundle_files bundle_path (Some config) w
  = (if batch_stat_size config =? 0
     then inl (ValueError "range() arg 3 must not be zero")
     else inr (default [] (l_dirs listing), default [] (l_files listing), ∅, 0),
     emit (EvListFiles bundle_path (inr listing)) (set_env e w))
  /\ (batch_stat_size config < 0 ->
      pull_bundle_via_frida sched bundle_path local_dir (Some config) None None None
        progress w
      = (inr tt,
         with_dirs local_dir (default [] (l_dirs listing))
           (emit (EvListFiles bundle_path (inr listing)) (set_env e w)))).
Proof.
  intros Hhas Hlist Hfiles Hbatch.
  assert (Henum : enumerate_bundle_files bundle_path (Some config) w
            = (if batch_stat_size config =? 0
               then inl (ValueError "range() arg 3 must not be zero")
               else inr (default [] (l_dirs listing), default [] (l_files listing), ∅, 0),
               emit (EvListFiles bundle_path (inr listing)) (set_env e w))).
  { unfold enumerate_bundle_files, list_files, call, bind at 1. rewrite Hlist.
    rewrite Hhas. rewrite bool_decide_eq_false_2 by exact Hfiles. simpl andb. cbv iota.
    simpl default at 1. unfold bind.
    destruct (Z.eqb_spec (batch_stat_size config) 0) as [Hz | Hnz]; [reflexivity |].
    change (default default_config (Some config)) with config.
    replace (Z.to_nat (batch_stat_size config)) with 0%nat by lia.
    rewrite batches_equation_1. reflexivity. }
  split; [exact Henum |].
  intros Hneg.
  rewrite pull_bundle_unlisted by exact I.
  simpl default at 1. rewrite Henum.
  destruct (Z.eqb_spec (batch_stat_size config) 0) as [Hz | _]; [lia |].
  rewrite pull_bundle_listed. cbv zeta.
  assert (Hvalid : forall rels : list string,
            filter (fun rel => is_Some ((∅ : gmap string Z) !! rel)) rels = []).
  { intros rels. induction rels as [| rel rels IH]; [reflexivity |].
    rewrite filter_cons_False; [exact IH |].
    rewrite lookup_empty. intros [x Hx]. discriminate. }
  rewrite Hvalid. simpl length. rewrite andb_false_r. reflexivity.
Qed.

End ManifestFacts.

Module ManifestExamples.
Import Sim Scenes.

Lemma parallel_download_runs :
  pull_bundle_via_frida (fun _ => 1%nat) "/app" "out" (Some default_config)
    (Some bundle_files) (Some bundle_dirs) (Some bundle_sizes) None (start read_fails None)
  = (inr tt, snd (parallel_download (fun _ => 1%nat))).
Proof. vm_compute. reflexivity. Qed.

Lemma manifest_limits_the_download_witness :
  pull_bundle_via_frida (fun _ => 1%nat) "/app" "out" (Some default_config)
    (Some bundle_files) (Some bundle_dirs) (Some bundle_sizes) None (start read_fails None)
  = (inr tt, snd (parallel_download (fun _ => 1%nat)))
  /\ exists evs,
       trace (snd (parallel_download (fun _ => 1%nat)))
       = trace (start read_fails None)
         ++ EvMakedirs "out" :: makedirs_events "out" bundle_dirs ++ evs
       /\ Forall (copies_one_of "/app" "out"
                    (filter (fun rel => is_Some (bundle_sizes !! rel)) bundle_files)) evs.
Proof.
  split; [exact parallel_download_runs |].
  exact (manifest_limits_the_download _ _ _ _ _ _ _ _ _ _ _ parallel_download_runs).
Defined.

Lemma bundle_listing_answers :
  exports_listfiles "/app" (env (start bundle None)) = (inr (listing bundle), bundle).
Proof. reflexivity. Qed.

Lemma bundle_lists_files : default [] (l_files (listing bundle)) <> [].
Proof. discriminate. Qed.

Lemma batch_size_not_positive_witness :
  (has_stat_paths = true
   /\ exports_listfiles "/app" (env (start bundle None)) = (inr (listing bundle), bundle)
   /\ default [] (l_files (listing bundle)) <> []
   /\ batch_stat_size negative_batch <= 0)
  /\ enumerate_bundle_files "/app" (Some negative_batch) (start bundle None)
     = (inr (["a/b"; "a"], ["a/f1"; "a/b/f2"], ∅, 0),
        emit (EvListFiles "/app" (inr (listing bundle))) (set_env bundle (start bundle None))).
Proof.
  split.
  - split; [reflexivity |]. split; [exact bundle_listing_answers |].
    split; [exact bundle_lists_files | discriminate].
  - exact (proj1 (batch_size_not_positive (fun _ => 0%nat) "/app" "out" negative_batch None
                    (start bundle None) (listing bundle) bundle eq_refl
                    bundle_listing_answers bundle_lists_files ltac:(discriminate))).
Defined.

(** With a batch size of zero the enumeration of the bundle raises after
    the listing. *)
Lemma zero_batch_raises :
  enumerate_bundle_files "/app" (Some zero_batch) (start bundle None)
  = (inl (ValueError "range() arg 3 must not be zero"),
     emit (EvListFiles "/app" (inr (listing bundle))) (set_env bundle (start bundle None))).
Proof. reflexivity. Qed.

End ManifestExamples.

(* ===================================================================== *)
(** * Properties of attach, detach and the switch *)
(* ===================================================================== *)

Section AttachFacts.

Context {R T : Type} {DV : Device R}.

(** X8. An error of the attach that is neither a [TransportError] nor an
    [OperationCancelledError] is not retried: whatever number of attempts
    is left, one attach call is made, its error is raised, and no session,
    script or PID is recorded. *)
Theorem attach_error_not_retried (target : Z) (retries : nat) (w : World R T)
    (exc : Exception) (e : R) :
  device_attach target (env w) = (inl exc, e) ->
  is_attach_timeout exc = false ->
  attach target (S retries) w
  = (inl exc, emit (EvAttach target (inl exc)) (set_env e w)).
Proof.
  intros Hattach Htimeout.
  unfold attach, bind at 1. simpl _attach_with_retries.
  unfold bind at 1, call. rewrite Hattach, Htimeout. reflexivity.
Qed.

Lemma last_cons_some {A} (x : A) (l : list A) :
  last (x :: l) = Some (default x (last l)).
Proof.
  revert x. induction l as [| y l IH]; intros x; [reflexivity |].
  change (last (x :: y :: l)) with (last (y :: l)).
  rewrite IH. simpl. destruct l; reflexivity.
Qed.

Lemma attach_retries_time_out (stuck : R -> Prop) (target : Z) :
  (forall r, stuck r ->
     exists exc r', device_attach target r = (inl exc, r')
                    /\ is_attach_timeout exc = true /\ stuck r') ->
  forall (retries : nat) (last_error : option Exception) (w : World R T),
    stuck (env w) ->
    exists excs w',
      length excs = retries
      /\ Forall (fun exc => is_attach_timeout exc = true) excs
      /\ trace w' = trace w ++ map (fun exc => EvAttach target (inl exc)) excs
      /\ dumper w' = dumper w
      /\ _attach_with_retries target retries last_error w
         = (match last excs with
            | Some exc => inl exc
            | None => match last_error with Some exc => inl exc | None => inr tt end
            end, w').
Proof.
  intros Hstuck. induction retries as [| retries IH]; intros last_error w Hw.
  - exists [], w. simpl. rewrite app_nil_r.
    repeat split; [constructor |]. destruct last_error; reflexivity.
  - destruct (Hstuck _ Hw) as (exc & r' & Hattach & Htimeout & Hr').
    destruct (IH (Some exc) (emit (EvAttach target (inl exc)) (set_env r' w)) Hr')
      as (excs & w' & Hlen & Hall & Htrace & Hdumper & Hrun).
    exists (exc :: excs), w'.
    split; [simpl; congruence |].
    split; [constructor; assumption |].
    split; [rewrite Htrace; simpl; rewrite <- app_assoc; reflexivity |].
    split; [exact Hdumper |].
    simpl _attach_with_retries. unfold bind at 1, call. rewrite Hattach, Htimeout.
    rewrite Hrun, last_cons_some. destruct (last excs); reflexivity.
Qed.

(** X9. While every attach ends in a timeout, [attach] makes exactly
    [retries] attach calls, never loads the agent, leaves the dumper's
    fields as they were and raises the error of the last attempt.  With no
    attempt allowed it makes no call, raises nothing and records the PID. *)
Theorem attach_timeouts_use_all_retries (stuck : R -> Prop) (target : Z) (retries : nat)
    (w : World R T) :
  (forall r, stuck r ->
     exists exc r', device_attach target r = (inl exc, r')
                    /\ is_attach_timeout exc = true /\ stuck r') ->
  stuck (env w) ->
  exists excs w',
    length excs = retries
    /\ Forall (fun exc => is_attach_timeout exc = true) excs
    /\ trace w' = trace w ++ map (fun exc => EvAttach target (inl exc)) excs
    /\ dumper w' = dumper w
    /\ attach target retries w
       = match last excs with
         | Some exc => (inl exc, w')
         | None => (inr tt, set_dumper (mkDumper (_session (dumper w')) (_script (dumper w'))
                                          (Some target)) w')
         end.
Proof.
  intros Hstuck Hw.
  destruct (attach_retries_time_out stuck target Hstuck retries None w Hw)
    as (excs & w' & Hlen & Hall & Htrace & Hdumper & Hrun).
  exists excs, w'. repeat split; try assumption.
  unfold attach, bind. rewrite Hrun. destruct (last excs); reflexivity.
Qed.

(** X10. [detach] with no session does nothing.  With a session it calls
    the session's detach once: when that returns, session, script and PID
    are cleared and a further [detach] does nothing; when it raises, the
    three fields stay as they were. *)
Theorem detach_clears_or_keeps (w w' : World R T) (r : Exception + unit) :
  detach w = (r, w') ->
  (_session (dumper w) = false -> r = inr tt /\ w' = w)
  /\ (_session (dumper w) = true ->
      exists answer e,
        session_detach (env w) = (answer, e)
        /\ trace w' = trace w ++ [EvDetach answer]
        /\ match r with
           | inr _ => answer = inr tt /\ dumper w' = mkDumper false false None
                      /\ detach w' = (inr tt, w')
           | inl exc => answer = inl exc /\ dumper w' = dumper w
           end).
Proof.
  unfold detach, bind at 1, gets.
  destruct (_session (dumper w)) eqn:Hs; intros Hrun.
  - split; [discriminate |]. intros _.
    unfold bind, call in Hrun.
    destruct (session_detach (env w)) as [[exc | []] e] eqn:Hdetach.
    + injection Hrun as <- <-. exists (inl exc), e. repeat split.
    + injection Hrun as <- <-. exists (inr tt), e. repeat split.
  - injection Hrun as <- <-. split; [auto | discriminate].
Qed.

End AttachFacts.

Section SwitchFacts.

Context {R T : Type} {D : Dumper R} {TT : Terminal R T} {SF : Sftp R} {DV : Device R}.

Lemma select_candidate_sound names processes attached name_ proc :
  select_candidate names processes attached = Some (name_, proc) ->
  name_ ∈ names /\ proc ∈ processes /\ name proc = name_ /\ Some (pid proc) <> attached.
Proof.
  induction names as [| n names IH]; [discriminate |].
  simpl.
  destruct (find (fun p => String.eqb (name p) n) processes) as [p |] eqn:Hfind.
  - destruct (bool_decide (Some (pid p) = attached)) eqn:Hsame.
    + intros H. destruct (IH H) as (H1 & H2). split; [right; exact H1 | exact H2].
    + intros [= <- <-].
      apply find_some in Hfind as [Hin Hname].
      apply String.eqb_eq in Hname.
      apply bool_decide_eq_false in Hsame.
      split; [left |]. split; [apply list_elem_of_In; exact Hin |]. split; assumption.
  - intros H. destruct (IH H) as (H1 & H2). split; [right; exact H1 | exact H2].
Qed.

Lemma switch_enumerates (w : World R T) :
  _switch_to_transfer_process w
  = match device_enumerate_processes (env w) with
    | (inl exc, e0) => (inr false, emit (EvEnumerateProcesses (inl exc)) (set_env e0 w))
    | (inr processes, e0) =>
        switch_loop candidates processes
          (emit (EvEnumerateProcesses (inr processes)) (set_env e0 w))
    end.
Proof.
  unfold _switch_to_transfer_process, bind at 1, try_except, bind at 1, call.
  destruct (device_enumerate_processes (env w)) as [[exc | processes] e0]; reflexivity.
Qed.

Lemma detach_grows (w w' : World R T) (r : Exception + unit) :
  detach w = (r, w') -> exists evs, trace w' = trace w ++ evs.
Proof.
  unfold detach, bind, gets, call, modify.
  destruct (_session (dumper w)).
  - destruct (session_detach (env w)) as [[exc | []] e]; intros [= <- <-]; simpl; eauto.
  - intros [= <- <-]. exists []. rewrite app_nil_r. reflexivity.
Qed.

(** An attempt that returns leaves a session and a loaded script. *)
Lemma attempt_returns (target : Z) (w w1 : World R T) :
  bind (call (device_attach target) (EvAttach target))
    (fun _ => bind (set_session true) (fun _ => _load_agent)) w = (inr tt, w1) ->
  dumper w1 = mkDumper true true (_pid (dumper w))
  /\ exists evs, trace w1 = trace w ++ evs.
Proof.
  unfold bind, call, set_session, modify, _load_agent, gets.
  destruct (device_attach target (env w)) as [[exc | []] e1]; [discriminate |].
  simpl. unfold bind, call. simpl.
  destruct (script_load e1) as [[exc | []] e2]; [discriminate |].
  simpl. intros [= <-]. simpl. split; [reflexivity |].
  rewrite <- app_assoc. eauto.
Qed.

(** X11. When [_switch_to_transfer_process] answers [True], the dumper
    holds a session and a loaded script on a running process that bears one
    of the four candidate names and whose PID is not the one that was
    attached, and that PID is recorded.  When it answers [False], only the
    processes were enumerated: the dumper is as it was. *)
Theorem switch_moves_to_a_candidate (w w' : World R T) (switched : bool) :
  _switch_to_transfer_process w = (inr switched, w') ->
  if switched then
    exists processes name_ proc,
      EvEnumerateProcesses (inr processes) ∈ trace w'
      /\ name_ ∈ candidates
      /\ proc ∈ processes
      /\ name proc = name_
      /\ Some (pid proc) <> _pid (dumper w)
      /\ dumper w' = mkDumper true true (Some (pid proc))
  else
    dumper w' = dumper w
    /\ exists answer, trace w' = trace w ++ [EvEnumerateProcesses answer].
Proof.
  rewrite switch_enumerates.
  destruct (device_enumerate_processes (env w)) as [[exc | processes] e0] eqn:Henum.
  - intros [= <- <-]. split; [reflexivity | eauto].
  - rewrite switch_loop_select. simpl dumper.
    destruct (select_candidate candidates processes (_pid (dumper w)))
      as [[name_ proc] |] eqn:Hsel.
    + apply select_candidate_sound in Hsel as (Hname & Hproc & Heq & Hpid).
      unfold bind at 1, log, modify.
      unfold bind at 1.
      destruct (try_except detach (fun _ => true) (fun _ => ret tt)
                  (add_log (InfoSwitching name_ (pid proc))
                     (emit (EvEnumerateProcesses (inr processes)) (set_env e0 w))))
        as [[exc | []] w1] eqn:Hdetach.
      { exfalso. revert Hdetach. unfold try_except.
        destruct (detach _) as [[exc' | []] w0]; discriminate. }
      assert (Htrace1 : EvEnumerateProcesses (inr processes) ∈ trace w1).
      { revert Hdetach. unfold try_except.
        destruct (detach _) as [[exc' | []] w0] eqn:Hd; intros [= <-];
          destruct (detach_grows _ _ _ Hd) as (evs & ->); simpl; set_solver. }
      unfold bind at 1. rewrite attach_once.
      destruct (bind (call (device_attach (pid proc)) (EvAttach (pid proc)))
                  (fun _ => bind (set_session true) (fun _ => _load_agent)) w1)
        as [[exc | []] w2] eqn:Hattempt; [discriminate |].
      apply attempt_returns in Hattempt as (Hdumper & evs & Htrace2).
      unfold set_pid, modify, ret. intros [= <- <-].
      exists processes, name_, proc.
      split; [simpl; rewrite Htrace2; set_solver |].
      repeat split; try assumption.
      simpl. rewrite Hdumper. reflexivity.
    + intros [= <- <-]. split; [reflexivity | eauto].
Qed.

End SwitchFacts.

Module AttachExamples.
Import Sim Scenes.

Lemma attach_error_not_retried_witness :
  device_attach 9 (env (start (crashed [] (fun _ => Some (NotSupportedError "jailed"))) None))
  = (inl (NotSupportedError "jailed"), crashed [] (fun _ => Some (NotSupportedError "jailed")))
  /\ is_attach_timeout (NotSupportedError "jailed") = false
  /\ fst (attach 9 3 (start (crashed [] (fun _ => Some (NotSupportedError "jailed"))) None))
     = inl (NotSupportedError "jailed").
Proof.
  split; [reflexivity |]. split; [reflexivity |].
  exact (f_equal fst
           (attach_error_not_retried 9 2
              (start (crashed [] (fun _ => Some (NotSupportedError "jailed"))) None)
              (NotSupportedError "jailed")
              (crashed [] (fun _ => Some (NotSupportedError "jailed")))
              eq_refl eq_refl)).
Defined.

Lemma unreachable_stays :
  forall r : device, r = unreachable ->
    exists exc r', device_attach 50 r = (inl exc, r')
                   /\ is_attach_timeout exc = true /\ r' = unreachable.
Proof.
  intros r ->. exists (TransportError "timed out"), unreachable.
  split; [reflexivity |]. split; reflexivity.
Qed.

Lemma attach_timeouts_use_all_retries_witness :
  env (start unreachable None) = unreachable
  /\ exists excs (w' : World device nat),
       length excs = 3%nat
       /\ trace w' = trace (start unreachable None)
                     ++ map (fun exc => EvAttach 50 (inl exc)) excs
       /\ dumper w' = dumper (start unreachable None).
Proof.
  split; [reflexivity |].
  destruct (attach_timeouts_use_all_retries (fun r => r = unreachable) 50 3
              (start unreachable None) unreachable_stays eq_refl)
    as (excs & w' & Hlen & _ & Htrace & Hdumper & _).
  exists excs, w'. split; [exact Hlen |]. split; [exact Htrace | exact Hdumper].
Defined.

Lemma detach_returns :
  detach (start bundle (Some 100))
  = (inr tt, snd (detach (start bundle (Some 100)))).
Proof. reflexivity. Qed.

Lemma detach_clears_or_keeps_witness :
  detach (start bundle (Some 100)) = (inr tt, snd (detach (start bundle (Some 100))))
  /\ (_session (dumper (start bundle (Some 100))) = true ->
      exists answer e,
        session_detach (env (start bundle (Some 100))) = (answer, e)
        /\ trace (snd (detach (start bundle (Some 100))))
           = trace (start bundle (Some 100)) ++ [EvDetach answer]).
Proof.
  split; [exact detach_returns |].
  intros Hs.
  destruct (proj2 (detach_clears_or_keeps _ _ _ detach_returns) Hs)
    as (answer & e & H1 & H2 & _).
  exists answer, e. split; [exact H1 | exact H2].
Defined.

Lemma switching_returns :
  _switch_to_transfer_process
    (start (crashed [mkProcess "SpringBoard" 100; mkProcess "backboardd" 7] (fun _ => None))
       (Some 100))
  = (inr true, snd switching).
Proof. vm_compute. reflexivity. Qed.

Lemma switch_moves_to_a_candidate_witness :
  _switch_to_transfer_process
    (start (crashed [mkProcess "SpringBoard" 100; mkProcess "backboardd" 7] (fun _ => None))
       (Some 100))
  = (inr true, snd switching)
  /\ exists (procs : list Process) name_ proc,
       name_ ∈ candidates
       /\ proc ∈ procs
       /\ Some (pid proc) <> Some 100
       /\ dumper (snd switching) = mkDumper true true (Some (pid proc)).
Proof.
  split; [exact switching_returns |].
  destruct (switch_moves_to_a_candidate _ _ _ switching_returns)
    as (procs & name_ & proc & _ & H1 & H2 & _ & H3 & H4).
  exists procs, name_, proc.
  split; [exact H1 |]. split; [exact H2 |]. split; [exact H3 | exact H4].
Defined.

End AttachExamples.

(* ===================================================================== *)
(** * Who is called during a download *)
(* ===================================================================== *)

Section Sides.

Context {R T : Type} {D : Dumper R} {TT : Terminal R T} {SF : Sftp R} {DV : Device R}.

Variable P : event -> Prop.

Lemma makedirs_side path (w w' : World R T) (r : Exception + unit) :
  P (EvMakedirs path) -> makedirs path w = (r, w') -> extends P w w'.
Proof.
  intros HP [= <- <-]. exists [EvMakedirs path]. split; [reflexivity |].
  constructor; [exact HP | constructor].
Qed.

Lemma new_progress_side total label (w w' : World R T) r :
  new_progress total label w = (r, w') -> extends P w w'.
Proof.
  unfold new_progress. destruct (time_time (env w)) as [now e].
  intros [= <- <-]. apply extends_same_trace. reflexivity.
Qed.

Lemma progress_finish_side a (w w' : World R T) r :
  progress_finish a w = (r, w') -> extends P w w'.
Proof.
  unfold progress_finish. destruct (bars w !! a) as [pb |]; [| apply extends_ret].
  destruct (negb (Progress._enabled pb)); [apply extends_ret |].
  destruct (time_time (env w)) as [now e].
  destruct (Progress.finish within_100ms line_text now pb) as [pb' out].
  intros [= <- <-]. apply extends_same_trace. reflexivity.
Qed.

Lemma lift_side {A} (c : M (World R T) Exception A) (w w' : World R T) r :
  (forall w r w', c w = (r, w') -> extends P w w') ->
  lift c w = (r, w') -> extends P w w'.
Proof.
  intros Hc. unfold lift. destruct (c w) as [[e | a] w1] eqn:Hrun;
    intros [= <- <-]; eapply Hc; exact Hrun.
Qed.

Section FridaSide.

Hypothesis Hagent : forall ev, is_agent_call ev = true -> P ev.
Hypothesis Hlocal : forall ev, is_local ev = true -> P ev.

Lemma stat_each_side bundle_path batch : forall acc (w w' : World R T) r,
  stat_each bundle_path batch acc w = (r, w') -> extends P w w'.
Proof.
  induction batch as [| rel batch IH]; intros acc w w' r; simpl.
  - apply extends_ret.
  - apply extends_bind.
    + intros w0 r0 w0'. apply extends_call. intros r1. apply Hagent. reflexivity.
    + intros st w0 r0 w0'. apply IH.
Qed.

Lemma stat_batches_side bundle_path bs : forall acc (w w' : World R T) r,
  stat_batches bundle_path bs acc w = (r, w') -> extends P w w'.
Proof.
  induction bs as [| batch bs IH]; intros acc w w' r; simpl.
  - apply extends_ret.
  - apply extends_bind.
    + intros w0 r0 w0'. apply extends_try_except.
      * intros w1 r1 w1'. apply extends_bind.
        -- intros w2 r2 w2'. apply extends_call. intros r3. apply Hagent. reflexivity.
        -- intros stats w2 r2 w2'. apply extends_ret.
      * intros e w1 r1 w1'. apply extends_bind.
        -- intros w2 r2 w2'. apply extends_log.
        -- intros _ w2 r2 w2'. apply stat_each_side.
    + intros acc' w0 r0 w0'. apply IH.
Qed.

Lemma enumerate_side bundle_path (config : option TransferConfig) (w w' : World R T) r :
  enumerate_bundle_files bundle_path config w = (r, w') -> extends P w w'.
Proof.
  apply extends_bind.
  - intros w0 r0 w0'. apply extends_call. intros r1. apply Hagent. reflexivity.
  - intros listing w0 r0 w0'. apply extends_bind.
    + intros w1 r1 w1'.
      destruct (has_stat_paths && negb (bool_decide (default [] (l_files listing) = []))).
      * destruct (batch_stat_size (default default_config config) =? 0).
        -- apply extends_raise.
        -- apply stat_batches_side.
      * apply stat_each_side.
    + intros acc w1 r1 w1'. apply extends_ret.
Qed.

Lemma copies_side remote_path local_path ev : copies remote_path local_path ev -> P ev.
Proof.
  destruct ev; simpl; try contradiction; intros _;
    first [apply Hagent; reflexivity | apply Hlocal; reflexivity].
Qed.

Lemma pull_file_side remote_path local_path chunk_size (size : option Z) progress
    (w w' : World R T) r :
  pull_file_via_frida remote_path local_path chunk_size size progress w = (r, w') ->
  extends P w w'.
Proof.
  destruct size as [size |].
  - intros Hrun. eapply extends_weaken; [| eapply pull_file_copies; exact Hrun].
    apply copies_side.
  - rewrite pull_file_unknown_size.
    destruct (stat_path remote_path w) as [[e | stat] w1] eqn:Hstat.
    + intros [= <- <-]. revert Hstat. apply extends_call.
      intros r1. apply Hagent. reflexivity.
    + assert (H1 : extends P w w1).
      { revert Hstat. apply extends_call. intros r1. apply Hagent. reflexivity. }
      destruct (negb (truthy (st_exists stat))); [intros [= <- <-]; exact H1 |].
      destruct (truthy (st_isDir stat)); [intros [= <- <-]; exact H1 |].
      intros Hrun. eapply extends_trans; [exact H1 |].
      eapply extends_weaken; [| eapply pull_file_copies; exact Hrun].
      apply copies_side.
Qed.

Lemma pull_files_parallel_side sched bundle_path local_dir files sizes config progress
    (w w' : World R T) r :
  _pull_files_parallel sched bundle_path local_dir files sizes config progress w = (r, w') ->
  extends P w w'.
Proof.
  unfold _pull_files_parallel.
  destruct (max_workers config <=? 0); [apply extends_raise |].
  apply extends_for_each. intros rel w0 r0 w0'.
  apply extends_bind.
  - intros w1 r1 w1'. unfold download_file. apply extends_try_except.
    + intros w2 r2 w2'. apply extends_bind.
      * intros w3 r3 w3'. apply pull_file_side.
      * intros _ w3 r3 w3'. apply extends_ret.
    + intros e w2 r2 w2'. apply extends_ret.
  - intros [[rel' success] error] w1 r1 w1'.
    destruct success; [apply extends_ret |].
    destruct error; [apply extends_log | apply extends_ret].
Qed.

Lemma pull_bundle_side sched bundle_path local_dir (config : option TransferConfig)
    (files dirs : option (list string)) (sizes : option (gmap string Z)) progress
    (w w' : World R T) r :
  pull_bundle_via_frida sched bundle_path local_dir config files dirs sizes progress w
    = (r, w') ->
  extends P w w'.
Proof.
  apply extends_bind.
  - intros w0 r0 w0'.
    assert (Henum : bind (enumerate_bundle_files bundle_path
                            (Some (default default_config config)))
                      (fun '(dirs, files, sizes, _) => ret (dirs, files, sizes)) w0
                    = (r0, w0') -> extends P w0 w0').
    { apply extends_bind.
      - intros w1 r1 w1'. apply enumerate_side.
      - intros [[[d f] sz] t] w1 r1 w1'. apply extends_ret. }
    destruct files as [files |]; [| exact Henum].
    destruct dirs as [dirs |]; [| exact Henum].
    destruct sizes as [sizes |]; [| exact Henum].
    apply extends_ret.
  - intros [[dirs' files'] sizes'] w0 r0 w0'.
    apply extends_bind.
    + intros w1 r1 w1'. apply makedirs_side. apply Hlocal. reflexivity.
    + intros _ w1 r1 w1'. apply extends_bind.
      * intros w2 r2 w2'. apply extends_for_each.
        intros rel w3 r3 w3'. apply makedirs_side. apply Hlocal. reflexivity.
      * intros _ w2 r2 w2'. cbv zeta.
        destruct ((1 <? max_workers (default default_config config))
                  && (1 <? Z.of_nat
                             (length (filter (fun rel => is_Some (sizes' !! rel)) files')))).
        -- apply pull_files_parallel_side.
        -- apply extends_for_each. intros rel w3 r3 w3'. apply pull_file_side.
Qed.

Lemma frida_transfer_side sched bundle_path local_bundle_dir remote_dump_path
    local_decrypted config (w w' : World R T) r :
  frida_transfer sched bundle_path local_bundle_dir remote_dump_path local_decrypted
    config w = (r, w') ->
  extends P w w'.
Proof.
  apply extends_bind.
  - intros w0 r0 w0'. apply enumerate_side.
  - intros [[[d f] sz] t] w0 r0 w0'. apply extends_bind.
    + intros w1 r1 w1'. apply extends_call. intros r2. apply Hagent. reflexivity.
    + intros dump_stat w1 r1 w1'. apply extends_bind.
      * intros w2 r2 w2'. apply new_progress_side.
      * intros a w2 r2 w2'. apply extends_bind.
        -- intros w3 r3 w3'. apply pull_bundle_side.
        -- intros _ w3 r3 w3'. apply extends_bind.
           ++ intros w4 r4 w4'. apply pull_file_side.
           ++ intros _ w4 r4 w4'. apply progress_finish_side.
Qed.

Lemma directory_transfer_side sched remote_path local_dir label config
    (w w' : World R T) r :
  directory_transfer sched remote_path local_dir label config w = (r, w') ->
  extends P w w'.
Proof.
  apply extends_bind.
  - intros w0 r0 w0'. apply enumerate_side.
  - intros [[[d f] sz] t] w0 r0 w0'. apply extends_bind.
    + intros w1 r1 w1'. apply new_progress_side.
    + intros a w1 r1 w1'. apply extends_bind.
      * intros w2 r2 w2'. apply pull_bundle_side.
      * intros _ w2 r2 w2'. apply progress_finish_side.
Qed.

End FridaSide.

Section SshSide.

Hypothesis Hsftp : forall ev, is_sftp_call ev = true -> P ev.
Hypothesis Hlocal : forall ev, is_local ev = true -> P ev.

Lemma self_sftp_side (w w' : World R T) r : self_sftp w = (r, w') -> extends P w w'.
Proof. apply extends_call. intros r1. apply Hsftp. reflexivity. Qed.

Lemma _walk_sftp_side limit : forall remote_dir rel_base acc (w w' : World R T) r,
  _walk_sftp limit remote_dir rel_base acc w = (r, w') -> extends P w w'.
Proof.
  induction limit as [| limit IH]; intros remote_dir rel_base acc w w' r; simpl.
  - apply extends_raise.
  - apply extends_bind.
    + intros w0 r0 w0'. apply extends_try_except.
      * intros w1 r1 w1'. apply extends_bind.
        -- intros w2 r2 w2'. apply extends_call. intros r3. apply Hsftp. reflexivity.
        -- intros es w2 r2 w2'. apply extends_ret.
      * intros e w1 r1 w1'. apply extends_bind.
        -- intros w2 r2 w2'. apply extends_log.
        -- intros _ w2 r2 w2'. apply extends_ret.
    + intros [entries |] w0 r0 w0'; [| apply extends_ret].
      revert acc w0 r0 w0'.
      induction entries as [| entry rest IHe]; intros acc w0 r0 w0'; simpl.
      * apply extends_ret.
      * destruct (is_dir entry).
        -- apply extends_bind.
           ++ intros w1 r1 w1'. apply IH.
           ++ intros acc' w1 r1 w1'. apply IHe.
        -- apply IHe.
Qed.

Lemma walk_side limit remote_dir (w w' : World R T) r :
  walk limit remote_dir w = (r, w') -> extends P w w'.
Proof.
  apply extends_bind.
  - intros w0 r0 w0'. apply self_sftp_side.
  - intros _ w0 r0 w0'. apply _walk_sftp_side.
Qed.

Lemma _download_file_sftp_trace remote_path local_path progress (w w' : World R T) r :
  _download_file_sftp remote_path local_path progress w = (r, w') ->
  trace w' = trace w ++ [EvSftpGet remote_path local_path r].
Proof.
  unfold _download_file_sftp.
  destruct (sftp_get remote_path local_path (env w)) as [o e].
  intros [= <- <-].
  destruct progress; [rewrite run_callbacks_trace |]; destruct (stored o); reflexivity.
Qed.

Lemma _download_file_sftp_side remote_path local_path progress (w w' : World R T) r :
  _download_file_sftp remote_path local_path progress w = (r, w') -> extends P w w'.
Proof.
  intros Hrun. exists [EvSftpGet remote_path local_path r].
  split; [eapply _download_file_sftp_trace; exact Hrun |].
  constructor; [apply Hsftp; reflexivity | constructor].
Qed.

Lemma download_dir_side limit remote_dir local_dir
    (files : option (list (string * string * Z))) (dirs : option (list string)) progress
    (w w' : World R T) r :
  download_dir limit remote_dir local_dir files dirs progress w = (r, w') ->
  extends P w w'.
Proof.
  apply extends_bind.
  - intros w0 r0 w0'.
    destruct files as [files |]; [| apply walk_side].
    destruct dirs as [dirs |]; [| apply walk_side].
    apply extends_ret.
  - intros [files' dirs'] w0 r0 w0'. apply extends_bind.
    + intros w1 r1 w1'. apply makedirs_side. apply Hlocal. reflexivity.
    + intros _ w1 r1 w1'. apply extends_bind.
      * intros w2 r2 w2'. apply extends_for_each.
        intros rel w3 r3 w3'. apply makedirs_side. apply Hlocal. reflexivity.
      * intros _ w2 r2 w2'. apply extends_bind.
        -- intros w3 r3 w3'. apply self_sftp_side.
        -- intros _ w3 r3 w3'. apply extends_for_each.
           intros f w4 r4 w4'. apply _download_file_sftp_side.
Qed.

Lemma download_file_ssh_side remote_path local_path progress (w w' : World R T) r :
  download_file_ssh remote_path local_path progress w = (r, w') -> extends P w w'.
Proof.
  apply extends_bind.
  - intros w0 r0 w0'.
    destruct (negb (String.eqb (Posix.dirname local_path) ""));
      [apply makedirs_side; apply Hlocal; reflexivity | apply extends_ret].
  - intros _ w0 r0 w0'. apply extends_bind.
    + intros w1 r1 w1'. apply self_sftp_side.
    + intros _ w1 r1 w1'. apply _download_file_sftp_side.
Qed.

Lemma _download_via_ssh_side limit bundle_path local_bundle_dir remote_dump_path
    local_decrypted (w w' : World R T) r :
  _download_via_ssh limit bundle_path local_bundle_dir remote_dump_path local_decrypted w
    = (r, w') ->
  extends P w w'.
Proof.
  apply extends_bind.
  - intros w0 r0 w0'. apply extends_log.
  - intros _ w0 r0 w0'. apply extends_bind.
    + intros w1 r1 w1'. apply walk_side.
    + intros [files dirs] w1 r1 w1'. apply extends_bind.
      * intros w2 r2 w2'. apply self_sftp_side.
      * intros _ w2 r2 w2'. apply extends_bind.
        -- intros w3 r3 w3'. apply extends_call. intros r4. apply Hsftp. reflexivity.
        -- intros dump_size w3 r3 w3'. apply extends_bind.
           ++ intros w4 r4 w4'. apply new_progress_side.
           ++ intros a w4 r4 w4'. apply extends_bind.
              ** intros w5 r5 w5'. apply download_dir_side.
              ** intros _ w5 r5 w5'. apply extends_bind.
                 --- intros w6 r6 w6'. apply download_file_ssh_side.
                 --- intros _ w6 r6 w6'. apply progress_finish_side.
Qed.

Lemma _download_dir_via_ssh_side limit remote_path local_dir label (w w' : World R T) r :
  _download_dir_via_ssh limit remote_path local_dir label w = (r, w') ->
  extends P w w'.
Proof.
  apply extends_bind.
  - intros w0 r0 w0'. apply extends_log.
  - intros _ w0 r0 w0'. apply extends_bind.
    + intros w1 r1 w1'. apply walk_side.
    + intros [files dirs] w1 r1 w1'. apply extends_bind.
      * intros w2 r2 w2'. apply new_progress_side.
      * intros a w2 r2 w2'. apply extends_bind.
        -- intros w3 r3 w3'. apply download_dir_side.
        -- intros _ w3 r3 w3'. apply progress_finish_side.
Qed.

End SshSide.

Section DeviceSide.

Hypothesis Hdetach : forall r, P (EvDetach r).
Hypothesis Hattach : forall target r, P (EvAttach target r).
Hypothesis Hload : forall r, P (EvLoadAgent r).

Lemma detach_side (w w' : World R T) r : detach w = (r, w') -> extends P w w'.
Proof.
  apply extends_bind.
  - intros w0 r0 w0' [= <- <-]. apply extends_refl.
  - intros has_session w0 r0 w0'. destruct has_session; [| apply extends_ret].
    apply extends_bind.
    + intros w1 r1 w1'. apply extends_call. exact Hdetach.
    + intros _ w1 r1 w1' [= <- <-]. apply extends_same_trace. reflexivity.
Qed.

Lemma attach_once_side target (w w' : World R T) r :
  attach target 1 w = (r, w') -> extends P w w'.
Proof.
  rewrite attach_once.
  destruct (bind (call (device_attach target) (EvAttach target))
              (fun _ => bind (set_session true) (fun _ => _load_agent)) w)
    as [[exc | []] w1] eqn:Hattempt.
  all: assert (H1 : extends P w w1).
  all: try (revert Hattempt; apply extends_bind;
            [ intros w2 r2 w2'; apply extends_call; apply Hattach
            | intros _ w2 r2 w2'; apply extends_bind;
              [ intros w3 r3 w3' [= <- <-]; apply extends_same_trace; reflexivity
              | intros _ w3 r3 w3'; unfold _load_agent; apply extends_bind;
                [ intros w4 r4 w4' [= <- <-]; apply extends_refl
                | intros has_session w4 r4 w4';
                  destruct (negb has_session); [apply extends_raise |];
                  apply extends_bind;
                  [ intros w5 r5 w5'; apply extends_call; exact Hload
                  | intros _ w5 r5 w5' [= <- <-]; apply extends_same_trace;
                    reflexivity ] ] ] ]).
  - intros [= <- <-]. exact H1.
  - intros [= <- <-]. eapply extends_trans; [exact H1 |].
    apply extends_same_trace. reflexivity.
Qed.

Lemma switch_loop_side names processes (w w' : World R T) r :
  switch_loop names processes w = (r, w') -> extends P w w'.
Proof.
  rewrite switch_loop_select.
  destruct (select_candidate names processes (_pid (dumper w))) as [[name_ proc] |].
  - apply extends_bind.
    + intros w0 r0 w0'. apply extends_log.
    + intros _ w0 r0 w0'. apply extends_bind.
      * intros w1 r1 w1'. apply extends_try_except.
        -- intros w2 r2 w2'. apply detach_side.
        -- intros e w2 r2 w2'. apply extends_ret.
      * intros _ w1 r1 w1'. apply extends_bind.
        -- intros w2 r2 w2'. apply attach_once_side.
        -- intros _ w2 r2 w2'. apply extends_ret.
  - intros [= <- <-]. apply extends_refl.
Qed.

Lemma switch_side (w w' : World R T) r :
  (forall answer, P (EvEnumerateProcesses answer)) ->
  _switch_to_transfer_process w = (r, w') -> extends P w w'.
Proof.
  intros Henum. rewrite switch_enumerates.
  destruct (device_enumerate_processes (env w)) as [[exc | processes] e0].
  - intros [= <- <-]. exists [EvEnumerateProcesses (inl exc)].
    split; [reflexivity | constructor; [apply Henum | constructor]].
  - intros Hrun. eapply extends_trans; [| eapply switch_loop_side; exact Hrun].
    exists [EvEnumerateProcesses (inr processes)].
    split; [reflexivity | constructor; [apply Henum | constructor]].
Qed.

End DeviceSide.

End Sides.

Section TransportFacts.

Context {R T : Type} {D : Dumper R} {TT : Terminal R T} {SF : Sftp R} {DV : Device R}.

Lemma sftp_is_ssh_side ev : is_sftp_call ev = true -> ssh_side ev.
Proof. unfold ssh_side. intros ->. reflexivity. Qed.

Lemma local_is_ssh_side ev : is_local ev = true -> ssh_side ev.
Proof. unfold ssh_side. intros ->. apply orb_true_r. Qed.

Lemma agent_is_no_sftp ev : is_agent_call ev = true -> no_sftp ev.
Proof. destruct ev; simpl; intros H; try discriminate; reflexivity. Qed.

Lemma local_is_no_sftp ev : is_local ev = true -> no_sftp ev.
Proof. destruct ev; simpl; intros H; try discriminate; reflexivity. Qed.

(** X12. A downloader that has an SSH client downloads the bundle and the
    sandbox without the help of Frida: every call it makes goes to the SFTP
    session or to the local file system; the agent is not called, and
    nothing is attached or detached. *)
Theorem ssh_download_stays_on_ssh (context : DownloadContext) (sched : nat -> nat -> nat)
    (limit : nat)
    (bundle_path local_bundle_dir remote_dump_path local_decrypted : string)
    (sandbox_path sandbox_out_dir : string) (w w' : World R T) (r : BaseException + unit) :
  ctx_ssh context = true ->
  download_bundle context sched limit bundle_path local_bundle_dir remote_dump_path
    local_decrypted w = (r, w')
  \/ download_sandbox context sched limit sandbox_path sandbox_out_dir w = (r, w') ->
  extends ssh_side w w'.
Proof.
  intros Hssh. unfold download_bundle, download_sandbox. rewrite Hssh.
  intros [Hrun | Hrun]; revert Hrun; apply lift_side; intros w0 r0 w0'.
  - apply _download_via_ssh_side; [exact sftp_is_ssh_side | exact local_is_ssh_side].
  - apply _download_dir_via_ssh_side; [exact sftp_is_ssh_side | exact local_is_ssh_side].
Qed.

Lemma switch_no_sftp (w w' : World R T) r :
  _switch_to_transfer_process w = (r, w') -> extends no_sftp w w'.
Proof. apply switch_side; reflexivity. Qed.

Lemma _download_via_frida_no_sftp (context : DownloadContext) (sched : nat -> nat -> nat)
    bundle_path local_bundle_dir remote_dump_path local_decrypted config :
  ctx_ssh context = false ->
  forall limit (w w' : World R T) r,
    _download_via_frida context sched limit bundle_path local_bundle_dir remote_dump_path
      local_decrypted config w = (r, w') ->
    extends no_sftp w w'.
Proof.
  intros Hssh. induction limit as [| limit IH]; intros w w' r; simpl.
  - apply extends_raise.
  - apply extends_bind.
    + intros w0 r0 w0'. apply extends_log.
    + intros _ w0 r0 w0'. apply extends_try_except.
      * intros w1 r1 w1'. apply lift_side. intros w2 r2 w2'.
        apply frida_transfer_side; [exact agent_is_no_sftp | exact local_is_no_sftp].
      * intros [exc | msg cause] w1 r1 w1'; [| apply extends_raise].
        unfold _handle_frida_error. rewrite Hssh.
        apply extends_bind.
        -- intros w2 r2 w2'. apply extends_log.
        -- intros _ w2 r2 w2'. apply extends_bind.
           ++ intros w3 r3 w3'. apply lift_side. intros w4 r4 w4'. apply switch_no_sftp.
           ++ intros switched w3 r3 w3'. destruct switched; [| apply extends_raise].
              apply extends_bind.
              ** intros w4 r4 w4'. apply extends_log.
              ** intros _ w4 r4 w4'. apply IH.
Qed.

Lemma _download_dir_via_frida_no_sftp (context : DownloadContext)
    (sched : nat -> nat -> nat) limit remote_path local_dir label config
    (w w' : World R T) r :
  ctx_ssh context = false ->
  _download_dir_via_frida context sched limit remote_path local_dir label config w
    = (r, w') ->
  extends no_sftp w w'.
Proof.
  intros Hssh. unfold _download_dir_via_frida. rewrite Hssh.
  apply extends_bind.
  - intros w0 r0 w0'. apply extends_log.
  - intros _ w0 r0 w0'. apply extends_try_except.
    + intros w1 r1 w1'. apply lift_side. intros w2 r2 w2'.
      apply directory_transfer_side; [exact agent_is_no_sftp | exact local_is_no_sftp].
    + intros [exc | msg cause] w1 r1 w1'; [| apply extends_raise].
      apply extends_bind.
      * intros w2 r2 w2'. apply extends_log.
      * intros _ w2 r2 w2'. apply extends_bind.
        -- intros w3 r3 w3'. apply lift_side. intros w4 r4 w4'. apply switch_no_sftp.
        -- intros switched w3 r3 w3'. destruct switched; [| apply extends_raise].
           apply extends_bind.
           ++ intros w4 r4 w4'. apply extends_log.
           ++ intros _ w4 r4 w4'. apply lift_side. intros w5 r5 w5'.
              apply directory_transfer_side;
                [exact agent_is_no_sftp | exact local_is_no_sftp].
Qed.

(** X13. A downloader that has no SSH client never touches SFTP: whatever
    happens to the Frida session during the download of the bundle or of
    the sandbox, through every switch of the transfer process and retry, no
    SFTP session is opened and no SFTP call is made. *)
Theorem frida_download_never_calls_sftp (context : DownloadContext)
    (sched : nat -> nat -> nat) (limit : nat)
    (bundle_path local_bundle_dir remote_dump_path local_decrypted : string)
    (sandbox_path sandbox_out_dir : string) (w w' : World R T) (r : BaseException + unit) :
  ctx_ssh context = false ->
  download_bundle context sched limit bundle_path local_bundle_dir remote_dump_path
    local_decrypted w = (r, w')
  \/ download_sandbox context sched limit sandbox_path sandbox_out_dir w = (r, w') ->
  extends no_sftp w w'.
Proof.
  intros Hssh. unfold download_bundle, download_sandbox. rewrite Hssh.
  intros [Hrun | Hrun].
  - eapply _download_via_frida_no_sftp; [exact Hssh | exact Hrun].
  - eapply _download_dir_via_frida_no_sftp; [exact Hssh | exact Hrun].
Qed.

Lemma lift_never_exits {A} (c : M (World R T) Exception A) (w w' : World R T) msg cause :
  lift c w = (inl (SystemExit msg cause), w') -> False.
Proof. unfold lift. destruct (c w) as [[e | a] w1]; discriminate. Qed.

Lemma _download_via_frida_exit (context : DownloadContext) (sched : nat -> nat -> nat)
    bundle_path local_bundle_dir remote_dump_path local_decrypted config msg cause :
  forall limit (w w' : World R T),
    _download_via_frida context sched limit bundle_path local_bundle_dir remote_dump_path
      local_decrypted config w = (inl (SystemExit msg cause), w') ->
    msg = session_lost_message
    /\ is_session_lost (Exc cause) = true
    /\ ctx_ssh context = false.
Proof.
  induction limit as [| limit IH]; intros w w'; simpl; [discriminate |].
  unfold bind at 1, log at 1, modify, try_except.
  destruct (lift _ (add_log InfoScanningFrida w)) as [[[exc | m c] | []] w1] eqn:Hfirst.
  - destruct (is_session_lost (Exc exc)) eqn:Hlost; [| discriminate].
    unfold _handle_frida_error, bind at 1, log at 1, modify.
    destruct (ctx_ssh context) eqn:Hssh.
    + unfold bind at 1, log at 1, modify. intros H.
      apply lift_never_exits in H. contradiction.
    + unfold bind at 1.
      destruct (lift _switch_to_transfer_process (add_log (WarningSessionLost exc) w1))
        as [[e2 | switched] w2] eqn:Hswitch.
      * intros [= -> <-]. apply lift_never_exits in Hswitch. contradiction.
      * destruct switched.
        -- unfold bind at 1, log at 1, modify. apply IH.
        -- intros [= <- <- <-]. auto.
  - apply lift_never_exits in Hfirst. contradiction.
  - discriminate.
Qed.

Lemma _download_dir_via_frida_exit (context : DownloadContext) (sched : nat -> nat -> nat)
    limit remote_path local_dir label config msg cause (w w' : World R T) :
  _download_dir_via_frida context sched limit remote_path local_dir label config w
    = (inl (SystemExit msg cause), w') ->
  msg = session_lost_message
  /\ is_session_lost (Exc cause) = true
  /\ ctx_ssh context = false.
Proof.
  unfold _download_dir_via_frida, bind at 1, log at 1, modify, try_except.
  destruct (lift _ (add_log InfoScanningFrida w)) as [[[exc | m c] | []] w1] eqn:Hfirst.
  - destruct (is_session_lost (Exc exc)) eqn:Hlost; [| discriminate].
    unfold bind at 1, log at 1, modify.
    destruct (ctx_ssh context) eqn:Hssh.
    + unfold bind at 1, log at 1, modify. intros H.
      apply lift_never_exits in H. contradiction.
    + unfold bind at 1.
      destruct (lift _switch_to_transfer_process (add_log (WarningSessionLost exc) w1))
        as [[e2 | switched] w2] eqn:Hswitch.
      * intros [= -> <-]. apply lift_never_exits in Hswitch. contradiction.
      * destruct switched.
        -- unfold bind at 1, log at 1, modify. intros H.
           apply lift_never_exits in H. contradiction.
        -- intros [= <- <- <-]. auto.
  - apply lift_never_exits in Hfirst. contradiction.
  - discriminate.
Qed.

(** X14. Whenever the download of the bundle or of the sandbox ends the
    program with [SystemExit], the downloader has no SSH client, the
    message is the instruction to retry with [--no-resume] or to use SSH,
    and the cause attached to it is the [InvalidOperationError] or
    [TransportError] that lost the session. *)
Theorem exit_carries_the_instruction (context : DownloadContext)
    (sched : nat -> nat -> nat) (limit : nat)
    (bundle_path local_bundle_dir remote_dump_path local_decrypted : string)
    (sandbox_path sandbox_out_dir : string) (w w' : World R T)
    (msg : string) (cause : Exception) :
  download_bundle context sched limit bundle_path local_bundle_dir remote_dump_path
    local_decrypted w = (inl (SystemExit msg cause), w')
  \/ download_sandbox context sched limit sandbox_path sandbox_out_dir w
     = (inl (SystemExit msg cause), w') ->
  msg = session_lost_message
  /\ is_session_lost (Exc cause) = true
  /\ ctx_ssh context = false.
Proof.
  unfold download_bundle, download_sandbox.
  destruct (ctx_ssh context) eqn:Hssh.
  - intros [H | H]; apply lift_never_exits in H; contradiction.
  - intros [H | H].
    + apply _download_via_frida_exit in H as (H1 & H2 & _). auto.
    + apply _download_dir_via_frida_exit in H as (H1 & H2 & _). auto.
Qed.

Lemma enumerations_app evs1 evs2 :
  enumerations (evs1 ++ evs2) = (enumerations evs1 + enumerations evs2)%nat.
Proof. induction evs1 as [| ev evs1 IH]; simpl; [reflexivity | rewrite IH; lia]. Qed.

Lemma enumerations_none evs : Forall no_enumeration evs -> enumerations evs = 0%nat.
Proof.
  induction 1 as [| ev evs Hev _ IH]; simpl; [reflexivity |].
  unfold no_enumeration in Hev. rewrite Hev, IH. reflexivity.
Qed.

Lemma agent_is_no_enumeration ev : is_agent_call ev = true -> no_enumeration ev.
Proof. destruct ev; simpl; intros H; try discriminate; reflexivity. Qed.

Lemma local_is_no_enumeration ev : is_local ev = true -> no_enumeration ev.
Proof. destruct ev; simpl; intros H; try discriminate; reflexivity. Qed.

Lemma sftp_is_no_enumeration ev : is_sftp_call ev = true -> no_enumeration ev.
Proof. destruct ev; simpl; intros H; try discriminate; reflexivity. Qed.

(** The trace grows by events among which at most [n] enumerations of the
    processes. *)
Lemma grows_quietly (w w' : World R T) :
  extends no_enumeration w w' ->
  exists evs, trace w' = trace w ++ evs /\ enumerations evs = 0%nat.
Proof.
  intros (evs & Htrace & Hall). exists evs. split; [exact Htrace |].
  apply enumerations_none. exact Hall.
Qed.

Lemma switch_enumerates_once (w w' : World R T) r :
  _switch_to_transfer_process w = (r, w') ->
  exists evs, trace w' = trace w ++ evs /\ enumerations evs = 1%nat.
Proof.
  rewrite switch_enumerates.
  destruct (device_enumerate_processes (env w)) as [[exc | processes] e0].
  - intros [= <- <-]. exists [EvEnumerateProcesses (inl exc)]. split; reflexivity.
  - intros Hrun.
    apply (switch_loop_side no_enumeration) in Hrun; [| reflexivity ..].
    apply grows_quietly in Hrun as (evs & Htrace & Hnone).
    exists (EvEnumerateProcesses (inr processes) :: evs). split.
    + rewrite Htrace. simpl. rewrite <- app_assoc. reflexivity.
    + simpl. rewrite Hnone. reflexivity.
Qed.

(** X15. The download of a directory over Frida switches the transfer
    process at most once: in all it does, whether it falls back to SSH,
    retries after a switch or gives up, the processes of the device are
    enumerated at most one time, so a session lost during the retry is not
    followed by another switch. *)
Theorem directory_download_switches_once (context : DownloadContext)
    (sched : nat -> nat -> nat) (limit : nat) (remote_path local_dir label : string)
    (config : TransferConfig) (w w' : World R T) (r : BaseException + unit) :
  _download_dir_via_frida context sched limit remote_path local_dir label config w
    = (r, w') ->
  exists evs, trace w' = trace w ++ evs /\ (enumerations evs <= 1)%nat.
Proof.
  assert (Htransfer : forall s (w0 w0' : World R T) r0,
            lift (directory_transfer s remote_path local_dir label config) w0 = (r0, w0') ->
            exists evs, trace w0' = trace w0 ++ evs /\ enumerations evs = 0%nat).
  { intros s w0 w0' r0 Hrun. apply grows_quietly. revert Hrun.
    apply lift_side. intros w1 r1 w1'.
    apply directory_transfer_side;
      [exact agent_is_no_enumeration | exact local_is_no_enumeration]. }
  unfold _download_dir_via_frida, bind at 1, log at 1, modify, try_except.
  destruct (lift _ (add_log InfoScanningFrida w)) as [[e | []] w1] eqn:Hfirst;
    destruct (Htransfer _ _ _ _ Hfirst) as (evs1 & Htrace1 & Hnone1);
    simpl in Htrace1.
  2: { intros [= <- <-]. exists evs1. split; [exact Htrace1 | lia]. }
  destruct (is_session_lost e) eqn:Hlost.
  2: { intros [= <- <-]. exists evs1. split; [exact Htrace1 | lia]. }
  destruct e as [exc | m c]; [| discriminate].
  unfold bind at 1, log at 1, modify.
  destruct (ctx_ssh context).
  - unfold bind at 1, log at 1, modify. intros Hrun.
    apply (lift_side no_enumeration) in Hrun.
    + apply grows_quietly in Hrun as (evs2 & Htrace2 & Hnone2). simpl in Htrace2.
      exists (evs1 ++ evs2). split.
      * rewrite Htrace2, Htrace1, app_assoc. reflexivity.
      * rewrite enumerations_app. lia.
    + intros w2 r2 w2'.
      apply _download_dir_via_ssh_side;
        [exact sftp_is_no_enumeration | exact local_is_no_enumeration].
  - unfold bind at 1.
    destruct (lift _switch_to_transfer_process (add_log (WarningSessionLost exc) w1))
      as [[e2 | switched] w2] eqn:Hswitch.
    all: assert (Hsw : exists evs, trace w2 = trace w1 ++ evs /\ enumerations evs = 1%nat).
    all: try (revert Hswitch; unfold lift;
              destruct (_switch_to_transfer_process (add_log (WarningSessionLost exc) w1))
                as [[e3 | sw] w3] eqn:Hsw; intros [= <- <-] || intros [= <-];
              apply switch_enumerates_once in Hsw; exact Hsw).
    all: destruct Hsw as (evs2 & Htrace2 & Hone).
    + intros [= <- <-]. exists (evs1 ++ evs2). split.
      * rewrite Htrace2, Htrace1, app_assoc. reflexivity.
      * rewrite enumerations_app. lia.
    + destruct switched.
      * unfold bind at 1, log at 1, modify. intros Hrun.
        destruct (Htransfer _ _ _ _ Hrun) as (evs3 & Htrace3 & Hnone3).
        simpl in Htrace3.
        exists (evs1 ++ evs2 ++ evs3). split.
        -- rewrite Htrace3, Htrace2, Htrace1, !app_assoc. reflexivity.
        -- rewrite !enumerations_app. lia.
      * intros [= <- <-]. exists (evs1 ++ evs2). split.
        -- rewrite Htrace2, Htrace1, app_assoc. reflexivity.
        -- rewrite enumerations_app. lia.
Qed.

End TransportFacts.

Module TransportExamples.
Import Sim Scenes.

Lemma bundle_over_ssh_returns :
  download_bundle (mkContext true default_config) (fun _ _ => 0%nat) 10
    "/app" "out/app" "/app/a/f1" "out/decrypted" (start bundle (Some 100))
  = (inr tt, snd bundle_over_ssh).
Proof. vm_compute. reflexivity. Qed.

Lemma ssh_download_stays_on_ssh_witness :
  ctx_ssh (mkContext true default_config) = true
  /\ download_bundle (mkContext true default_config) (fun _ _ => 0%nat) 10
       "/app" "out/app" "/app/a/f1" "out/decrypted" (start bundle (Some 100))
     = (inr tt, snd bundle_over_ssh)
  /\ extends ssh_side (start bundle (Some 100)) (snd bundle_over_ssh).
Proof.
  split; [reflexivity |]. split; [exact bundle_over_ssh_returns |].
  exact (ssh_download_stays_on_ssh (mkContext true default_config) (fun _ _ => 0%nat) 10
           "/app" "out/app" "/app/a/f1" "out/decrypted" "/app" "out/sandbox"
           (start bundle (Some 100)) (snd bundle_over_ssh) (inr tt)
           eq_refl (or_introl bundle_over_ssh_returns)).
Defined.

Lemma sandbox_over_frida_returns :
  download_sandbox (mkContext false default_config) (fun _ _ => 0%nat) 10
    "/app" "out/sandbox" (start bundle (Some 100))
  = (inr tt, snd sandbox_over_frida).
Proof. vm_compute. reflexivity. Qed.

Lemma frida_download_never_calls_sftp_witness :
  ctx_ssh (mkContext false default_config) = false
  /\ download_sandbox (mkContext false default_config) (fun _ _ => 0%nat) 10
       "/app" "out/sandbox" (start bundle (Some 100))
     = (inr tt, snd sandbox_over_frida)
  /\ extends no_sftp (start bundle (Some 100)) (snd sandbox_over_frida).
Proof.
  split; [reflexivity |]. split; [exact sandbox_over_frida_returns |].
  exact (frida_download_never_calls_sftp (mkContext false default_config)
           (fun _ _ => 0%nat) 10
           "/app" "out/app" "/app/a/f1" "out/decrypted" "/app" "out/sandbox"
           (start bundle (Some 100)) (snd sandbox_over_frida) (inr tt)
           eq_refl (or_intror sandbox_over_frida_returns)).
Defined.

(** The sandbox is copied whole, to the files the bundle's listing names. *)
Lemma sandbox_over_frida_copies :
  fs (snd sandbox_over_frida) !! "out/sandbox/a/f1" = Some f1
  /\ fs (snd sandbox_over_frida) !! "out/sandbox/a/b/f2" = Some f2.
Proof. vm_compute. split; reflexivity. Qed.

Lemma sandbox_without_candidate_exits :
  download_sandbox (mkContext false default_config) (fun _ _ => 0%nat) 10
    "/app" "out/sandbox" (start (crashed [mkProcess "Safari" 50] (fun _ => None)) (Some 100))
  = (inl (SystemExit session_lost_message lost),
     snd (sandbox_after_crash [mkProcess "Safari" 50])).
Proof. vm_compute. reflexivity. Qed.

Lemma exit_carries_the_instruction_witness :
  download_sandbox (mkContext false default_config) (fun _ _ => 0%nat) 10
    "/app" "out/sandbox" (start (crashed [mkProcess "Safari" 50] (fun _ => None)) (Some 100))
  = (inl (SystemExit session_lost_message lost),
     snd (sandbox_after_crash [mkProcess "Safari" 50]))
  /\ is_session_lost (Exc lost) = true.
Proof.
  split; [exact sandbox_without_candidate_exits |].
  exact (proj1 (proj2
    (exit_carries_the_instruction (mkContext false default_config) (fun _ _ => 0%nat) 10
       "/app" "out/app" "/app/a/f1" "out/decrypted" "/app" "out/sandbox"
       (start (crashed [mkProcess "Safari" 50] (fun _ => None)) (Some 100))
       (snd (sandbox_after_crash [mkProcess "Safari" 50]))
       session_lost_message lost
       (or_intror sandbox_without_candidate_exits)))).
Defined.

Lemma sandbox_after_switch_returns :
  _download_dir_via_frida (mkContext false default_config) (fun _ _ => 0%nat) 10
    "/app" "out/sandbox" "Downloading sandbox" default_config
    (start (crashed [mkProcess "SpringBoard" 100; mkProcess "backboardd" 7] (fun _ => None))
       (Some 100))
  = (inr tt,
     snd (sandbox_after_crash [mkProcess "SpringBoard" 100; mkProcess "backboardd" 7])).
Proof. vm_compute. reflexivity. Qed.

Lemma directory_download_switches_once_witness :
  _download_dir_via_frida (mkContext false default_config) (fun _ _ => 0%nat) 10
    "/app" "out/sandbox" "Downloading sandbox" default_config
    (start (crashed [mkProcess "SpringBoard" 100; mkProcess "backboardd" 7] (fun _ => None))
       (Some 100))
  = (inr tt,
     snd (sandbox_after_crash [mkProcess "SpringBoard" 100; mkProcess "backboardd" 7]))
  /\ exists evs,
       trace (snd (sandbox_after_crash
                     [mkProcess "SpringBoard" 100; mkProcess "backboardd" 7]))
       = trace (start (crashed [mkProcess "SpringBoard" 100; mkProcess "backboardd" 7]
                         (fun _ => None)) (Some 100)) ++ evs
       /\ (enumerations evs <= 1)%nat.
Proof.
  split; [exact sandbox_after_switch_returns |].
  exact (directory_download_switches_once _ _ _ _ _ _ _ _ _ _ sandbox_after_switch_returns).
Defined.

(** After the switch the sandbox is copied by the new process. *)
Lemma sandbox_after_switch_copies :
  _pid (dumper (snd (sandbox_after_crash
                       [mkProcess "SpringBoard" 100; mkProcess "backboardd" 7])))
  = Some 7
  /\ fs (snd (sandbox_after_crash [mkProcess "SpringBoard" 100; mkProcess "backboardd" 7]))
       !! "out/sandbox/a/f1" = Some f1.
Proof. vm_compute. split; reflexivity. Qed.

End TransportExamples.

(* ===================================================================== *)
(** * Further properties of the SFTP download *)
(* ===================================================================== *)

Section SftpFacts.

Context {R T : Type} {SF : Sftp R} {TT : Terminal R T}.

(** X16. A remote directory that cannot be listed is downloaded as an
    empty one.  When listing the root raises an [IOError], the walk logs it
    and finds nothing, and [download_dir] makes the local directory, asks
    for the session again and returns without an error and without a file;
    any other error of the listing leaves [download_dir] as it is. *)
Theorem unreadable_directory_downloads_nothing (limit : nat)
    (remote_dir local_dir : string) (progress : option nat) (w : World R T)
    (exc : Exception) (e1 e2 : R) :
  sftp_session (env w) = (inr tt, e1) ->
  sftp_listdir_attr remote_dir e1 = (inl exc, e2) ->
  if is_IOError exc then
    forall e3, sftp_session e2 = (inr tt, e3) ->
      exists w',
        download_dir (S limit) remote_dir local_dir None None progress w = (inr tt, w')
        /\ trace w' = trace w ++ [EvSftpSession (inr tt); EvListdir remote_dir (inl exc);
                                  EvMakedirs local_dir; EvSftpSession (inr tt)]
        /\ logs w' = logs w ++ [DebugListFailed remote_dir exc]
        /\ fs w' = fs w
  else
    exists w',
      download_dir (S limit) remote_dir local_dir None None progress w = (inl exc, w')
      /\ trace w' = trace w ++ [EvSftpSession (inr tt); EvListdir remote_dir (inl exc)]
      /\ fs w' = fs w.
Proof.
  intros Hsession Hlist.
  assert (Hwalk : walk (S limit) remote_dir w
            = (if is_IOError exc then inr ([], []) else inl exc,
               (if is_IOError exc then add_log (DebugListFailed remote_dir exc) else id)
                 (emit (EvListdir remote_dir (inl exc))
                    (set_env e2 (emit (EvSftpSession (inr tt)) (set_env e1 w)))))).
  { unfold walk, self_sftp, bind at 1, call at 1. rewrite Hsession.
    simpl _walk_sftp. unfold bind at 1, try_except, bind at 1, call. simpl env.
    rewrite Hlist. destruct (is_IOError exc); reflexivity. }
  destruct (is_IOError exc).
  - intros e3 Hagain. unfold download_dir. unfold bind at 1. rewrite Hwalk.
    eexists. split.
    + unfold bind, makedirs, modify, self_sftp, call. simpl. rewrite Hagain. reflexivity.
    + simpl. rewrite <- !app_assoc. auto.
  - unfold download_dir. unfold bind at 1. rewrite Hwalk.
    eexists. split; [reflexivity |]. simpl. rewrite <- !app_assoc. auto.
Qed.

Lemma run_callbacks_bar (a : nat) : forall transferred lst (w : World R T) pb,
  bars w !! a = Some pb ->
  increasing lst transferred ->
  exists pb',
    bars (snd (run_callbacks (Some a) lst transferred w)) !! a = Some pb'
    /\ Progress.current pb' = Progress.current pb + (default lst (last transferred) - lst)
    /\ Progress.total pb' = Progress.total pb.
Proof.
  induction transferred as [| t rest IH]; intros lst w pb Hbar Hinc.
  - exists pb. simpl. repeat split; [exact Hbar | lia].
  - destruct Hinc as [Hle Hinc].
    destruct (progress_update_bar a (t - lst) w pb Hbar) as (pb1 & Hbars & Hcur & Htot).
    destruct (progress_update_frame (Some a) (t - lst) w) as (Hres & _).
    simpl run_callbacks. unfold bind.
    destruct (progress_update (Some a) (t - lst) w) as [[e | []] w1];
      simpl in Hres, Hbars; [discriminate |].
    assert (Hbar1 : bars w1 !! a = Some pb1) by (rewrite Hbars; apply lookup_insert_eq).
    destruct (IH t w1 pb1 Hbar1 Hinc) as (pb' & Hb' & Hc' & Ht').
    exists pb'. split; [exact Hb' |]. split; [| congruence].
    rewrite last_cons_some. simpl. lia.
Qed.

(** X17. During an SFTP download the bar follows the byte counts the
    transfer reports: when the counts reported to the callback never go
    down, the bar's counter has moved, at the end of the file, by the last
    count reported, whatever the number of calls of the callback. *)
Theorem sftp_progress_follows_transferred (remote_path local_path : string) (a : nat)
    (pb : Progress.ProgressBar) (w : World R T) (o : GetOutcome) (e : R) :
  bars w !! a = Some pb ->
  sftp_get remote_path local_path (env w) = (o, e) ->
  increasing 0 (callbacks o) ->
  exists pb',
    bars (snd (_download_file_sftp remote_path local_path (Some a) w)) !! a = Some pb'
    /\ Progress.current pb' = Progress.current pb + default 0 (last (callbacks o))
    /\ Progress.total pb' = Progress.total pb.
Proof.
  intros Hbar Hget Hinc. unfold _download_file_sftp. rewrite Hget. simpl snd.
  match goal with
  | |- context [run_callbacks (Some a) 0 (callbacks o) ?w2] =>
      destruct (run_callbacks_bar a (callbacks o) 0 w2 pb) as (pb' & H1 & H2 & H3);
        [destruct (stored o); exact Hbar | exact Hinc |]
  end.
  exists pb'. split; [exact H1 |]. split; [| exact H3].
  rewrite H2. lia.
Qed.

Lemma fetch_loop (local_dir : string) (progress : option nat) :
  forall (files : list (string * string * Z)) (w w' : World R T) r,
    for_each files
      (fun f => _download_file_sftp (fst (fst f)) (Posix.join local_dir (snd (fst f)))
                  progress) w = (r, w') ->
    match r with
    | inr _ => trace w' = trace w ++ map (fetched local_dir (inr tt)) files
    | inl exc =>
        exists k f,
          files !! k = Some f
          /\ trace w' = trace w ++ map (fetched local_dir (inr tt)) (take k files)
                                ++ [fetched local_dir (inl exc) f]
    end.
Proof.
  induction files as [| f files IH]; intros w w' r; simpl.
  - intros [= <- <-]. rewrite app_nil_r. reflexivity.
  - unfold bind.
    destruct (_download_file_sftp (fst (fst f)) (Posix.join local_dir (snd (fst f)))
                progress w) as [[exc | []] w1] eqn:Hget;
      apply _download_file_sftp_trace in Hget.
    + intros [= <- <-]. exists 0%nat, f. split; [reflexivity | exact Hget].
    + intros Hrest. apply IH in Hrest. destruct r as [exc | []].
      * destruct Hrest as (k & f' & Hlook & Htrace).
        exists (S k), f'. split; [exact Hlook |].
        rewrite Htrace, Hget. simpl. rewrite <- app_assoc. reflexivity.
      * rewrite Hrest, Hget. rewrite <- app_assoc. reflexivity.
Qed.

(** X18. [download_dir] with a manifest makes the directories, asks for
    the SFTP session and fetches the files one by one in the order of the
    manifest.  The first fetch that fails ends the download with its error:
    the files before it were fetched, the files after it are not asked
    for. *)
Theorem sftp_download_stops_at_first_failure (limit : nat) (remote_dir local_dir : string)
    (files : list (string * string * Z)) (dirs : list string) (progress : option nat)
    (w w' : World R T) (r : Exception + unit) :
  download_dir limit remote_dir local_dir (Some files) (Some dirs) progress w = (r, w') ->
  exists session evs,
    trace w' = trace w ++ EvMakedirs local_dir :: makedirs_events local_dir dirs
                       ++ EvSftpSession session :: evs
    /\ match r with
       | inr _ => session = inr tt /\ evs = map (fetched local_dir (inr tt)) files
       | inl exc =>
           (session = inl exc /\ evs = [])
           \/ (session = inr tt
               /\ exists k f,
                    files !! k = Some f
                    /\ evs = map (fetched local_dir (inr tt)) (take k files)
                             ++ [fetched local_dir (inl exc) f])
       end.
Proof.
  rewrite download_dir_listed. unfold bind, self_sftp, call.
  destruct (sftp_session (env (with_dirs local_dir dirs w))) as [[exc | []] e1].
  - intros [= <- <-]. exists (inl exc), []. split; [| left; auto].
    simpl. rewrite <- app_assoc. reflexivity.
  - intros Hloop. apply fetch_loop in Hloop. simpl in Hloop.
    exists (inr tt). destruct r as [exc | []].
    + destruct Hloop as (k & f & Hlook & Htrace).
      eexists. split; [| right; split; [reflexivity |]; exists k, f; split;
                          [exact Hlook | reflexivity]].
      rewrite Htrace. rewrite <- !app_assoc. reflexivity.
    + eexists. split; [| split; reflexivity].
      rewrite Hloop. rewrite <- !app_assoc. reflexivity.
Qed.

End SftpFacts.

Module SftpExamples.
Import Sim Scenes.

Lemma unreadable_directory_downloads_nothing_witness :
  @sftp_session device locked_sftp (env (start bundle None)) = (inr tt, bundle)
  /\ @sftp_listdir_attr device locked_sftp "/app" bundle
     = (inl (OSError "Permission denied"), bundle)
  /\ exists w',
       @download_dir device nat locked_sftp console 10 "/app" "out" None None None
         (start bundle None) = (inr tt, w')
       /\ fs w' = fs (start bundle None).
Proof.
  split; [reflexivity |]. split; [reflexivity |].
  destruct (@unreadable_directory_downloads_nothing device nat locked_sftp console
              9 "/app" "out" None (start bundle None) (OSError "Permission denied")
              bundle bundle eq_refl eq_refl bundle eq_refl)
    as (w' & Hrun & _ & _ & Hfs).
  exists w'. split; [exact Hrun | exact Hfs].
Defined.

Lemma f1_is_fetched :
  sftp_get "/app/a/f1" "out/a/f1" (env counting)
  = (mkGet (inr tt) (Some f1) [5], bundle).
Proof. reflexivity. Qed.

Lemma sftp_progress_follows_transferred_witness :
  bars counting !! 0%nat = Some quiet_bar
  /\ sftp_get "/app/a/f1" "out/a/f1" (env counting) = (mkGet (inr tt) (Some f1) [5], bundle)
  /\ increasing 0 [5]
  /\ exists pb',
       bars (snd (_download_file_sftp "/app/a/f1" "out/a/f1" (Some 0%nat) counting)) !! 0%nat
       = Some pb'
       /\ Progress.current pb' = Progress.current quiet_bar + 5.
Proof.
  split; [reflexivity |]. split; [exact f1_is_fetched |].
  split; [simpl; lia |].
  destruct (sftp_progress_follows_transferred "/app/a/f1" "out/a/f1" 0%nat quiet_bar
              counting (mkGet (inr tt) (Some f1) [5]) bundle eq_refl f1_is_fetched
              ltac:(simpl; lia))
    as (pb' & H1 & H2 & _).
  exists pb'. split; [exact H1 | exact H2].
Defined.

Lemma stale_ssh_tree_fails :
  download_dir 1000 "/app" "out" (Some stale_manifest) (Some bundle_dirs) None
    (start bundle None)
  = (inl (OSError "No such file"), snd stale_ssh_tree).
Proof. vm_compute. reflexivity. Qed.

Lemma sftp_download_stops_at_first_failure_witness :
  download_dir 1000 "/app" "out" (Some stale_manifest) (Some bundle_dirs) None
    (start bundle None)
  = (inl (OSError "No such file"), snd stale_ssh_tree)
  /\ fs (snd stale_ssh_tree) !! "out/a/f1" = Some f1
  /\ fs (snd stale_ssh_tree) !! "out/a/b/f2" = None
  /\ exists session evs,
       trace (snd stale_ssh_tree)
       = trace (start bundle None)
         ++ EvMakedirs "out" :: makedirs_events "out" bundle_dirs
         ++ EvSftpSession session :: evs.
Proof.
  split; [exact stale_ssh_tree_fails |].
  split; [vm_compute; reflexivity |]. split; [vm_compute; reflexivity |].
  destruct (sftp_download_stops_at_first_failure _ _ _ _ _ _ _ _ _ stale_ssh_tree_fails)
    as (session & evs & Htrace & _).
  exists session, evs. exact Htrace.
Defined.

End SftpExamples.

(* ===================================================================== *)
(** * Properties of the names *)
(* ===================================================================== *)

Module NameFacts.
Import Utils Apps.

Lemma eqb_empty (s : string) : String.eqb s "" = true <-> s = "".
Proof. apply String.eqb_eq. Qed.

Lemma safe_is_no_space (c : ascii) : is_safe c = true -> is_space c = false.
Proof.
  destruct c as [b0 b1 b2 b3 b4 b5 b6 b7].
  destruct b0, b1, b2, b3, b4, b5, b6, b7; vm_compute; congruence.
Qed.

Lemma drop_while_none {A} (p : A -> bool) (l : list A) :
  Forall (fun x => p x = false) l -> Posix.drop_while p l = l.
Proof. destruct 1 as [| x l Hx _]; simpl; [reflexivity | rewrite Hx; reflexivity]. Qed.

Lemma strip_safe (s : string) : all_safe s -> strip s = s.
Proof.
  intros Hsafe. unfold strip.
  assert (Hns : Forall (fun c => is_space c = false) (list_ascii_of_string s)).
  { eapply Forall_impl; [exact Hsafe | exact safe_is_no_space]. }
  rewrite (drop_while_none _ _ Hns).
  rewrite drop_while_none by (apply Forall_rev; exact Hns).
  rewrite rev_involutive. apply string_of_list_ascii_of_string.
Qed.

Lemma replace_unsafe_safe (s : string) : all_safe (replace_unsafe s).
Proof.
  unfold all_safe, replace_unsafe. rewrite list_ascii_of_string_of_list_ascii.
  induction (list_ascii_of_string s) as [| c l IH]; simpl; constructor; [| exact IH].
  destruct (is_safe c) eqn:Hc; [exact Hc | reflexivity].
Qed.

Lemma replace_unsafe_id (s : string) : all_safe s -> replace_unsafe s = s.
Proof.
  unfold all_safe, replace_unsafe. intros Hsafe.
  rewrite <- (string_of_list_ascii_of_string s) at 2. f_equal.
  induction Hsafe as [| c l Hc _ IH]; simpl; [reflexivity |].
  rewrite Hc, IH. reflexivity.
Qed.

(** X19. [sanitize_filename] answers the fallback or a name that is not
    empty and holds only letters, digits, [.], [_] and [-], so no path
    separator.  With a fallback made of such characters the answer is made
    of them too, and sanitizing it again changes nothing. *)
Theorem sanitize_filename_is_safe (name fallback : string) :
  (sanitize_filename name fallback = fallback
   \/ (sanitize_filename name fallback <> ""
       /\ all_safe (sanitize_filename name fallback)))
  /\ (all_safe fallback ->
      all_safe (sanitize_filename name fallback)
      /\ sanitize_filename (sanitize_filename name fallback) fallback
         = sanitize_filename name fallback).
Proof.
  assert (Hshape : sanitize_filename name fallback = fallback
                   \/ (sanitize_filename name fallback <> ""
                       /\ all_safe (sanitize_filename name fallback))).
  { unfold sanitize_filename.
    destruct (String.eqb name ""); [left; reflexivity |].
    destruct (String.eqb (replace_unsafe (strip name)) "") eqn:Hempty;
      [left; reflexivity |].
    right. split; [| apply replace_unsafe_safe].
    intros Heq. apply eqb_empty in Heq. congruence. }
  split; [exact Hshape |].
  intros Hfallback.
  assert (Hsafe : all_safe (sanitize_filename name fallback)).
  { destruct Hshape as [-> | [_ H]]; assumption. }
  split; [exact Hsafe |].
  set (safe := sanitize_filename name fallback) in *.
  unfold sanitize_filename at 1.
  destruct (String.eqb safe "") eqn:Hempty.
  - apply eqb_empty in Hempty.
    destruct Hshape as [Heq | [Hne _]]; [congruence | contradiction].
  - rewrite (strip_safe safe Hsafe), (replace_unsafe_id safe Hsafe), Hempty.
    reflexivity.
Qed.

Lemma sanitize_filename_is_safe_witness :
  all_safe "app"
  /\ sanitize_filename "  My App/v2.0 " "app" = "My_App_v2.0"
  /\ sanitize_filename (sanitize_filename "  My App/v2.0 " "app") "app"
     = sanitize_filename "  My App/v2.0 " "app".
Proof.
  split; [repeat constructor |]. split; [reflexivity |].
  exact (proj2 (proj2 (sanitize_filename_is_safe "  My App/v2.0 " "app")
                  ltac:(repeat constructor))).
Defined.

Lemma exact_match_is_lowered_match (app : Application) (target : string) :
  matches_exactly app target = true -> matches_lowered app (lower target) = true.
Proof.
  unfold matches_exactly, matches_lowered. intros H.
  apply orb_true_iff in H as [H | H]; apply orb_true_iff.
  - left. apply String.eqb_eq in H. rewrite H. apply String.eqb_refl.
  - right. apply bool_decide_eq_true in H. rewrite H. simpl. apply String.eqb_refl.
Qed.

(** X20. [resolve_app] answers the first application of the list whose
    identifier or name (a missing name counts as empty) equals the target
    once both are lowered, and [None] when there is none: an exact match
    further down the list does not come before a match up to case. *)
Theorem resolve_app_takes_first_match (apps : list Application) (target : string) :
  resolve_app apps target
  = find (fun app => matches_lowered app (lower target)) apps.
Proof.
  induction apps as [| app apps IH]; simpl; [reflexivity |].
  destruct (matches_exactly app target) eqn:Hexact.
  - rewrite (exact_match_is_lowered_match _ _ Hexact). reflexivity.
  - destruct (matches_lowered app (lower target)); [reflexivity | exact IH].
Qed.

End NameFacts.

Module NameExamples.
Import Utils Apps Scenes.

(** The exact identifier of the second application resolves to the
    first. *)
Lemma earlier_match_up_to_case_wins :
  resolve_app shadowed_apps "com.example.app"
  = Some (mkApp "com.example.App" (Some "Demo") 11).
Proof. reflexivity. Qed.

(** Names the sanitizer lets through, and names it replaces. *)
Lemma sanitize_filename_examples :
  sanitize_filename ".." "app" = ".."
  /\ sanitize_filename "   " "app" = "app"
  /\ sanitize_filename "a/b" "app" = "a_b".
Proof. repeat split. Qed.

End NameExamples.

(* ===================================================================== *)
(** * Properties of get_bundle_info *)
(* ===================================================================== *)

Section BundleInfoFacts.

Context {R Info : Type} {A : BundleInfoAgent R Info}.

Lemma get_bundle_info_loop_spec : forall (retries : nat) (r : R),
  match get_bundle_info_loop retries r with
  | (inr info, r') =>
      exists k rk,
        (k < retries)%nat
        /\ after_failures k r = Some rk
        /\ exports_getbundleinfo rk = (inr info, r')
  | (inl exc, r') =>
      exc = RuntimeError "Failed to fetch bundle info"
      /\ after_failures retries r = Some r'
  end.
Proof.
  induction retries as [| retries IH]; intros r; simpl.
  - split; reflexivity.
  - unfold try_except.
    destruct (exports_getbundleinfo r) as [[exc | info] r1] eqn:Hcall.
    + specialize (IH r1).
      destruct (get_bundle_info_loop retries r1) as [[exc' | info] r'].
      * exact IH.
      * destruct IH as (k & rk & Hk & Hfail & Hans).
        exists (S k), rk. split; [lia |]. split; [| exact Hans].
        simpl. rewrite Hcall. exact Hfail.
    + exists 0%nat, r. split; [lia |]. split; [reflexivity | exact Hcall].
Qed.

(** X21. [get_bundle_info] calls the agent until it answers and returns
    the first answer, after fewer than [retries] failed calls.  When it
    raises, the error is the [RuntimeError] "Failed to fetch bundle info"
    whatever the agent raised, and the agent was called [retries] times
    without an answer: not at all when [retries] is zero or negative. *)
Theorem get_bundle_info_returns_first_answer (retries : Z) (r : R) :
  match get_bundle_info retries r with
  | (inr info, r') =>
      exists k rk,
        Z.of_nat k < retries
        /\ after_failures k r = Some rk
        /\ exports_getbundleinfo rk = (inr info, r')
  | (inl exc, r') =>
      exc = RuntimeError "Failed to fetch bundle info"
      /\ after_failures (Z.to_nat retries) r = Some r'
      /\ (retries <= 0 -> r' = r)
  end.
Proof.
  unfold get_bundle_info.
  pose proof (get_bundle_info_loop_spec (Z.to_nat retries) r) as H.
  destruct (get_bundle_info_loop (Z.to_nat retries) r) as [[exc | info] r'].
  - destruct H as [Hexc Hfail]. split; [exact Hexc |]. split; [exact Hfail |].
    intros Hle. replace (Z.to_nat retries) with 0%nat in Hfail by lia.
    simpl in Hfail. congruence.
  - destruct H as (k & rk & Hk & Hfail & Hans).
    exists k, rk. split; [lia |]. split; assumption.
Qed.

End BundleInfoFacts.

Module BundleInfoExamples.
Import Scenes.

(** The agent that is ready at the third call answers within the default
    forty attempts and not within two. *)
Lemma slow_agent_answers :
  @get_bundle_info nat string slow_agent 40 0%nat = (inr "com.example.app", 3%nat)
  /\ @get_bundle_info nat string slow_agent 2 0%nat
     = (inl (RuntimeError "Failed to fetch bundle info"), 2%nat).
Proof. split; reflexivity. Qed.

End BundleInfoExamples.

(* ===================================================================== *)
(** * Properties of the SSH client's session *)
(* ===================================================================== *)

Module SshClientFacts.
Import SshClient.

Section Facts.

Context {R : Type} {P : Paramiko R}.

(** X22. The SFTP session is opened on the first access and used again
    after that: once the [_sftp] field is set, an access returns without a
    call of the library and leaves everything as it is.  An access that
    returns has set the field; an access on a client that is not connected
    raises [RuntimeError] and changes nothing.  The field is set as soon as
    the session is opened, also when setting its timeout then raises. *)
Theorem sftp_session_is_reused (s s' : R * fields) (r : Exception + unit) :
  sftp s = (r, s') ->
  (_sftp (snd s') = true -> sftp s' = (inr tt, s'))
  /\ (r = inr tt -> _sftp (snd s') = true)
  /\ (_sftp (snd s) = false -> _client (snd s) = false ->
      r = inl (RuntimeError "SSH client not connected.") /\ s' = s)
  /\ (forall e, _sftp (snd s) = false -> _client (snd s) = true ->
      client_open_sftp (fst s) = (inr tt, e) -> _sftp (snd s') = true)
  /\ _client (snd s') = _client (snd s).
Proof.
  intros Hrun.
  assert (Hreuse : _sftp (snd s') = true -> sftp s' = (inr tt, s')).
  { intros Hset. unfold sftp, bind, gets. rewrite Hset. reflexivity. }
  split; [exact Hreuse |].
  clear Hreuse. revert Hrun. destruct s as [r0 [c f]].
  unfold sftp, bind, gets, library, set_fields, modify, ret, raise. simpl.
  destruct f; simpl.
  - intros [= <- <-]. repeat split; intros; try discriminate; congruence.
  - destruct c; simpl.
    + destruct (client_open_sftp r0) as [[exc | []] e1] eqn:Hopen; simpl.
      * intros [= <- <-]. simpl. repeat split; intros; try discriminate; congruence.
      * destruct (channel_settimeout e1) as [[exc | []] e2];
          intros [= <- <-]; simpl; repeat split; intros; try discriminate; congruence.
    + intros [= <- <-]. repeat split; intros; try discriminate; congruence.
Qed.

(** X23. [close] never raises, whatever the two [close] of the library
    raise, and clears both the session and the client.  After it an access
    to the SFTP session raises "SSH client not connected.", and a second
    [close] does nothing. *)
Theorem close_never_raises (s : R * fields) :
  exists e,
    close s = (inr tt, (e, mkFields false false))
    /\ sftp (e, mkFields false false)
       = (inl (RuntimeError "SSH client not connected."), (e, mkFields false false))
    /\ close (e, mkFields false false) = (inr tt, (e, mkFields false false)).
Proof.
  destruct s as [r0 [c f]].
  unfold close, bind, gets, try_except, library, set_fields, modify, ret. simpl.
  destruct f, c; simpl.
  - destruct (sftp_close r0) as [[exc | []] e1]; simpl;
      destruct (client_close e1) as [[exc' | []] e2]; simpl;
      eexists; repeat split.
  - destruct (sftp_close r0) as [[exc | []] e1]; simpl; eexists; repeat split.
  - destruct (client_close r0) as [[exc' | []] e2]; simpl; eexists; repeat split.
  - eexists; repeat split.
Qed.

End Facts.

Import Scenes.

(** On the client whose channel refuses the timeout, the first access
    raises and the second returns the session that was opened. *)
Lemma sftp_session_is_reused_witness :
  @sftp nat no_timeout_client (0%nat, mkFields true false)
  = (inl (OSError "Socket is closed"), (1%nat, mkFields true true))
  /\ @sftp nat no_timeout_client (1%nat, mkFields true true)
     = (inr tt, (1%nat, mkFields true true)).
Proof.
  assert (Hrun : @sftp nat no_timeout_client (0%nat, mkFields true false)
                 = (inl (OSError "Socket is closed"), (1%nat, mkFields true true)))
    by reflexivity.
  split; [exact Hrun |].
  exact (proj1 (@sftp_session_is_reused nat no_timeout_client _ _ _ Hrun) eq_refl).
Defined.

(** A new client is not connected; once connected, its first access opens
    the session, here the only one. *)
Lemma new_client_is_not_connected :
  @sftp nat no_timeout_client (0%nat, __init__)
  = (inl (RuntimeError "SSH client not connected."), (0%nat, __init__))
  /\ snd (bind (@connect nat no_timeout_client)
            (fun _ => bind (@sftp nat no_timeout_client)
                        (fun _ => @sftp nat no_timeout_client)) (0%nat, __init__))
     = (1%nat, mkFields true true).
Proof. split; reflexivity. Qed.

End SshClientFacts.

(* ===================================================================== *)
(** * The download of the files one after the other *)
(* ===================================================================== *)

Section SequentialFacts.

Context {R T : Type} {D : Dumper R} {TT : Terminal R T}.

Lemma for_each_raises {St E A} (body : A -> M St E unit) :
  forall (xs : list A) (s s' : St) (e : E),
    for_each xs body s = (inl e, s') ->
    exists k x s1,
      xs !! k = Some x
      /\ for_each (take k xs) body s = (inr tt, s1)
      /\ body x s1 = (inl e, s').
Proof.
  induction xs as [| x xs IH]; intros s s' e; simpl; [discriminate |].
  unfold bind. destruct (body x s) as [[e0 | []] s0] eqn:Hbody.
  - intros [= <- <-]. exists 0%nat, x, s. repeat split. exact Hbody.
  - intros Hrest. apply IH in Hrest as (k & y & s1 & Hlook & Hpre & Hfail).
    exists (S k), y, s1. split; [exact Hlook |]. split; [| exact Hfail].
    simpl. unfold bind. rewrite Hbody. exact Hpre.
Qed.

(** X24. When the files are copied one after the other (one worker, or
    at most one file with a size entry), the first copy that raises ends
    [pull_bundle_via_frida] with its error, also for an error of a single
    file: every event after the directories are made belongs to that file
    or to one before it in the list, so the files after it are neither
    opened nor read. *)
Theorem sequential_download_stops_at_first_failure (sched : nat -> nat)
    (bundle_path local_dir : string) (config : option TransferConfig)
    (files dirs : list string) (sizes : gmap string Z) (progress : option nat)
    (w w' : World R T) (e : Exception) :
  let valid := filter (fun rel => is_Some (sizes !! rel)) files in
  (1 <? max_workers (default default_config config)) && (1 <? Z.of_nat (length valid))
    = false ->
  pull_bundle_via_frida sched bundle_path local_dir config (Some files) (Some dirs)
    (Some sizes) progress w = (inl e, w') ->
  exists k rel evs,
    valid !! k = Some rel
    /\ trace w' = trace w ++ EvMakedirs local_dir :: makedirs_events local_dir dirs ++ evs
    /\ Forall (copies_one_of bundle_path local_dir (take (S k) valid)) evs
    /\ exists w1,
         pull_file_via_frida (Posix.slash bundle_path rel) (Posix.join local_dir rel)
           (chunk_size (default default_config config)) (sizes !! rel) progress w1
         = (inl e, w').
Proof.
  intros valid Hseq. rewrite pull_bundle_listed. cbv zeta. fold valid. rewrite Hseq.
  intros Hrun.
  apply for_each_raises in Hrun as (k & rel & w1 & Hlook & Hpre & Hfail).
  exists k, rel.
  assert (Hunit : forall x, x ∈ take (S k) valid -> forall (w0 w0' : World R T) r0,
            pull_file_via_frida (Posix.slash bundle_path x) (Posix.join local_dir x)
              (chunk_size (default default_config config)) (sizes !! x) progress w0
              = (r0, w0') ->
            extends (copies_one_of bundle_path local_dir (take (S k) valid)) w0 w0').
  { intros x Hx w0 w0' r0 Hx_run.
    assert (Hsize : is_Some (sizes !! x)).
    { apply elem_of_take in Hx as (i & Hi & _).
      apply list_elem_of_lookup_2 in Hi.
      unfold valid in Hi. apply list_elem_of_filter in Hi. tauto. }
    destruct Hsize as [size Hsize]. rewrite Hsize in Hx_run.
    eapply extends_weaken; [| eapply pull_file_copies; exact Hx_run].
    intros ev Hev. exists x. split; assumption. }
  assert (Hext : extends (copies_one_of bundle_path local_dir (take (S k) valid))
                   (with_dirs local_dir dirs w) w').
  { apply (extends_trans _ _ w1).
    - revert Hpre. apply extends_for_each_in.
      intros x Hx w0 r0 w0'. apply Hunit.
      apply elem_of_take in Hx as (i & Hi & Hlt).
      apply elem_of_take. exists i. split; [exact Hi | lia].
    - eapply Hunit; [| exact Hfail].
      apply elem_of_take. exists k. split; [exact Hlook | lia]. }
  destruct Hext as (evs & Htrace & Hall).
  exists evs. split; [exact Hlook |]. split.
  - rewrite Htrace. unfold with_dirs. simpl. rewrite <- app_assoc. reflexivity.
  - split; [exact Hall | exists w1; exact Hfail].
Qed.

End SequentialFacts.

Module SequentialExamples.
Import Sim Scenes.

Lemma sequential_download_fails :
  pull_bundle_via_frida (fun _ => 0%nat) "/app" "out" (Some one_worker)
    (Some bundle_files) (Some bundle_dirs) (Some bundle_sizes) None (start read_fails None)
  = (inl (OtherException "read failed"), snd sequential_download).
Proof. vm_compute. reflexivity. Qed.

Lemma sequential_download_stops_at_first_failure_witness :
  (1 <? max_workers (default default_config (Some one_worker)))
  && (1 <? Z.of_nat (length (filter (fun rel => is_Some (bundle_sizes !! rel)) bundle_files)))
  = false
  /\ pull_bundle_via_frida (fun _ => 0%nat) "/app" "out" (Some one_worker)
       (Some bundle_files) (Some bundle_dirs) (Some bundle_sizes) None
       (start read_fails None)
     = (inl (OtherException "read failed"), snd sequential_download)
  /\ exists k rel evs,
       filter (fun rel => is_Some (bundle_sizes !! rel)) bundle_files !! k = Some rel
       /\ trace (snd sequential_download)
          = trace (start read_fails None)
            ++ EvMakedirs "out" :: makedirs_events "out" bundle_dirs ++ evs
       /\ Forall (copies_one_of "/app" "out"
                    (take (S k) (filter (fun rel => is_Some (bundle_sizes !! rel))
                                   bundle_files))) evs.
Proof.
  split; [reflexivity |]. split; [exact sequential_download_fails |].
  destruct (sequential_download_stops_at_first_failure (fun _ => 0%nat) "/app" "out"
              (Some one_worker) bundle_files bundle_dirs bundle_sizes None
              (start read_fails None) (snd sequential_download)
              (OtherException "read failed") eq_refl sequential_download_fails)
    as (k & rel & evs & H1 & H2 & H3 & _).
  exists k, rel, evs. split; [exact H1 |]. split; [exact H2 | exact H3].
Defined.

End SequentialExamples.

(* ===================================================================== *)
(** * The bar at the end of a download *)
(* ===================================================================== *)

Section CountingFacts.

Context {R T : Type} {D : Dumper R} {TT : Terminal R T}.






End CountingFacts.

Module CountingExamples.
Import Sim Scenes.





End CountingExamples.
